(** * AiMusicVideoGenerator: the generation pipeline of the server

    A shallow embedding of the server code of the repository and the
    properties of its generation pipeline.  Two server files are embedded:

    - [src/index.js]: the sound-library variant (module [Index]);
    - [src/unnamed/part_000]: the music-generation variant with the shared
      progress object (module [Part000]).

    Conventions of the embedding.

    - Text is a [string] of ASCII characters.  On such text the JavaScript
      string functions used by the code ([toLowerCase], [split] on a regular
      expression, [trim], [length]) are the functions of module [Js].
    - A JavaScript number is [NaN] or a finite rational ([Js.number]); the
      arithmetic of the code ([/ 2], [Math.ceil], [Math.round], [* 0.2]) is
      exact on the small values a request carries.
    - Every call that leaves the process (HTTP requests, the file system, the
      encoder, the database) is answered by an environment [Env], indexed by
      the number of calls made before it, and is recorded in the [trace] of
      the [World].  [console.log], [console.error] and the delay between two
      image requests have no effect on the model.
    - A run of a route is one function from [World] to a result and a
      [World]: the runs of two requests follow each other, they do not
      interleave. *)

From Stdlib Require Import String Ascii List ZArith QArith Qround Lia Bool.
From Stdlib Require Import DecimalString.
Import ListNotations.

Local Open Scope string_scope.
Local Open Scope Z_scope.

(* ================================================================= *)
(** ** JavaScript values and built-ins *)

Module Js.

(** [Number(x)]: not-a-number, or a finite number. *)
Inductive number : Type :=
| NaN
| Num (q : Q).

Definition isNaN (x : number) : bool :=
  match x with
  | NaN => true
  | Num _ => false
  end.

(** [Math.ceil(x)] and [Math.round(x)] (halves round up) on a finite number. *)
Definition Math_ceil (x : Q) : Z := Qceiling x.
Definition Math_round (x : Q) : Z := Qfloor (x + (1 # 2)).
Definition Math_floor (x : Q) : Z := Qfloor x.

(** [String(n)] for an integer [n]. *)
Definition String_of_Z (n : Z) : string := NilZero.string_of_int (Z.to_int n).

(** A string is truthy when it is not empty. *)
Definition truthy (s : string) : bool :=
  match s with
  | EmptyString => false
  | String _ _ => true
  end.

Definition code (c : ascii) : nat := nat_of_ascii c.

Definition is_upper (c : ascii) : bool := (65 <=? code c)%nat && (code c <=? 90)%nat.
Definition is_lower (c : ascii) : bool := (97 <=? code c)%nat && (code c <=? 122)%nat.
Definition is_digit (c : ascii) : bool := (48 <=? code c)%nat && (code c <=? 57)%nat.

(** The class [\w]: letters, digits and the underscore; [\W] is its
    complement. *)
Definition is_word (c : ascii) : bool :=
  is_upper c || is_lower c || is_digit c || (code c =? 95)%nat.

(** The class [\s] on ASCII: tab, line feed, vertical tab, form feed,
    carriage return and space. *)
Definition is_space (c : ascii) : bool :=
  ((9 <=? code c)%nat && (code c <=? 13)%nat) || (code c =? 32)%nat.

Definition lower_char (c : ascii) : ascii :=
  if is_upper c then ascii_of_nat (code c + 32) else c.

(** [s.toLowerCase()] *)
Fixpoint toLowerCase (s : string) : string :=
  match s with
  | EmptyString => EmptyString
  | String c s' => String (lower_char c) (toLowerCase s')
  end.

(** [s.split(/[sep]+/)]: the pieces of [s] between maximal runs of
    separator characters.  As in JavaScript, a leading or a trailing run
    leaves an empty piece at that end, and the empty string splits to one
    empty piece.  [cur] is the piece being read, [in_run] tells whether the
    previous character was a separator. *)
Fixpoint split_go (sep : ascii -> bool) (s : string) (cur : string)
  (in_run : bool) : list string :=
  match s with
  | EmptyString => [cur]
  | String c s' =>
      if sep c then
        if in_run then split_go sep s' EmptyString true
        else cur :: split_go sep s' EmptyString true
      else split_go sep s' (cur ++ String c EmptyString) false
  end.

Definition split (sep : ascii -> bool) (s : string) : list string :=
  split_go sep s EmptyString false.

(** [s.trim()] *)
Fixpoint trimStart (s : string) : string :=
  match s with
  | EmptyString => EmptyString
  | String c s' => if is_space c then trimStart s' else s
  end.

Fixpoint trimEnd (s : string) : string :=
  match s with
  | EmptyString => EmptyString
  | String c s' =>
      match trimEnd s' with
      | EmptyString => if is_space c then EmptyString else String c EmptyString
      | t => String c t
      end
  end.

Definition trim (s : string) : string := trimEnd (trimStart s).

(** [arr.includes(w)] on an array of strings. *)
Definition includes (arr : list string) (w : string) : bool :=
  existsb (String.eqb w) arr.

(** [arr.join(sep)] *)
Fixpoint join (sep : string) (arr : list string) : string :=
  match arr with
  | [] => EmptyString
  | [x] => x
  | x :: rest => x ++ sep ++ join sep rest
  end.

End Js.

(* ================================================================= *)
(** ** Code shared by the two server files *)

Definition DEFAULT_CATEGORIES : list string :=
  [ "ambient music"; "background music"; "soundtrack";
    "atmospheric music"; "instrumental" ].

(** [scenes[index]]: the scene table, keyed 1 to 5. *)
Definition scenes (index : Z) : option string :=
  match index with
  | 1 => Some "wide establishing shot, cinematic landscape"
  | 2 => Some "medium shot, focusing on main subject"
  | 3 => Some "close-up shot, showing details"
  | 4 => Some "action shot, dynamic movement"
  | 5 => Some "dramatic finale shot"
  | _ => None
  end.

Definition enhancers : list string :=
  [ "cinematic lighting"; "professional photography"; "high detail";
    "8k resolution"; "masterful composition" ].

(** [generateFramePrompt(basePrompt, index, totalFrames)] *)
Definition generateFramePrompt (basePrompt : string) (index totalFrames : Z)
  : string :=
  let sceneType :=
    match scenes index with
    | Some s => s
    | None => "wide establishing shot, cinematic landscape"
    end in
  basePrompt ++ ", " ++ sceneType ++ ", " ++ Js.join ", " enhancers.

Definition commonWords : list string :=
  [ "a"; "an"; "the"; "and"; "or"; "but"; "in"; "on"; "at"; "to"; "for";
    "with"; "by" ].

(** [extractKeywords(prompt)] *)
Definition extractKeywords (prompt : string) : list string :=
  let words := Js.split (fun c => negb (Js.is_word c)) (Js.toLowerCase prompt) in
  filter (fun word =>
            (2 <? Z.of_nat (String.length word)) && negb (Js.includes commonWords word))
         words.

(** The keyword extraction written inline at the head of
    [getAudioFromFreesound] (index.js): split on runs of white space and of
    the punctuation [. , ! ?], keep the words longer than three characters,
    drop four stop words. *)
Definition is_space_or_punct (c : ascii) : bool :=
  Js.is_space c ||
  Ascii.eqb c "."%char || Ascii.eqb c ","%char ||
  Ascii.eqb c "!"%char || Ascii.eqb c "?"%char.

Definition inlineKeywords (prompt : string) : list string :=
  filter (fun word => negb (Js.includes ["with"; "and"; "the"; "for"] word))
    (filter (fun word => 3 <? Z.of_nat (String.length word))
       (Js.split is_space_or_punct (Js.toLowerCase prompt))).

(** The extractor as section 4.2 of the specification words it: lower-case,
    split on runs of non-word characters, keep the tokens longer than three
    characters that are not stop words. *)
Definition spec_extractKeywords (prompt : string) : list string :=
  filter (fun word =>
            (3 <? Z.of_nat (String.length word)) && negb (Js.includes commonWords word))
         (Js.split (fun c => negb (Js.is_word c)) (Js.toLowerCase prompt)).

(* ================================================================= *)
(** ** The world outside the process *)

(** A thrown [Error], by its [message]. *)
Definition Error : Type := string.

Inductive Res (A : Type) : Type :=
| Ok (a : A)
| Throw (message : Error).
Arguments Ok {A} a.
Arguments Throw {A} message.

(** [path.join(__dirname, dir, base)]; [path.basename] is [base]. *)
Record Path : Type := mkPath { dir : string; base : string }.

(** The body of a text-to-image request (guidance scale, size and sample
    count are the same constants in every request). *)
Record ImageParams : Type := mkImageParams {
  text : string;
  steps : Z;
  seed : option Z
}.

(** [response.data?.artifacts?.[0]?.base64]: the payload of the first
    artifact, when the response has one. *)
Record ImageResponse : Type := mkImageResponse { artifact_base64 : option string }.

(** The parameters of a sound-library search; [sort] is ['rating_desc'] and
    [page_size] is 1 in every request. *)
Record SearchParams : Type := mkSearchParams {
  query : string;
  fields : string;
  filter_from : Q;
  filter_to : Q
}.

(** One search result: [sound.name] and [sound.previews['preview-hq-mp3']]. *)
Record Sound : Type := mkSound {
  sound_name : string;
  preview_hq_mp3 : option string
}.

(** A search response: [config.params.query] and [data.results], which may be
    absent. *)
Record SearchResponse : Type := mkSearchResponse {
  config_query : string;
  results : option (list Sound)
}.

(** The filter graph handed to the encoder: a string (index.js) or one
    [concat] filter object (part_000). *)
Inductive FilterSpec : Type :=
| FilterString (graph : string)
| FilterConcat (n v a : Z) (outputs : string).

(** An encoder command as the fluent builder accumulates it. *)
Record Command : Type := mkCommand {
  fps : option Z;
  inputs : list (Path * list string);
  complexFilter : FilterSpec;
  outputOptions : list string;
  output : Path
}.

(** What the encoder emits: progress events, then ['end'] ([Ok]) or
    ['error'] ([Throw]). *)
Record EncoderRun : Type := mkEncoderRun {
  percents : list Q;
  outcome : Res unit
}.

(** A document of the [Video] collection. *)
Record Video : Type := mkVideo {
  prompt : string;
  videoUrl : string;
  duration : Q;
  createdAt : Z;
  hasAudio : bool
}.

(** The calls that leave the process. *)
Inductive Call : Type :=
| CStability (req : ImageParams)
| CFreesound (req : SearchParams)
| CDownload (url : string)
| CAudioCraft (prompt : string) (duration : Q)
| CExists (dir : string)
| CMkdir (dir : string)
| CWriteFile (p : Path)
| CStat (p : Path)
| CUnlink (p : Path)
| CFfmpeg (cmd : Command)
| CSave (v : Video).

(** The environment answers each call; the first argument is the number of
    calls made before it. *)
Record Env : Type := mkEnv {
  STABILITY_API_KEY : string;
  Date_now : nat -> Z;
  Math_random : nat -> Q;
  stability : nat -> ImageParams -> Res ImageResponse;
  freesound : nat -> SearchParams -> Res (option (list Sound));
  download : nat -> string -> Res string;
  audiocraft : nat -> string -> Q -> Res string;
  fs_exists : nat -> string -> bool;
  fs_mkdir : nat -> string -> Res unit;
  fs_writeFile : nat -> Path -> Res unit;
  fs_stat : nat -> Path -> Res Z;
  ffmpeg : nat -> Command -> EncoderRun;
  db_save : nat -> Video -> Res unit
}.

(** The shared progress object of part_000. *)
Record Progress : Type := mkProgress {
  progress : Z;
  status : string;
  progress_videoUrl : option string;
  error : option string
}.

(** The state of one server process: the calls made so far, the current
    progress object with every value it has had (oldest first), and the
    [Video] collection. *)
Record World : Type := mkWorld {
  trace : list Call;
  generationProgress : Progress;
  reported : list Progress;
  videos : list Video
}.

Definition initialProgress : Progress :=
  {| progress := 0; status := ""; progress_videoUrl := None; error := None |}.

Definition initialWorld : World :=
  {| trace := []; generationProgress := initialProgress;
     reported := [initialProgress]; videos := [] |}.

(* ================================================================= *)
(** ** The monad of the server code: state and exceptions *)

Definition M (A : Type) : Type := World -> Res A * World.

Definition ret {A} (a : A) : M A := fun w => (Ok a, w).

Definition bind {A B} (m : M A) (k : A -> M B) : M B :=
  fun w =>
    match m w with
    | (Ok a, w') => k a w'
    | (Throw e, w') => (Throw e, w')
    end.

Definition throw {A} (message : Error) : M A := fun w => (Throw message, w).

(** [try { m } catch (error) { handler(error) }] *)
Definition try_catch {A} (m : M A) (handler : Error -> M A) : M A :=
  fun w =>
    match m w with
    | (Ok a, w') => (Ok a, w')
    | (Throw e, w') => handler e w'
    end.

Declare Scope js_scope.
Delimit Scope js_scope with js.
Notation "x <- m ;; k" := (bind m (fun x => k))
  (at level 61, m at next level, right associativity) : js_scope.
Notation "m ;; k" := (bind m (fun _ => k))
  (at level 61, right associativity) : js_scope.
Local Open Scope js_scope.

Definition log (c : Call) (w : World) : World :=
  {| trace := trace w ++ [c]; generationProgress := generationProgress w;
     reported := reported w; videos := videos w |}.

(** A call to the outside: recorded, and answered by the environment. *)
Definition call {A} (c : Call) (answer : nat -> Res A) : M A :=
  fun w => (answer (List.length (trace w)), log c w).

(** The number of calls made so far, for [Date.now()] and [Math.random()]. *)
Definition clock : M nat := fun w => (Ok (List.length (trace w)), w).

(** An assignment to the progress object: the new value is also appended to
    the values reported. *)
Definition assign (f : Progress -> Progress) : M unit :=
  fun w =>
    let p := f (generationProgress w) in
    (Ok tt, {| trace := trace w; generationProgress := p;
               reported := reported w ++ [p]; videos := videos w |}).

Definition set_status (s : string) : M unit :=
  assign (fun p => {| progress := progress p; status := s;
                      progress_videoUrl := progress_videoUrl p; error := error p |}).

Definition set_progress (n : Z) : M unit :=
  assign (fun p => {| progress := n; status := status p;
                      progress_videoUrl := progress_videoUrl p; error := error p |}).

Definition set_error (e : string) : M unit :=
  assign (fun p => {| progress := progress p; status := status p;
                      progress_videoUrl := progress_videoUrl p; error := Some e |}).

(** [await video.save()]: on success the document is in the collection. *)
Definition insert (v : Video) (w : World) : World :=
  {| trace := trace w; generationProgress := generationProgress w;
     reported := reported w; videos := videos w ++ [v] |}.

(** The request body after [Number(duration)]: [prompt] may be missing. *)
Record Body : Type := mkBody {
  body_prompt : option string;
  body_duration : Js.number
}.

(** What the route sends back. *)
Inductive Response : Type :=
| RespError (code : Z) (error : string)
| RespVideo (video : Video) (fullUrl : string)
| RespUrl (videoUrl : string).

(** [!prompt?.trim() || isNaN(durationNum)] *)
Definition invalid (body : Body) : bool :=
  negb (match body_prompt body with
        | Some p => Js.truthy (Js.trim p)
        | None => false
        end)
  || Js.isNaN (body_duration body).

(** [Math.ceil(durationNum / 2)], the frame count the routes ask for. *)
Definition frameCount (durationNum : Q) : Z := Js.Math_ceil (durationNum / 2).

(** [fs.unlink(p).catch(console.error)]: a failure to remove is logged and
    dropped. *)
Definition unlink (p : Path) : M unit := call (CUnlink p) (fun _ => Ok tt).

Fixpoint unlink_all (ps : list Path) : M unit :=
  match ps with
  | [] => ret tt
  | p :: rest => unlink p ;; unlink_all rest
  end.

(** [existsSync(dir)] then [mkdirSync(dir, { recursive: true })] when the
    directory is missing. *)
Definition ensureDir (env : Env) (d : string) : M unit :=
  found <- call (CExists d) (fun t => Ok (fs_exists env t d)) ;;
  if found : bool then ret tt
  else call (CMkdir d) (fun t => fs_mkdir env t d).

(** [searchResponse.data.results] is present and not empty. *)
Definition has_results (r : SearchResponse) : bool :=
  match results r with
  | Some (_ :: _) => true
  | _ => false
  end.

(** [results[0]] *)
Definition first_result (r : SearchResponse) : option Sound :=
  match results r with
  | Some (s :: _) => Some s
  | _ => None
  end.

(** One [axios.get] on the search endpoint. *)
Definition search (env : Env) (req : SearchParams) : M SearchResponse :=
  data <- call (CFreesound req) (fun t => freesound env t req) ;;
  ret {| config_query := query req; results := data |}.

(** The [axios] GET of [sound.previews['preview-hq-mp3']]; a sound without
    that preview makes the request throw. *)
Definition downloadPreview (env : Env) (sound : Sound) : M string :=
  match preview_hq_mp3 sound with
  | Some url => call (CDownload url) (fun t => download env t url)
  | None => throw "Cannot read the preview of the sound"
  end.

(** [await video.save()]: recorded, and on success the document is in the
    collection. *)
Definition save (env : Env) (v : Video) : M unit :=
  fun w =>
    match db_save env (List.length (trace w)) v with
    | Ok _ => (Ok tt, insert v (log (CSave v) w))
    | Throw e => (Throw e, log (CSave v) w)
    end.

Definition writeFile (env : Env) (p : Path) : M unit :=
  call (CWriteFile p) (fun t => fs_writeFile env t p).

(** [verifyFile(filePath)]: the file exists and has content.  Both server
    files define this helper; neither calls it. *)
Definition verifyFile (env : Env) (filePath : Path) : M bool :=
  try_catch
    (size <- call (CStat filePath) (fun t => fs_stat env t filePath) ;;
     ret (0 <? size))
    (fun _ => ret false).

(* ================================================================= *)
(** ** src/index.js *)

Module Index.

Section WithEnv.

Variable env : Env.

(** How [searchAndDownloadMusic] reports the tier that found the sound. *)
Inductive SearchMethod : Type := direct | default | keyword.

Record MusicResult : Type := mkMusicResult {
  success : bool;
  musicPath : Path;
  soundName : string;
  searchMethod : SearchMethod
}.

Definition searchParams (q : string) : SearchParams :=
  {| query := q; fields := "id,name,previews"; filter_from := 1; filter_to := 30 |}.

(** A [for ... of] loop of [searchAndDownloadMusic]: each query overwrites
    [searchResponse], and the loop breaks at the first response with
    results. *)
Fixpoint search_loop (queries : list string) (searchResponse : SearchResponse)
  : M SearchResponse :=
  match queries with
  | [] => ret searchResponse
  | q :: rest =>
      r <- search env (searchParams q) ;;
      if has_results r then ret r else search_loop rest r
  end.

(** [searchAndDownloadMusic(prompt, outputPath)] *)
Definition searchAndDownloadMusic (prompt : string) (outputPath : Path)
  : M MusicResult :=
  try_catch
    (r1 <- search env (searchParams prompt) ;;
     r2 <- (if negb (has_results r1)
            then search_loop
                   (map (fun keyword => keyword ++ " music background")
                        (extractKeywords prompt)) r1
            else ret r1) ;;
     r3 <- (if negb (has_results r2)
            then search_loop DEFAULT_CATEGORIES r2
            else ret r2) ;;
     match first_result r3 with
     | None => throw "No matching sounds found after all attempts"
     | Some sound =>
         audio <- downloadPreview env sound ;;
         writeFile env outputPath ;;
         ret {| success := true;
                musicPath := outputPath;
                soundName := sound_name sound;
                searchMethod :=
                  if String.eqb prompt (config_query r3) then direct
                  else if Js.includes DEFAULT_CATEGORIES (config_query r3)
                       then default else keyword |}
     end)
    (fun error => throw error).

(** The body of the loop of [generateVideoFrames], run [remaining] times
    from index [i]. *)
Fixpoint frames_loop (prompt : string) (remaining : nat) (i : Z)
  (frames : list Path) : M (list Path) :=
  match remaining with
  | O => ret frames
  | S k =>
      let framePrompt :=
        prompt ++ ", scene " ++ Js.String_of_Z (i + 1)
               ++ ", cinematic quality, high detail" in
      t <- clock ;;
      let req :=
        {| text := framePrompt; steps := 30;
           seed := Some (Js.Math_floor (Math_random env t * 1000000) + i) |} in
      response <- call (CStability req) (fun t => stability env t req) ;;
      frames' <-
        match artifact_base64 response with
        | Some (String _ _) =>
            let imagePath :=
              {| dir := "temp"; base := "frame_" ++ Js.String_of_Z i ++ ".png" |} in
            writeFile env imagePath ;;
            ret (frames ++ [imagePath])%list
        | _ => ret frames
        end ;;
      frames_loop prompt k (i + 1) frames'
  end.

(** [generateVideoFrames(prompt, numFrames)] *)
Definition generateVideoFrames (prompt : string) (numFrames : Z)
  : M (list Path) :=
  try_catch
    (let minFrames := Z.max 4 numFrames in
     ensureDir env "temp" ;;
     frames <- frames_loop prompt (Z.to_nat minFrames) 0 [] ;;
     if (List.length frames =? 0)%nat
     then throw "Failed to generate any frames"
     else ret frames)
    (fun error => throw error).

(** The display time of one frame, [Math.ceil(duration / frames.length)]. *)
Definition frameTime (duration : Q) (frames : list Path) : Z :=
  Js.Math_ceil (duration / inject_Z (Z.of_nat (List.length frames))).

(** [0, 1, ..., n-1]: the indices of the [map] callbacks. *)
Definition indices (n : nat) : list Z := map Z.of_nat (seq 0 n).

Definition filterGraph (frames : list Path) (audioPath : option Path) : string :=
  let ins :=
    Js.join ""
      (map (fun i => "[" ++ Js.String_of_Z i
                     ++ ":v]scale=1024:1024,setdar=1:1,format=yuv420p[v"
                     ++ Js.String_of_Z i ++ "];")
           (indices (List.length frames))) in
  let concatInputs :=
    Js.join "" (map (fun i => "[v" ++ Js.String_of_Z i ++ "]")
                    (indices (List.length frames))) in
  let filter :=
    ins ++ concatInputs ++ "concat=n="
        ++ Js.String_of_Z (Z.of_nat (List.length frames)) ++ ":v=1:a=0[outv]" in
  let audioFilter :=
    match audioPath with
    | Some _ =>
        ";[" ++ Js.String_of_Z (Z.of_nat (List.length frames))
             ++ ":a]aformat=sample_fmts=fltp:sample_rates=44100:channel_layouts=stereo[outa]"
    | None => ""
    end in
  filter ++ audioFilter.

(** The command [createVideo] builds before it runs it. *)
Definition videoCommand (frames : list Path) (audioPath : option Path)
  (duration : Q) (outputPath : Path) : Command :=
  {| fps := None;
     inputs :=
       map (fun frame =>
              (frame, ["-loop"; "1"; "-t"; Js.String_of_Z (frameTime duration frames)]))
           frames
       ++ match audioPath with
          | Some a => [(a, [])]
          | None => []
          end;
     complexFilter := FilterString (filterGraph frames audioPath);
     outputOptions :=
       ["-map"; "[outv]"]
       ++ match audioPath with
          | Some _ => ["-map"; "[outa]"]
          | None => []
          end
       ++ ["-c:v"; "libx264"; "-preset"; "medium"; "-crf"; "23";
           "-movflags"; "+faststart"; "-pix_fmt"; "yuv420p"; "-r"; "24"];
     output := outputPath |}.

(** [createVideo(frames, audioPath, duration)]: the promise resolves or
    rejects in the ['end'] or the ['error'] handler. *)
Definition createVideo (frames : list Path) (audioPath : option Path)
  (duration : Q) : M Path :=
  t <- clock ;;
  let outputPath :=
    {| dir := "videos"; base := Js.String_of_Z (Date_now env t) ++ ".mp4" |} in
  let command := videoCommand frames audioPath duration outputPath in
  run <- call (CFfmpeg command) (fun t => Ok (ffmpeg env t command)) ;;
  match outcome run with
  | Ok _ =>
      stats <- try_catch
                 (size <- call (CStat outputPath) (fun t => fs_stat env t outputPath) ;;
                  ret (inr size))
                 (fun error => ret (inl error)) ;;
      match stats with
      | inr size =>
          if 0 <? size then ret outputPath
          else throw "Video file is empty"
      | inl error => throw ("Failed to verify video file: " ++ error)
      end
  | Throw err => throw err
  end.

Definition freesoundParams (q : string) (duration : Q) : SearchParams :=
  {| query := q; fields := "id,name,previews,duration";
     filter_from := duration - 5; filter_to := duration + 5 |}.

(** A [for ... of] loop of [getAudioFromFreesound] (the two loops have the
    same body): the first query with a result downloads its preview and
    returns the path of the audio file. *)
Fixpoint audio_loop (queries : list string) (duration : Q) : M (option Path) :=
  match queries with
  | [] => ret None
  | q :: rest =>
      r <- search env (freesoundParams q duration) ;;
      match first_result r with
      | Some sound =>
          audio <- downloadPreview env sound ;;
          t <- clock ;;
          let audioPath :=
            {| dir := "temp";
               base := "audio_" ++ Js.String_of_Z (Date_now env t) ++ ".mp3" |} in
          writeFile env audioPath ;;
          ret (Some audioPath)
      | None => audio_loop rest duration
      end
  end.

(** [getAudioFromFreesound(prompt, duration)]: [None] is the [null] the
    [catch] returns. *)
Definition getAudioFromFreesound (prompt : string) (duration : Q)
  : M (option Path) :=
  try_catch
    (found <- audio_loop
                (map (fun keyword => keyword ++ " music background")
                     (inlineKeywords prompt)) duration ;;
     match found with
     | Some audioPath => ret (Some audioPath)
     | None =>
         found' <- audio_loop DEFAULT_CATEGORIES duration ;;
         match found' with
         | Some audioPath => ret (Some audioPath)
         | None => throw "No suitable audio found"
         end
     end)
    (fun _ => ret None).

(** The stages of the route once the request is valid. *)
Definition pipeline (prompt : string) (durationNum : Q) : M Response :=
  frames <- generateVideoFrames prompt (frameCount durationNum) ;;
  if (List.length frames =? 0)%nat then throw "Failed to generate frames"
  else
    audio <- getAudioFromFreesound prompt durationNum ;;
    match audio with
    | None => throw "Failed to get audio"
    | Some audioPath =>
        videoPath <- createVideo frames (Some audioPath) durationNum ;;
        size <- call (CStat videoPath) (fun t => fs_stat env t videoPath) ;;
        if size =? 0 then throw "Generated video file is empty"
        else
          let videoUrl := "/videos/" ++ base videoPath in
          t <- clock ;;
          let video :=
            {| prompt := prompt; videoUrl := videoUrl; duration := durationNum;
               createdAt := Date_now env t; hasAudio := true |} in
          save env video ;;
          unlink_all frames ;;
          unlink audioPath ;;
          ret (RespVideo video ("http://localhost:5000" ++ videoUrl))
    end.

(** [app.post('/api/generate-video', ...)].  The last branch of the [match]
    is excluded by the test before it. *)
Definition generate_video (body : Body) : M Response :=
  try_catch
    (if invalid body then ret (RespError 400 "Invalid prompt or duration")
     else
       match body_prompt body, body_duration body with
       | Some prompt, Js.Num durationNum => pipeline prompt durationNum
       | _, _ => ret (RespError 400 "Invalid prompt or duration")
       end)
    (fun error =>
       ret (RespError 500
              (if Js.truthy error then error else "Video generation failed"))).

End WithEnv.

End Index.

(* ================================================================= *)
(** ** src/unnamed/part_000 *)

Module Part000.

Section WithEnv.

Variable env : Env.

(** [generateMusicFromPrompt(prompt, duration)] *)
Definition generateMusicFromPrompt (prompt : string) (duration : Q) : M Path :=
  try_catch
    (data <- call (CAudioCraft prompt duration)
                  (fun t => audiocraft env t prompt duration) ;;
     t <- clock ;;
     let outputPath :=
       {| dir := "temp";
          base := "music_" ++ Js.String_of_Z (Date_now env t) ++ ".wav" |} in
     writeFile env outputPath ;;
     ret outputPath)
    (fun error => throw error).

(** The body of the loop of [generateVideoFrames], run [remaining] times
    from index [i]. *)
Fixpoint frames_loop (prompt : string) (numFrames : Z) (remaining : nat)
  (i : Z) (frames : list Path) : M (list Path) :=
  match remaining with
  | O => ret frames
  | S k =>
      let framePrompt := generateFramePrompt prompt i numFrames in
      frames' <-
        try_catch
          (let req := {| text := framePrompt; steps := 25; seed := None |} in
           response <- call (CStability req) (fun t => stability env t req) ;;
           match artifact_base64 response with
           | Some (String _ _) =>
               t <- clock ;;
               let framePath :=
                 {| dir := "temp";
                    base := "frame_" ++ Js.String_of_Z (Date_now env t) ++ "_"
                                     ++ Js.String_of_Z i ++ ".png" |} in
               writeFile env framePath ;;
               set_status ("Generated frame " ++ Js.String_of_Z i ++ "/"
                                              ++ Js.String_of_Z numFrames) ;;
               set_progress
                 (Js.Math_round (inject_Z i / inject_Z numFrames * 40)) ;;
               ret (frames ++ [framePath])%list
           | _ => throw "Invalid response from Stability API"
           end)
          (fun frameError =>
             throw ("Failed to generate frame " ++ Js.String_of_Z i ++ ": "
                                                ++ frameError)) ;;
      frames_loop prompt numFrames k (i + 1) frames'
  end.

(** [generateVideoFrames(prompt, numFrames)] *)
Definition generateVideoFrames (prompt : string) (numFrames : Z)
  : M (list Path) :=
  try_catch
    (if negb (Js.truthy (STABILITY_API_KEY env))
     then throw "Missing Stability API key"
     else frames_loop prompt numFrames (Z.to_nat numFrames) 1 [])
    (fun error => set_error error ;; throw error).

(** The ['progress'] handler of [createVideo], once per event. *)
Fixpoint on_progress (events : list Q) : M unit :=
  match events with
  | [] => ret tt
  | percent :: rest =>
      set_status ("Encoding video: " ++ Js.String_of_Z (Js.Math_round percent) ++ "%") ;;
      set_progress (75 + Js.Math_round (percent * (2 # 10))) ;;
      on_progress rest
  end.

Definition videoCommand (frames : list Path) (audioPath : Path)
  (outputPath : Path) : Command :=
  {| fps := Some 24;
     inputs := map (fun frame => (frame, [])) frames ++ [(audioPath, [])];
     complexFilter := FilterConcat (Z.of_nat (List.length frames)) 1 0 "v";
     outputOptions :=
       ["-c:v"; "libx264"; "-preset"; "medium"; "-crf"; "23"; "-c:a"; "aac";
        "-shortest"; "-movflags"; "+faststart"; "-pix_fmt"; "yuv420p"];
     output := outputPath |}.

(** [createVideo(frames, audioPath, duration)]: the ['end'] handler resolves
    with the output path, the ['error'] handler rejects. *)
Definition createVideo (frames : list Path) (audioPath : Path) (duration : Q)
  : M Path :=
  t <- clock ;;
  let outputPath :=
    {| dir := "videos";
       base := "video_" ++ Js.String_of_Z (Date_now env t) ++ ".mp4" |} in
  let command := videoCommand frames audioPath outputPath in
  run <- call (CFfmpeg command) (fun t => Ok (ffmpeg env t command)) ;;
  on_progress (percents run) ;;
  match outcome run with
  | Ok _ => ret outputPath
  | Throw err => throw ("Failed to create video: " ++ err)
  end.

(** The stages of the route once the request is valid. *)
Definition pipeline (prompt : string) (durationNum : Q) : M Response :=
  assign (fun _ => {| progress := 0; status := "Starting generation...";
                      progress_videoUrl := None; error := None |}) ;;
  set_status "Generating frames..." ;;
  frames <- generateVideoFrames prompt (frameCount durationNum) ;;
  set_status "Generating music..." ;;
  set_progress 45 ;;
  audioPath <- generateMusicFromPrompt prompt durationNum ;;
  set_status "Creating final video..." ;;
  set_progress 75 ;;
  videoPath <- createVideo frames audioPath durationNum ;;
  set_status "Finalizing..." ;;
  set_progress 90 ;;
  let videoUrl := "/videos/" ++ base videoPath in
  t <- clock ;;
  let video :=
    {| prompt := prompt; videoUrl := videoUrl; duration := durationNum;
       createdAt := Date_now env t; hasAudio := true |} in
  save env video ;;
  unlink_all frames ;;
  unlink audioPath ;;
  assign (fun _ => {| progress := 100; status := "Complete!";
                      progress_videoUrl := Some videoUrl; error := None |}) ;;
  ret (RespUrl videoUrl).

(** [app.post('/api/generate-video', ...)].  The last branch of the [match]
    is excluded by the test before it. *)
Definition generate_video (body : Body) : M Response :=
  try_catch
    (if invalid body then throw "Invalid prompt or duration"
     else
       match body_prompt body, body_duration body with
       | Some prompt, Js.Num durationNum => pipeline prompt durationNum
       | _, _ => throw "Invalid prompt or duration"
       end)
    (fun error =>
       set_error error ;;
       set_status "Error occurred" ;;
       set_progress (-1) ;;
       ret (RespError 500 error)).

End WithEnv.

End Part000.

(* ================================================================= *)
(** ** Concrete environments *)

Definition aSound : Sound :=
  {| sound_name := "Morning lake"; preview_hq_mp3 := Some "https://cdn.freesound.org/previews/1.mp3" |}.

(** Every service answers and succeeds: each image request returns an
    image, each search one sound, the encoder reports 50 and 100 percent and
    ends, and the output file has 4096 bytes. *)
Definition happyEnv : Env :=
  {| STABILITY_API_KEY := "sk-test";
     Date_now := fun t => 1700000000000 + Z.of_nat t;
     Math_random := fun _ => 1 # 4;
     stability := fun _ _ => Ok {| artifact_base64 := Some "iVBORw0KGgo=" |};
     freesound := fun _ _ => Ok (Some [aSound]);
     download := fun _ _ => Ok "ID3";
     audiocraft := fun _ _ _ => Ok "RIFF";
     fs_exists := fun _ _ => true;
     fs_mkdir := fun _ _ => Ok tt;
     fs_writeFile := fun _ _ => Ok tt;
     fs_stat := fun _ _ => Ok 4096;
     ffmpeg := fun _ _ => {| percents := [50 # 1; 100 # 1]%Q; outcome := Ok tt |};
     db_save := fun _ _ => Ok tt |}.


Definition with_freesound (f : nat -> SearchParams -> Res (option (list Sound)))
  (env : Env) : Env :=
  {| STABILITY_API_KEY := STABILITY_API_KEY env; Date_now := Date_now env;
     Math_random := Math_random env; stability := stability env;
     freesound := f; download := download env;
     audiocraft := audiocraft env; fs_exists := fs_exists env;
     fs_mkdir := fs_mkdir env; fs_writeFile := fs_writeFile env;
     fs_stat := fs_stat env; ffmpeg := ffmpeg env; db_save := db_save env |}.

Definition with_stat (f : nat -> Path -> Res Z) (env : Env) : Env :=
  {| STABILITY_API_KEY := STABILITY_API_KEY env; Date_now := Date_now env;
     Math_random := Math_random env; stability := stability env;
     freesound := freesound env; download := download env;
     audiocraft := audiocraft env; fs_exists := fs_exists env;
     fs_mkdir := fs_mkdir env; fs_writeFile := fs_writeFile env;
     fs_stat := f; ffmpeg := ffmpeg env; db_save := db_save env |}.



(** The sound library has nothing for any query. *)
Definition silentEnv : Env := with_freesound (fun _ _ => Ok (Some [])) happyEnv.

(** The encoder ends without an error and leaves an empty output file. *)
Definition emptyOutputEnv : Env := with_stat (fun _ _ => Ok 0) happyEnv.

(** The encoder ends without an error and leaves no output file. *)
Definition missingOutputEnv : Env :=
  with_stat (fun _ _ => Throw "ENOENT: no such file or directory") happyEnv.

Definition lakeRequest (seconds : Z) : Body :=
  {| body_prompt := Some "a calm lake at sunrise";
     body_duration := Js.Num (inject_Z seconds) |}.

(* ================================================================= *)
(** ** Observations on a run *)

Definition is_encoder_call (c : Call) : Prop :=
  match c with
  | CFfmpeg _ => True
  | _ => False
  end.

(** What a run adds to the world: calls that satisfy [P] at the end of the
    trace, documents that satisfy [V] at the end of the collection, values
    at the end of the reported progress; and what it keeps: the observation
    [obs] of the progress object. *)
Definition extends {X} (P : Call -> Prop) (V : Video -> Prop)
  (obs : Progress -> X) (w w' : World) : Prop :=
  (exists l, trace w' = (trace w ++ l)%list /\ Forall P l) /\
  (exists l, videos w' = (videos w ++ l)%list /\ Forall V l) /\
  (exists l, reported w' = (reported w ++ l)%list) /\
  obs (generationProgress w') = obs (generationProgress w).

Definition respects {A X} (P : Call -> Prop) (V : Video -> Prop)
  (obs : Progress -> X) (m : M A) : Prop :=
  forall w, extends P V obs w (snd (m w)).

(** What the stages before assembly need of [P] and [obs]: [P] holds of
    every call but those of the encoder, and [obs] does not see the
    progress, the status and the error of the progress object. *)
Definition stage_observer {X} (P : Call -> Prop) (obs : Progress -> X) : Prop :=
  (forall c, ~ is_encoder_call c -> P c) /\
  (forall p n s e,
      obs {| progress := n; status := s;
             progress_videoUrl := progress_videoUrl p; error := e |} = obs p).

(** The observation that sees nothing of the progress object. *)
Definition blind (p : Progress) : unit := tt.

(** The first value a run reports is [p]. *)
Definition starts_reporting {A} (p : Progress) (m : M A) : Prop :=
  forall w, exists l, reported (snd (m w)) = (reported w ++ p :: l)%list.

(** The first call of a run is [c]. *)
Definition starts_with {A} (c : Call) (m : M A) : Prop :=
  forall w, exists l, trace (snd (m w)) = (trace w ++ c :: l)%list.

(** The searches among the calls of a trace, in order. *)
Fixpoint searches (l : list Call) : list SearchParams :=
  match l with
  | [] => []
  | CFreesound req :: rest => req :: searches rest
  | _ :: rest => searches rest
  end.

Definition is_search (c : Call) : Prop :=
  match c with
  | CFreesound _ => True
  | _ => False
  end.

(** The sound library has no sound for the request [req], whenever asked:
    the results are absent or empty. *)
Definition barren (env : Env) (req : SearchParams) : Prop :=
  forall t, freesound env t req = Ok None \/ freesound env t req = Ok (Some []).

(** No search of the environment yields a sound: each one fails or comes
    back without a first result. *)
Definition no_sound (env : Env) : Prop :=
  forall t req,
    match freesound env t req with
    | Ok (Some (_ :: _)) => False
    | _ => True
    end.

(** Every answer of the image service carries an image. *)
Definition has_image (r : ImageResponse) : Prop :=
  match artifact_base64 r with
  | Some (String _ _) => True
  | _ => False
  end.

Definition always_image (env : Env) : Prop :=
  forall t req,
    match stability env t req with
    | Ok r => has_image r
    | Throw _ => True
    end.

(* ================================================================= *)
(** ** Statements about runs *)

(** *** Calls and records *)

Definition any_call (c : Call) : Prop := True.
Definition not_encoder (c : Call) : Prop := ~ is_encoder_call c.

(** An encoder command with an audio track: its last input is a file
    without input options, and the audio is mapped to the output. *)
Definition has_audio_input (cmd : Command) : Prop :=
  (exists audioPath before, inputs cmd = (before ++ [(audioPath, [])])%list)
  /\ In "[outa]" (outputOptions cmd).

(** A call that, when it runs the encoder, runs it with an audio track. *)
Definition encoder_with_audio (c : Call) : Prop :=
  match c with
  | CFfmpeg cmd => has_audio_input cmd
  | _ => True
  end.

Definition any_video (v : Video) : Prop := True.
Definition no_video (v : Video) : Prop := False.
Definition with_audio (v : Video) : Prop := hasAudio v = true.

(** *** Frame generation *)



(** The services of the frame stage never fail: every image request is
    answered with an image, every file is written, and a directory can always
    be made. *)
Definition frame_services_ok (env : Env) : Prop :=
  (forall t req, exists r, stability env t req = Ok r /\ has_image r) /\
  (forall t p, fs_writeFile env t p = Ok tt) /\
  (forall t d, fs_mkdir env t d = Ok tt).

(** *** Keyword extraction *)

(** Every character of [s] passes the test [p]. *)
Fixpoint all_chars (p : ascii -> bool) (s : string) : bool :=
  match s with
  | EmptyString => true
  | String c s' => p c && all_chars p s'
  end.

(** The separators of [extractKeywords]. *)
Definition non_word (c : ascii) : bool := negb (Js.is_word c).

(** The filter of [extractKeywords]. *)
Definition kept (word : string) : bool :=
  (2 <? Z.of_nat (String.length word)) && negb (Js.includes commonWords word).

(** A lower-case word character: a small letter, a digit or the underscore. *)
Definition lower_word (c : ascii) : bool := Js.is_word c && negb (Js.is_upper c).

Definition nonempty (s : string) : bool := Js.truthy s.

(** The example text of the specification. *)
Definition exampleText : string := "A cat and the quick brown fox jumps".

(** *** The audio cascade *)

(** The searches a run of [m] from [w] issues are exactly [qs], in order. *)
Definition searches_of_run {A} (m : M A) (w : World) (qs : list SearchParams) : Prop :=
  exists calls,
    trace (snd (m w)) = (trace w ++ calls)%list /\ searches calls = qs.

Definition search_calls (reqs : list SearchParams) : list Call := map CFreesound reqs.

(** The three tiers of [searchAndDownloadMusic]: the direct query with the
    raw prompt, one query per keyword, the default categories. *)
Definition tier1 (prompt : string) : SearchParams := Index.searchParams prompt.

Definition tier2 (prompt : string) : list SearchParams :=
  map Index.searchParams
      (map (fun keyword => keyword ++ " music background") (extractKeywords prompt)).

Definition tier3 : list SearchParams := map Index.searchParams DEFAULT_CATEGORIES.

(** The two tiers of [getAudioFromFreesound]. *)
Definition keywordTier (prompt : string) (duration : Q) : list SearchParams :=
  map (fun q => Index.freesoundParams q duration)
      (map (fun keyword => keyword ++ " music background") (inlineKeywords prompt)).

Definition defaultTier (duration : Q) : list SearchParams :=
  map (fun q => Index.freesoundParams q duration) DEFAULT_CATEGORIES.

(** The end of [searchAndDownloadMusic], after the searches: the download of
    the preview and the write of the file, or the failure for lack of a
    sound. *)
Definition afterSearches (env : Env) (prompt : string) (outputPath : Path)
  (r3 : SearchResponse) : M Index.MusicResult :=
  match first_result r3 with
  | None => throw "No matching sounds found after all attempts"
  | Some sound =>
      audio <- downloadPreview env sound ;;
      writeFile env outputPath ;;
      ret {| Index.success := true;
             Index.musicPath := outputPath;
             Index.soundName := sound_name sound;
             Index.searchMethod :=
               if String.eqb prompt (config_query r3) then Index.direct
               else if Js.includes DEFAULT_CATEGORIES (config_query r3)
                    then Index.default else Index.keyword |}
  end.

(** *** The progress object *)

(** The progress object a valid request of part_000 starts from. *)
Definition startingProgress : Progress :=
  {| progress := 0; status := "Starting generation...";
     progress_videoUrl := None; error := None |}.

(** The two terminal states: success with the URL of the video, failure
    with the message of the error. *)
Definition completeProgress (url : string) : Progress :=
  {| progress := 100; status := "Complete!";
     progress_videoUrl := Some url; error := None |}.

Definition failedProgress (url : option string) (e : string) : Progress :=
  {| progress := -1; status := "Error occurred";
     progress_videoUrl := url; error := Some e |}.

(** A percent is terminal when it is 100 or -1. *)
Definition terminal (p : Z) : bool := (p =? 100) || (p =? -1).

(** The percents of a list of reports never decrease from one report to the
    next, terminal reports apart. *)
Fixpoint never_decreases (l : list Z) : bool :=
  match l with
  | [] => true
  | a :: rest =>
      match rest with
      | [] => true
      | b :: _ => (terminal a || terminal b || (a <=? b)) && never_decreases rest
      end
  end.

(** A piece of the pipeline of part_000 that returns leaves the progress
    object complete, and one that throws leaves its [videoUrl] as it was. *)
Definition ends_complete (m : M Response) : Prop :=
  forall w,
    match m w with
    | (Ok r, w') =>
        exists url, r = RespUrl url /\ generationProgress w' = completeProgress url
    | (Throw _, w') =>
        progress_videoUrl (generationProgress w')
        = progress_videoUrl (generationProgress w)
    end.

(* ================================================================= *)
(** ** Further statements about the code *)

(** *** Frames *)

(** [i, i+1, ..., i+k-1]: the indices a loop of [k] iterations visits from
    [i]. *)
Definition Zrange (i : Z) (k : nat) : list Z :=
  map (fun j => i + Z.of_nat j) (seq 0 k).

(** The image requests among the calls of a trace, in order. *)
Fixpoint image_requests (l : list Call) : list ImageParams :=
  match l with
  | [] => []
  | CStability req :: rest => req :: image_requests rest
  | _ :: rest => image_requests rest
  end.

(** The prompt index.js sends for the frame of index [i], and the file it
    writes the frame to. *)
Definition scenePrompt (prompt : string) (i : Z) : string :=
  prompt ++ ", scene " ++ Js.String_of_Z (i + 1)
         ++ ", cinematic quality, high detail".

Definition framePath (i : Z) : Path :=
  {| dir := "temp"; base := "frame_" ++ Js.String_of_Z i ++ ".png" |}.

(** *** More environments *)

Definition with_download (f : nat -> string -> Res string) (env : Env) : Env :=
  {| STABILITY_API_KEY := STABILITY_API_KEY env; Date_now := Date_now env;
     Math_random := Math_random env; stability := stability env;
     freesound := freesound env; download := f;
     audiocraft := audiocraft env; fs_exists := fs_exists env;
     fs_mkdir := fs_mkdir env; fs_writeFile := fs_writeFile env;
     fs_stat := fs_stat env; ffmpeg := ffmpeg env; db_save := db_save env |}.

(** The sound library finds a sound for every query, and no preview can be
    downloaded. *)
Definition noDownloadEnv : Env :=
  with_download (fun _ _ => Throw "Request failed with status code 404") happyEnv.

(** *** The calls of a run *)

(** The calls of the stages that fetch or write the frames and the audio. *)
Definition acquires (c : Call) : Prop :=
  match c with
  | CStability _ | CFreesound _ | CDownload _ | CAudioCraft _ _
  | CExists _ | CMkdir _ | CWriteFile _ => True
  | _ => False
  end.

(** [P] holds of every call of those stages, and [obs] does not see the
    progress, the status and the error of the progress object. *)
Definition acquisition_observer {X} (P : Call -> Prop) (obs : Progress -> X) : Prop :=
  (forall c, acquires c -> P c) /\
  (forall p n s e,
      obs {| progress := n; status := s;
             progress_videoUrl := progress_videoUrl p; error := e |} = obs p).

(** The call removes no file. *)
Definition keeps_files (c : Call) : Prop :=
  match c with
  | CUnlink _ => False
  | _ => True
  end.

(** A run of [m] that throws has only made calls that satisfy [P] and saved
    only documents that satisfy [V]. *)
Definition on_throw {A} (P : Call -> Prop) (V : Video -> Prop) (m : M A) : Prop :=
  forall w e, fst (m w) = Throw e -> extends P V blind w (snd (m w)).

(** *** Progress *)

(** The numbers of [l] never decrease, starting from [from]. *)
Fixpoint ascending (from : Z) (l : list Z) : Prop :=
  match l with
  | [] => True
  | a :: rest => from <= a /\ ascending a rest
  end.

(** [Math.round((i / numFrames) * 40)], the percent after frame [i]. *)
Definition frameProgress (i numFrames : Z) : Z :=
  Js.Math_round (inject_Z i / inject_Z numFrames * 40).

(** The calls of a run feed the encoder with what the run wrote: no call
    runs the encoder, or exactly one does, and every input of its command
    is a path that an earlier call of the run wrote to. *)
Definition fed_by_writes (calls : list Call) : Prop :=
  Forall not_encoder calls
  \/ exists before command after,
       calls = (before ++ CFfmpeg command :: after)%list
       /\ Forall not_encoder before
       /\ Forall not_encoder after
       /\ forall p, In p (map fst (inputs command)) -> In (CWriteFile p) before.

(* ================================================================= *)
(** ** The form of [VideoGenerator] (index.js) *)

Module VideoGenerator.

Section WithParseInt.

(** [parseInt(s)]: an integer, or [None] for [NaN]. *)
Variable parseInt : string -> option Z.

(** The state of the component that the handlers of the form read and
    write. *)
Record State : Type := mkState {
  prompt : string;
  duration : Z;
  wordCount : Z
}.

(** [useState('')], [useState(15)], [useState(0)] *)
Definition initialState : State :=
  {| prompt := ""; duration := 15; wordCount := 0 |}.

(** [handlePromptChange(e)], with [value] for [e.target.value]. *)
Definition handlePromptChange (value : string) (st : State) : State :=
  let newPrompt := value in
  let words := Js.split Js.is_space (Js.trim newPrompt) in
  {| prompt := newPrompt;
     duration := duration st;
     wordCount := if Js.truthy (Js.trim newPrompt)
                  then Z.of_nat (List.length words) else 0 |}.

(** [handleDurationChange(event)], with [value] for [event.target.value]. *)
Definition handleDurationChange (value : string) (st : State) : State :=
  match parseInt value with
  | Some n =>
      if (5 <=? n) && (n <=? 30)
      then {| prompt := prompt st; duration := n; wordCount := wordCount st |}
      else st
  | None => st
  end.

(** What the user does to the form. *)
Inductive Event : Type :=
| PromptChange (value : string)
| DurationChange (value : string).

Definition handle (st : State) (e : Event) : State :=
  match e with
  | PromptChange value => handlePromptChange value st
  | DurationChange value => handleDurationChange value st
  end.

(** The state of the form after a sequence of events. *)
Definition after (events : list Event) : State :=
  fold_left handle events initialState.


End WithParseInt.

End VideoGenerator.

(** *** Words *)

(** The last character of [s], when there is one, passes the test [p]. *)
Fixpoint ends_with (p : ascii -> bool) (s : string) : bool :=
  match s with
  | EmptyString => false
  | String c EmptyString => p c
  | String _ s' => ends_with p s'
  end.

(** The first character of [s], when there is one, passes the test [p]. *)
Definition starts_with_char (p : ascii -> bool) (s : string) : bool :=
  match s with
  | EmptyString => false
  | String c _ => p c
  end.

(** The words of a text: its pieces between runs of white space that are
    not empty. *)
Definition words_of (s : string) : list string :=
  filter nonempty (Js.split Js.is_space s).

(* ================================================================= *)
(** * Properties *)

(** ** Running the monad *)

Lemma bind_Ok {A B} (m : M A) (k : A -> M B) w a w1 :
  m w = (Ok a, w1) -> bind m k w = k a w1.
Proof. intros H. unfold bind. rewrite H. reflexivity. Qed.

Lemma bind_Throw {A B} (m : M A) (k : A -> M B) w e w1 :
  m w = (Throw e, w1) -> bind m k w = (Throw e, w1).
Proof. intros H. unfold bind. rewrite H. reflexivity. Qed.

Lemma bind_Ok_inv {A B} (m : M A) (k : A -> M B) w b w' :
  bind m k w = (Ok b, w') ->
  exists a w1, m w = (Ok a, w1) /\ k a w1 = (Ok b, w').
Proof.
  unfold bind. destruct (m w) as [[a|e] w1]; intros H.
  - exists a, w1. split; [reflexivity | exact H].
  - discriminate.
Qed.

Lemma try_catch_rethrow {A} (m : M A) w :
  try_catch m (fun error => throw error) w = m w.
Proof. unfold try_catch, throw. destruct (m w) as [[a|e] w1]; reflexivity. Qed.

(** ** What a run adds *)

Section Respects.

Context {X : Type}.
Variable P : Call -> Prop.
Variable V : Video -> Prop.
Variable obs : Progress -> X.

Lemma extends_refl w : extends P V obs w w.
Proof.
  repeat split; try (exists []; rewrite app_nil_r; auto).
Qed.

Lemma extends_trans w1 w2 w3 :
  extends P V obs w1 w2 -> extends P V obs w2 w3 -> extends P V obs w1 w3.
Proof.
  intros [[l1 [E1 F1]] [[v1 [G1 H1]] [[r1 R1] O1]]]
         [[l2 [E2 F2]] [[v2 [G2 H2]] [[r2 R2] O2]]].
  split; [| split; [| split]].
  - exists (l1 ++ l2)%list. rewrite E2, E1, app_assoc.
    split; [reflexivity | apply Forall_app; split; assumption].
  - exists (v1 ++ v2)%list. rewrite G2, G1, app_assoc.
    split; [reflexivity | apply Forall_app; split; assumption].
  - exists (r1 ++ r2)%list. rewrite R2, R1, app_assoc. reflexivity.
  - rewrite O2. exact O1.
Qed.

Lemma extends_log c w : P c -> extends P V obs w (log c w).
Proof.
  intros Hc. split; [| split; [| split]]; simpl.
  - exists [c]. split; [reflexivity | constructor; [exact Hc | constructor]].
  - exists []. rewrite app_nil_r. split; [reflexivity | constructor].
  - exists []. rewrite app_nil_r. reflexivity.
  - reflexivity.
Qed.

Lemma respects_ret {A} (a : A) : respects P V obs (ret a).
Proof. intros w. apply extends_refl. Qed.

Lemma respects_throw {A} e : respects P V obs (@throw A e).
Proof. intros w. apply extends_refl. Qed.

Lemma respects_clock : respects P V obs clock.
Proof. intros w. apply extends_refl. Qed.

Lemma respects_assign f :
  (forall p, obs (f p) = obs p) -> respects P V obs (assign f).
Proof.
  intros Hf w. split; [| split; [| split]]; simpl.
  - exists []. rewrite app_nil_r. split; [reflexivity | constructor].
  - exists []. rewrite app_nil_r. split; [reflexivity | constructor].
  - eexists. reflexivity.
  - apply Hf.
Qed.

Lemma respects_call {A} c (answer : nat -> Res A) :
  P c -> respects P V obs (call c answer).
Proof. intros Hc w. apply extends_log, Hc. Qed.

Lemma respects_bind {A B} (m : M A) (k : A -> M B) :
  respects P V obs m -> (forall a, respects P V obs (k a)) ->
  respects P V obs (bind m k).
Proof.
  intros Hm Hk w. unfold bind. specialize (Hm w).
  destruct (m w) as [[a|e] w1]; simpl in Hm.
  - eapply extends_trans; [exact Hm | apply Hk].
  - exact Hm.
Qed.

Lemma respects_try_catch {A} (m : M A) (h : Error -> M A) :
  respects P V obs m -> (forall e, respects P V obs (h e)) ->
  respects P V obs (try_catch m h).
Proof.
  intros Hm Hh w. unfold try_catch. specialize (Hm w).
  destruct (m w) as [[a|e] w1]; simpl in Hm.
  - exact Hm.
  - eapply extends_trans; [exact Hm | apply Hh].
Qed.

Lemma respects_save env v :
  P (CSave v) -> V v -> respects P V obs (save env v).
Proof.
  intros Hc Hv w. unfold save.
  destruct (db_save env (List.length (trace w)) v).
  - split; [| split; [| split]]; simpl.
    + exists [CSave v]. split; [reflexivity | constructor; [exact Hc | constructor]].
    + exists [v]. split; [reflexivity | constructor; [exact Hv | constructor]].
    + exists []. rewrite app_nil_r. reflexivity.
    + reflexivity.
  - apply extends_log, Hc.
Qed.

End Respects.

(** One step of a proof that a piece of code [respects] its predicates:
    the rule of the head construct, or a case analysis on what it tests. *)
Ltac respects_step :=
  match goal with
  | |- respects _ _ _ (bind _ _) => apply respects_bind; [| intros ?]
  | |- respects _ _ _ (try_catch _ _) => apply respects_try_catch; [| intros ?]
  | |- respects _ _ _ (ret _) => apply respects_ret
  | |- respects _ _ _ (throw _) => apply respects_throw
  | |- respects _ _ _ clock => apply respects_clock
  | |- respects _ _ _ (assign _) => apply respects_assign; intros ?
  | |- respects _ _ _ (set_status _) => apply respects_assign; intros ?
  | |- respects _ _ _ (set_progress _) => apply respects_assign; intros ?
  | |- respects _ _ _ (set_error _) => apply respects_assign; intros ?
  | |- respects _ _ _ (call _ _) => apply respects_call
  | |- respects _ _ _ (writeFile _ _) => apply respects_call
  | |- respects _ _ _ (unlink _) => apply respects_call
  | |- respects _ _ _ (save _ _) => apply respects_save
  | |- respects _ _ _ (if ?b then _ else _) => destruct b
  | |- respects _ _ _ (match ?x with _ => _ end) => destruct x
  | |- respects _ _ _ (let _ := _ in _) => cbv zeta
  end.

Ltac respects_auto := repeat respects_step; simpl; auto.

(** ** The calls of each stage *)

Section StageCalls.

(** [P] holds of every call that does not run the encoder, [V] is any
    predicate on documents, and [obs] is not changed by an assignment to the
    progress, the status or the error: the stages before assembly make only
    such calls and such assignments, and save nothing. *)
Context {X : Type}.
Variable P : Call -> Prop.
Variable V : Video -> Prop.
Variable obs : Progress -> X.
Hypothesis stage_ok : stage_observer P obs.

Variable env : Env.

Ltac stage_auto :=
  respects_auto;
  try (apply (proj1 stage_ok); simpl; tauto);
  try (apply (proj2 stage_ok)).

Lemma respects_ensureDir d : respects P V obs (ensureDir env d).
Proof. unfold ensureDir. stage_auto. Qed.

Lemma respects_search req : respects P V obs (search env req).
Proof. unfold search. stage_auto. Qed.

Lemma respects_downloadPreview sound : respects P V obs (downloadPreview env sound).
Proof. unfold downloadPreview. stage_auto. Qed.

Lemma respects_unlink_all ps : respects P V obs (unlink_all ps).
Proof. induction ps as [|p ps IH]; simpl; stage_auto. Qed.

Lemma respects_on_progress events : respects P V obs (Part000.on_progress events).
Proof. induction events as [|e events IH]; simpl; stage_auto. Qed.

Lemma Index_frames_loop_respects prompt remaining :
  forall i frames, respects P V obs (Index.frames_loop env prompt remaining i frames).
Proof.
  induction remaining as [|k IH]; intros i frames; simpl.
  - apply respects_ret.
  - stage_auto.
Qed.

Lemma Index_generateVideoFrames_respects prompt numFrames :
  respects P V obs (Index.generateVideoFrames env prompt numFrames).
Proof.
  unfold Index.generateVideoFrames.
  apply respects_try_catch; [| intros e; apply respects_throw].
  apply respects_bind; [apply respects_ensureDir | intros _].
  apply respects_bind; [apply Index_frames_loop_respects | intros frames].
  stage_auto.
Qed.

Lemma Index_audio_loop_respects duration queries :
  respects P V obs (Index.audio_loop env queries duration).
Proof.
  induction queries as [|q rest IH]; simpl.
  - apply respects_ret.
  - apply respects_bind; [apply respects_search | intros r].
    destruct (first_result r) as [sound|]; [| exact IH].
    apply respects_bind; [apply respects_downloadPreview | intros audio].
    stage_auto.
Qed.

Lemma Index_getAudioFromFreesound_respects prompt duration :
  respects P V obs (Index.getAudioFromFreesound env prompt duration).
Proof.
  unfold Index.getAudioFromFreesound.
  apply respects_try_catch; [| intros e; apply respects_ret].
  apply respects_bind; [apply Index_audio_loop_respects | intros found].
  destruct found; [apply respects_ret |].
  apply respects_bind; [apply Index_audio_loop_respects | intros found'].
  stage_auto.
Qed.

Lemma Part000_frames_loop_respects prompt numFrames remaining :
  forall i frames,
    respects P V obs (Part000.frames_loop env prompt numFrames remaining i frames).
Proof.
  induction remaining as [|k IH]; intros i frames; simpl.
  - apply respects_ret.
  - stage_auto.
Qed.

Lemma Part000_generateVideoFrames_respects prompt numFrames :
  respects P V obs (Part000.generateVideoFrames env prompt numFrames).
Proof.
  unfold Part000.generateVideoFrames.
  apply respects_try_catch; [| intros e; stage_auto].
  destruct (negb (Js.truthy (STABILITY_API_KEY env)));
    [apply respects_throw | apply Part000_frames_loop_respects].
Qed.

Lemma Part000_generateMusicFromPrompt_respects prompt duration :
  respects P V obs (Part000.generateMusicFromPrompt env prompt duration).
Proof. unfold Part000.generateMusicFromPrompt. stage_auto. Qed.

End StageCalls.

(** ** Every record the routes save has [hasAudio] set *)

Lemma any_stage_observer : stage_observer any_call blind.
Proof. split; intros; [exact I | reflexivity]. Qed.

Lemma audio_stage_observer : stage_observer encoder_with_audio blind.
Proof.
  split; intros; [| reflexivity].
  destruct c; simpl in *; try exact I. contradiction.
Qed.

Lemma videoCommand_has_audio frames audioPath duration outputPath :
  has_audio_input (Index.videoCommand frames (Some audioPath) duration outputPath).
Proof.
  split; simpl.
  - eexists _, _. reflexivity.
  - do 3 right. left. reflexivity.
Qed.

Lemma Index_createVideo_respects env frames audioPath duration :
  respects encoder_with_audio with_audio blind
    (Index.createVideo env frames (Some audioPath) duration).
Proof.
  unfold Index.createVideo.
  apply respects_bind; [apply respects_clock | intros t].
  apply respects_bind;
    [apply respects_call; apply videoCommand_has_audio | intros run].
  respects_auto; exact I.
Qed.

Lemma Part000_createVideo_respects env frames audioPath duration :
  respects any_call with_audio blind
    (Part000.createVideo env frames audioPath duration).
Proof.
  unfold Part000.createVideo.
  apply respects_bind; [apply respects_clock | intros t].
  apply respects_bind; [apply respects_call; exact I | intros run].
  apply respects_bind;
    [apply respects_on_progress, any_stage_observer | intros _].
  respects_auto.
Qed.

(** What the route of index.js does after the frame stage. *)
Ltac Index_after_frames :=
  match goal with
  | |- respects _ _ _ (if ?b then _ else _) => destruct b; [apply respects_throw |]
  end;
  apply respects_bind;
    [apply Index_getAudioFromFreesound_respects, audio_stage_observer
    | intros [?|]; [| apply respects_throw]];
  apply respects_bind; [apply Index_createVideo_respects | intros ?];
  apply respects_bind; [apply respects_call; exact I | intros ?];
  match goal with
  | |- respects _ _ _ (if ?b then _ else _) => destruct b; [apply respects_throw |]
  end;
  apply respects_bind; [apply respects_clock | intros ?];
  apply respects_bind; [apply respects_save; [exact I | reflexivity] | intros _];
  apply respects_bind;
    [apply respects_unlink_all, audio_stage_observer | intros _];
  respects_auto; exact I.

(** The route of index.js runs the encoder only with an audio track, and
    saves only records with [hasAudio] set. *)
Lemma Index_pipeline_respects env prompt durationNum :
  respects encoder_with_audio with_audio blind
    (Index.pipeline env prompt durationNum).
Proof.
  unfold Index.pipeline.
  apply respects_bind;
    [apply Index_generateVideoFrames_respects, audio_stage_observer | intros frames].
  Index_after_frames.
Qed.

(** What the route of part_000 does after the reset of the progress. *)
Ltac Part000_after_reset :=
  apply respects_bind; [apply respects_assign; reflexivity | intros _];
  apply respects_bind;
    [apply Part000_generateVideoFrames_respects, any_stage_observer | intros ?];
  do 2 (apply respects_bind; [apply respects_assign; reflexivity | intros _]);
  apply respects_bind;
    [apply Part000_generateMusicFromPrompt_respects, any_stage_observer
    | intros ?];
  do 2 (apply respects_bind; [apply respects_assign; reflexivity | intros _]);
  apply respects_bind; [apply Part000_createVideo_respects | intros ?];
  do 2 (apply respects_bind; [apply respects_assign; reflexivity | intros _]);
  apply respects_bind; [apply respects_clock | intros ?];
  apply respects_bind; [apply respects_save; [exact I | reflexivity] | intros _];
  apply respects_bind;
    [apply respects_unlink_all, any_stage_observer | intros _];
  respects_auto; exact I.

Lemma Part000_pipeline_respects env prompt durationNum :
  respects any_call with_audio blind (Part000.pipeline env prompt durationNum).
Proof.
  unfold Part000.pipeline.
  apply respects_bind; [apply respects_assign; reflexivity | intros _].
  Part000_after_reset.
Qed.

Lemma Index_generate_video_respects env body :
  respects encoder_with_audio with_audio blind (Index.generate_video env body).
Proof.
  unfold Index.generate_video.
  apply respects_try_catch; [| intros e; apply respects_ret].
  destruct (invalid body); [apply respects_ret |].
  destruct (body_prompt body) as [p|]; [| apply respects_ret].
  destruct (body_duration body) as [|d]; [apply respects_ret |].
  apply Index_pipeline_respects.
Qed.

Lemma Part000_generate_video_respects env body :
  respects any_call with_audio blind (Part000.generate_video env body).
Proof.
  unfold Part000.generate_video.
  apply respects_try_catch; [| intros e; respects_auto].
  destruct (invalid body); [apply respects_throw |].
  destruct (body_prompt body) as [p|]; [| apply respects_throw].
  destruct (body_duration body) as [|d]; [apply respects_throw |].
  apply Part000_pipeline_respects.
Qed.

(** C9.  Whatever the environment answers, the documents a run of the
    generation route adds to the collection all have [hasAudio] equal to
    [true]: in index.js and in part_000 alike, and whichever query found the
    audio. *)
Theorem saved_records_have_audio (env : Env) (body : Body) (w : World) :
  (exists added,
      videos (snd (Index.generate_video env body w)) = (videos w ++ added)%list
      /\ Forall (fun v => hasAudio v = true) added)
  /\
  (exists added,
      videos (snd (Part000.generate_video env body w)) = (videos w ++ added)%list
      /\ Forall (fun v => hasAudio v = true) added).
Proof.
  split.
  - exact (proj1 (proj2 (Index_generate_video_respects env body w))).
  - exact (proj1 (proj2 (Part000_generate_video_respects env body w))).
Qed.

(** ** Frame generation *)


Lemma services_ok_answer env t req e :
  frame_services_ok env -> stability env t req <> Throw e.
Proof.
  intros [Hok _] H. destruct (Hok t req) as [r' [Hr _]].
  rewrite H in Hr. discriminate.
Qed.

Lemma always_image_answer env t req r :
  always_image env -> stability env t req = Ok r -> has_image r.
Proof. intros Hall H. specialize (Hall t req). rewrite H in Hall. exact Hall. Qed.

Lemma no_image_empty r : artifact_base64 r = Some "" -> ~ has_image r.
Proof. unfold has_image. intros ->. auto. Qed.

Lemma no_image_absent r : artifact_base64 r = None -> ~ has_image r.
Proof. unfold has_image. intros ->. auto. Qed.



(** The loop of index.js adds at most one frame per iteration: exactly one
    when every response carries an image, and it fails only when a service
    does. *)
Lemma Index_frames_loop_count env prompt remaining :
  forall i frames w,
    match Index.frames_loop env prompt remaining i frames w with
    | (Ok frames', _) =>
        (List.length frames <= List.length frames' <= List.length frames + remaining)%nat
        /\ (always_image env ->
            List.length frames' = (List.length frames + remaining)%nat)
    | (Throw e, _) => ~ frame_services_ok env
    end.
Proof.
  induction remaining as [|k IH]; intros i frames w.
  - simpl. unfold ret. split; [lia | intros _; lia].
  - cbn [Index.frames_loop]. unfold bind at 1. unfold clock.
    unfold bind at 1. unfold call at 1.
    destruct (stability env (List.length (trace w)) _) as [response|e] eqn:Himg.
    + unfold bind at 1.
      destruct (artifact_base64 response) as [[|c s]|] eqn:Hart.
      * unfold ret at 1.
        match goal with
        | |- context [Index.frames_loop env prompt k ?i' ?f' ?w'] =>
            specialize (IH i' f' w');
            destruct (Index.frames_loop env prompt k i' f' w') as [[frames'|e] w'']
        end; [| exact IH].
        destruct IH as [Hle Heq]. split; [lia |].
        intros Hall.
        destruct (no_image_empty _ Hart (always_image_answer _ _ _ _ Hall Himg)).
      * unfold bind at 1. unfold writeFile, call.
        destruct (fs_writeFile env _ _) as [[]|e] eqn:Hwr.
        -- unfold ret at 1.
           match goal with
           | |- context [Index.frames_loop env prompt k ?i' ?f' ?w'] =>
               specialize (IH i' f' w');
               destruct (Index.frames_loop env prompt k i' f' w') as [[frames'|e] w'']
           end; [| exact IH].
           rewrite length_app in IH. simpl in IH.
           destruct IH as [Hle Heq]. split; [lia |].
           intros Hall. specialize (Heq Hall). lia.
        -- intros [_ [Hok _]]. rewrite Hok in Hwr. discriminate.
      * unfold ret at 1.
        match goal with
        | |- context [Index.frames_loop env prompt k ?i' ?f' ?w'] =>
            specialize (IH i' f' w');
            destruct (Index.frames_loop env prompt k i' f' w') as [[frames'|e] w'']
        end; [| exact IH].
        destruct IH as [Hle Heq]. split; [lia |].
        intros Hall.
        destruct (no_image_absent _ Hart (always_image_answer _ _ _ _ Hall Himg)).
    + intros Hs. exact (services_ok_answer _ _ _ _ Hs Himg).
Qed.

Lemma services_ok_always_image env : frame_services_ok env -> always_image env.
Proof.
  intros [Hok _] t req. destruct (Hok t req) as [r [-> Hi]]. exact Hi.
Qed.

Lemma Index_generateVideoFrames_count env prompt n w :
  match Index.generateVideoFrames env prompt n w with
  | (Ok frames, _) =>
      1 <= Z.of_nat (List.length frames) <= Z.max 4 n
      /\ (always_image env -> Z.of_nat (List.length frames) = Z.max 4 n)
  | (Throw e, _) => ~ frame_services_ok env
  end.
Proof.
  rewrite (try_catch_rethrow _ w : Index.generateVideoFrames env prompt n w = _).
  cbv zeta. unfold bind at 1.
  assert (Hdir : match ensureDir env "temp" w with
                 | (Ok _, _) => True
                 | (Throw _, _) => ~ frame_services_ok env
                 end).
  { unfold ensureDir, bind, call, ret.
    destruct (fs_exists env (List.length (trace w)) "temp") eqn:Hex; [exact I |].
    destruct (fs_mkdir env _ "temp") as [[]|e] eqn:Hmk; [exact I |].
    intros [_ [_ Hok]]. rewrite Hok in Hmk. discriminate. }
  destruct (ensureDir env "temp" w) as [[[]|e] w1]; [clear Hdir | exact Hdir].
  unfold bind.
  pose proof (Index_frames_loop_count env prompt (Z.to_nat (Z.max 4 n)) 0 [] w1) as H.
  destruct (Index.frames_loop env prompt (Z.to_nat (Z.max 4 n)) 0 [] w1)
    as [[frames|e] w2]; [| exact H].
  simpl in H. destruct H as [Hle Heq].
  destruct (Nat.eqb_spec (List.length frames) 0) as [Hz|Hnz]; unfold throw, ret.
  - intros Hs. specialize (Heq (services_ok_always_image _ Hs)). lia.
  - split; [lia |]. intros Hall. specialize (Heq Hall). lia.
Qed.









(** ** Keyword extraction *)

Lemma lower_char_word c :
  Js.is_word (Js.lower_char c) = Js.is_word c
  /\ Js.is_upper (Js.lower_char c) = false.
Proof.
  destruct c as [[] [] [] [] [] [] [] []]; split; reflexivity.
Qed.

Lemma append_snoc (a b : string) (c : ascii) :
  (a ++ String c EmptyString) ++ b = a ++ String c b.
Proof. induction a as [|x a IH]; simpl; [reflexivity | rewrite IH; reflexivity]. Qed.

Lemma all_chars_app p a b :
  all_chars p (a ++ b) = all_chars p a && all_chars p b.
Proof.
  induction a as [|x a IH]; simpl; [reflexivity |].
  rewrite IH, andb_assoc. reflexivity.
Qed.

Lemma toLowerCase_app a b :
  Js.toLowerCase (a ++ b) = Js.toLowerCase a ++ Js.toLowerCase b.
Proof. induction a as [|x a IH]; simpl; [reflexivity | rewrite IH; reflexivity]. Qed.

Lemma toLowerCase_no_upper s :
  all_chars (fun c => negb (Js.is_upper c)) (Js.toLowerCase s) = true.
Proof.
  induction s as [|c s IH]; simpl; [reflexivity |].
  rewrite (proj2 (lower_char_word c)), IH. reflexivity.
Qed.

Lemma toLowerCase_lower_word s :
  all_chars lower_word s = true -> Js.toLowerCase s = s.
Proof.
  induction s as [|c s IH]; simpl; [reflexivity |].
  intros H. apply andb_true_iff in H. destruct H as [Hc Hs].
  rewrite (IH Hs). unfold lower_word in Hc. apply andb_true_iff in Hc.
  unfold Js.lower_char. destruct (Js.is_upper c); [destruct Hc; discriminate | reflexivity].
Qed.

(** The pieces of a split have no separator, and keep any property [q] of
    the characters of the text. *)
Lemma split_go_pieces (sep q : ascii -> bool) s :
  forall cur in_run,
    all_chars (fun c => q c && negb (sep c)) cur = true ->
    all_chars q s = true ->
    Forall (fun piece => all_chars (fun c => q c && negb (sep c)) piece = true)
           (Js.split_go sep s cur in_run).
Proof.
  induction s as [|c s IH]; intros cur in_run Hcur Hs; simpl.
  - constructor; [exact Hcur | constructor].
  - simpl in Hs. apply andb_true_iff in Hs. destruct Hs as [Hc Hs].
    destruct (sep c) eqn:Hsep.
    + destruct in_run.
      * apply IH; [reflexivity | exact Hs].
      * constructor; [exact Hcur |]. apply IH; [reflexivity | exact Hs].
    + apply IH; [| exact Hs].
      rewrite all_chars_app, Hcur. simpl. rewrite Hc, Hsep. reflexivity.
Qed.

(** A text without separators is one piece. *)
Lemma split_go_word (sep : ascii -> bool) s :
  forall cur in_run,
    all_chars (fun c => negb (sep c)) s = true ->
    Js.split_go sep s cur in_run = [cur ++ s].
Proof.
  induction s as [|c s IH]; intros cur in_run Hs; simpl.
  - induction cur as [|x cur IHc]; simpl; [reflexivity |].
    injection IHc as <-. reflexivity.
  - simpl in Hs. apply andb_true_iff in Hs. destruct Hs as [Hc Hs].
    apply negb_true_iff in Hc. rewrite Hc, (IH _ _ Hs), append_snoc. reflexivity.
Qed.

(** Whether a split starts inside a run of separators changes at most an
    empty first piece. *)
Lemma split_go_run (sep : ascii -> bool) s :
  filter nonempty (Js.split_go sep s EmptyString true)
  = filter nonempty (Js.split_go sep s EmptyString false).
Proof.
  destruct s as [|c s]; simpl; [reflexivity |].
  destruct (sep c); reflexivity.
Qed.

(** Splitting a text at one of its separators: the pieces of the two parts,
    up to empty pieces. *)
Lemma split_go_app (sep : ascii -> bool) s1 s2 c :
  sep c = true ->
  forall cur in_run,
    (in_run = true -> cur = EmptyString) ->
    filter nonempty (Js.split_go sep (s1 ++ String c s2) cur in_run)
    = (filter nonempty (Js.split_go sep s1 cur in_run)
       ++ filter nonempty (Js.split sep s2))%list.
Proof.
  intros Hc. induction s1 as [|x s1 IH]; intros cur in_run Hrun; simpl.
  - rewrite Hc. unfold Js.split. destruct in_run.
    + rewrite (Hrun eq_refl). simpl. apply split_go_run.
    + simpl. destruct (nonempty cur); simpl; rewrite split_go_run; reflexivity.
  - destruct (sep x).
    + destruct in_run.
      * apply IH. reflexivity.
      * simpl. destruct (nonempty cur); simpl; rewrite IH; reflexivity.
    + apply IH. discriminate.
Qed.

Lemma kept_nonempty l : filter kept (filter nonempty l) = filter kept l.
Proof.
  induction l as [|x l IH]; simpl; [reflexivity |].
  destruct x as [|c x]; simpl; [exact IH |].
  destruct (kept (String c x)); rewrite IH; reflexivity.
Qed.

Lemma extractKeywords_unfold prompt :
  extractKeywords prompt
  = filter kept (filter nonempty (Js.split non_word (Js.toLowerCase prompt))).
Proof. rewrite kept_nonempty. reflexivity. Qed.

(** [extractKeywords] works word by word: a non-word character separates
    the keywords before it from the keywords after it. *)
Lemma extractKeywords_app s1 s2 c :
  Js.is_word c = false ->
  extractKeywords (s1 ++ String c s2)
  = (extractKeywords s1 ++ extractKeywords s2)%list.
Proof.
  intros Hc. rewrite !extractKeywords_unfold, toLowerCase_app. simpl.
  unfold Js.split at 1.
  rewrite split_go_app.
  - rewrite filter_app. reflexivity.
  - unfold non_word. rewrite (proj1 (lower_char_word c)), Hc. reflexivity.
  - discriminate.
Qed.

(** On a single word, [extractKeywords] returns the word in lower case, or
    nothing when it is shorter than three characters or a stop word. *)
Lemma extractKeywords_word s :
  all_chars Js.is_word s = true ->
  extractKeywords s
  = if kept (Js.toLowerCase s) then [Js.toLowerCase s] else [].
Proof.
  intros Hs. unfold extractKeywords, Js.split.
  rewrite split_go_word; [reflexivity |].
  clear -Hs. induction s as [|c s IH]; simpl; [reflexivity |].
  simpl in Hs. apply andb_true_iff in Hs. destruct Hs as [Hc Hs].
  rewrite (proj1 (lower_char_word c)), Hc, (IH Hs). reflexivity.
Qed.

(** Every keyword is longer than two characters, is not a stop word, and is
    made of lower-case word characters. *)
Lemma extractKeywords_sound prompt keyword :
  In keyword (extractKeywords prompt) ->
  (2 < String.length keyword)%nat
  /\ ~ In keyword commonWords
  /\ all_chars lower_word keyword = true.
Proof.
  unfold extractKeywords. intros H. apply filter_In in H. destruct H as [Hin Hk].
  apply andb_true_iff in Hk. destruct Hk as [Hlen Hstop].
  split; [apply Z.ltb_lt in Hlen; lia |]. split.
  - intros Hc. apply negb_true_iff in Hstop. unfold Js.includes in Hstop.
    assert (existsb (String.eqb keyword) commonWords = true) as Hex.
    { apply existsb_exists. exists keyword. split; [exact Hc | apply String.eqb_refl]. }
    rewrite Hex in Hstop. discriminate.
  - pose proof (split_go_pieces (fun c => negb (Js.is_word c))
                  (fun c => negb (Js.is_upper c)) (Js.toLowerCase prompt)
                  EmptyString false eq_refl (toLowerCase_no_upper prompt)) as Hp.
    rewrite Forall_forall in Hp. specialize (Hp keyword Hin).
    erewrite <- Hp. clear. induction keyword as [|c k IH]; simpl; [reflexivity |].
    rewrite IH. unfold lower_word. rewrite negb_involutive.
    rewrite (andb_comm (Js.is_word c)). reflexivity.
Qed.

Lemma filter_filter {A} (f g : A -> bool) l :
  filter f (filter g l) = filter (fun x => f x && g x) l.
Proof.
  induction l as [|x l IH]; simpl; [reflexivity |].
  destruct (g x); simpl.
  - destruct (f x); simpl; rewrite IH; reflexivity.
  - rewrite andb_false_r. exact IH.
Qed.

(** The extractor of the specification keeps the keywords of the code that
    are longer than three characters. *)
Lemma spec_extractKeywords_refines prompt :
  spec_extractKeywords prompt
  = filter (fun word => 3 <? Z.of_nat (String.length word)) (extractKeywords prompt).
Proof.
  unfold spec_extractKeywords, extractKeywords. rewrite filter_filter.
  apply filter_ext. intros word.
  destruct (negb (Js.includes commonWords word)).
  - rewrite !andb_true_r.
    destruct (Z.ltb_spec 3 (Z.of_nat (String.length word)));
      destruct (Z.ltb_spec 2 (Z.of_nat (String.length word))); try reflexivity; lia.
  - rewrite !andb_false_r. reflexivity.
Qed.

(** C4 (as amended).  For every text, [extractKeywords] lower-cases the
    text, splits it on runs of non-word characters and returns, in the order
    of the text, the tokens of length greater than 2 that are not stop
    words: each keyword is such a token; a non-word character separates the
    keywords before it from those after it; a text that is one word yields
    that word in lower case, or nothing; and the result of the algorithm of
    the specification is the sublist of the keywords longer than three
    characters.  For the example text the keywords are cat, quick, brown,
    fox, jumps; the extraction inlined in [getAudioFromFreesound] (words
    longer than three characters) yields quick, brown, jumps. *)
Theorem keywords_of_text (text : string) :
  (forall keyword,
      In keyword (extractKeywords text) ->
      (2 < String.length keyword)%nat
      /\ ~ In keyword commonWords
      /\ all_chars lower_word keyword = true)
  /\ (forall s1 s2 c,
         text = s1 ++ String c s2 -> Js.is_word c = false ->
         extractKeywords text = (extractKeywords s1 ++ extractKeywords s2)%list)
  /\ (all_chars Js.is_word text = true ->
      extractKeywords text
      = if kept (Js.toLowerCase text) then [Js.toLowerCase text] else [])
  /\ spec_extractKeywords text
     = filter (fun word => 3 <? Z.of_nat (String.length word)) (extractKeywords text)
  /\ extractKeywords exampleText = ["cat"; "quick"; "brown"; "fox"; "jumps"]
  /\ inlineKeywords exampleText = ["quick"; "brown"; "jumps"].
Proof.
  split; [apply extractKeywords_sound |].
  split; [intros s1 s2 c -> Hc; apply extractKeywords_app, Hc |].
  split; [apply extractKeywords_word |].
  split; [apply spec_extractKeywords_refines |].
  split; reflexivity.
Qed.

(** C4 (as stated) fails on the example text: [extractKeywords] keeps the
    three-letter word cat, so its result is neither the list the example gives
    nor the tokens longer than three characters, of which fox is not one. *)
Lemma keywords_keep_three_letters :
  extractKeywords exampleText <> ["quick"; "brown"; "fox"; "jumps"]
  /\ extractKeywords exampleText <> spec_extractKeywords exampleText
  /\ spec_extractKeywords exampleText <> ["quick"; "brown"; "fox"; "jumps"]
  /\ inlineKeywords exampleText <> ["quick"; "brown"; "fox"; "jumps"].
Proof.
  repeat split; intros H; vm_compute in H; discriminate H.
Qed.

(** ** Frame display time *)

Lemma ceil_div_Z (d n : Z) :
  0 < n -> - ((- d) / n) = (d + n - 1) / n.
Proof.
  intros Hn.
  pose proof (Z.div_mod (- d) n ltac:(lia)) as H1.
  pose proof (Z.mod_pos_bound (- d) n Hn) as H2.
  pose proof (Z.div_mod (d + n - 1) n ltac:(lia)) as H3.
  pose proof (Z.mod_pos_bound (d + n - 1) n Hn) as H4.
  nia.
Qed.

(** [Math.ceil(d / n)] on integers is the rounded-up integer quotient. *)
Lemma Math_ceil_div (d n : Z) :
  0 < n -> Js.Math_ceil (inject_Z d / inject_Z n) = (d + n - 1) / n.
Proof.
  intros Hn. unfold Js.Math_ceil, Qceiling.
  rewrite <- ceil_div_Z by exact Hn. f_equal.
  rewrite Zdiv_Qdiv. apply Qfloor_comp.
  rewrite inject_Z_opp. unfold Qdiv. ring.
Qed.

Lemma ceil_div_bounds (d n : Z) :
  0 < n -> d <= n * ((d + n - 1) / n) <= d + (n - 1).
Proof.
  intros Hn.
  pose proof (Z.div_mod (d + n - 1) n ltac:(lia)) as H3.
  pose proof (Z.mod_pos_bound (d + n - 1) n Hn) as H4.
  lia.
Qed.

(** C7.  For a frame list that is not empty and a positive whole duration
    [d], [createVideo] (index.js) gives every frame the input options
    [-loop 1 -t t] with [t = ceil(d / frameCount)], and the total playback
    time [frameCount * t] is at least [d] and exceeds it by at most
    [frameCount - 1]. *)
Theorem playback_covers_duration (frames : list Path) (audioPath : option Path)
  (d : Z) (outputPath : Path) :
  frames <> [] -> 0 < d ->
  let n := Z.of_nat (List.length frames) in
  let t := Index.frameTime (inject_Z d) frames in
  t = (d + n - 1) / n
  /\ (forall frame,
         In frame frames ->
         In (frame, ["-loop"; "1"; "-t"; Js.String_of_Z t])
            (inputs (Index.videoCommand frames audioPath (inject_Z d) outputPath)))
  /\ d <= n * t <= d + (n - 1).
Proof.
  intros Hne Hd n t.
  assert (Hn : 0 < n).
  { unfold n. destruct frames; [contradiction | simpl; lia]. }
  assert (Ht : t = (d + n - 1) / n) by (apply Math_ceil_div, Hn).
  split; [exact Ht |]. split.
  - intros frame Hin. simpl. apply in_or_app. left.
    apply in_map_iff. exists frame. split; [reflexivity | exact Hin].
  - rewrite Ht. apply ceil_div_bounds, Hn.
Qed.

Lemma playback_covers_duration_witness :
  let frames := [ mkPath "temp" "frame_0.png"; mkPath "temp" "frame_1.png";
                  mkPath "temp" "frame_2.png"; mkPath "temp" "frame_3.png" ] in
  Index.frameTime (inject_Z 10) frames = 3
  /\ 10 <= 4 * Index.frameTime (inject_Z 10) frames <= 10 + (4 - 1).
Proof.
  intros frames.
  pose proof (playback_covers_duration frames None 10 (mkPath "videos" "1.mp4")
                ltac:(discriminate) ltac:(reflexivity)) as H.
  split; [reflexivity | exact (proj2 (proj2 H))].
Defined.

(** ** The audio cascade *)

Lemma searches_app a b : searches (a ++ b) = (searches a ++ searches b)%list.
Proof.
  induction a as [|c a IH]; simpl; [reflexivity |].
  destruct c; simpl; rewrite ?IH; reflexivity.
Qed.

Lemma searches_search_calls reqs : searches (search_calls reqs) = reqs.
Proof. induction reqs as [|r reqs IH]; simpl; [reflexivity | rewrite IH; reflexivity]. Qed.

Lemma searches_none l : Forall (fun c => ~ is_search c) l -> searches l = [].
Proof.
  induction 1 as [|c l Hc _ IH]; simpl; [reflexivity |].
  destruct c; simpl in *; try exact IH. destruct Hc. exact I.
Qed.

Lemma search_run env req w :
  search env req w
  = match freesound env (List.length (trace w)) req with
    | Ok data => (Ok {| config_query := query req; results := data |},
                  log (CFreesound req) w)
    | Throw e => (Throw e, log (CFreesound req) w)
    end.
Proof.
  unfold search, bind, call, ret.
  destruct (freesound env (List.length (trace w)) req); reflexivity.
Qed.

Lemma search_barren env req w :
  barren env req ->
  exists r, search env req w = (Ok r, log (CFreesound req) w)
            /\ has_results r = false.
Proof.
  intros H. rewrite search_run.
  destruct (H (List.length (trace w))) as [-> | ->]; eexists; split; reflexivity.
Qed.

(** A search loop issues a prefix of its queries, in order. *)
Lemma search_loop_prefix env qs :
  forall last w,
  exists k,
    trace (snd (Index.search_loop env qs last w))
    = (trace w ++ search_calls (firstn k (map Index.searchParams qs)))%list.
Proof.
  induction qs as [|q qs IH]; intros last w; simpl.
  - exists 0%nat. simpl. rewrite app_nil_r. reflexivity.
  - unfold bind. rewrite search_run.
    destruct (freesound env (List.length (trace w)) (Index.searchParams q)) as [data|e].
    + match goal with |- context [has_results ?r] => destruct (has_results r) end.
      * exists 1%nat. reflexivity.
      * match goal with
        | |- context [Index.search_loop env qs ?r ?w1] =>
            destruct (IH r w1) as [k Hk]
        end.
        exists (S k). rewrite Hk. simpl. rewrite <- app_assoc. reflexivity.
    + exists 1%nat. reflexivity.
Qed.

(** A search loop over queries without results issues them all and ends
    without a result. *)
Lemma search_loop_barren env qs :
  (forall q, In q qs -> barren env (Index.searchParams q)) ->
  forall last w,
    has_results last = false ->
    exists r w',
      Index.search_loop env qs last w = (Ok r, w')
      /\ has_results r = false
      /\ trace w' = (trace w ++ search_calls (map Index.searchParams qs))%list.
Proof.
  induction qs as [|q qs IH]; intros Hb last w Hlast; simpl.
  - exists last, w. rewrite app_nil_r. repeat split. exact Hlast.
  - destruct (search_barren env (Index.searchParams q) w) as [r [Hs Hr]];
      [apply Hb; left; reflexivity |].
    rewrite (bind_Ok _ _ _ _ _ Hs), Hr.
    destruct (IH (fun q' H => Hb q' (or_intror H)) r (log (CFreesound (Index.searchParams q)) w) Hr)
      as [r' [w' [E [Hr' Ht]]]].
    exists r', w'. split; [exact E |]. split; [exact Hr' |].
    rewrite Ht. simpl. rewrite <- app_assoc. reflexivity.
Qed.

Section Cascade.

Variable env : Env.
Variable prompt : string.
Variable outputPath : Path.

Lemma searchAndDownloadMusic_run w :
  Index.searchAndDownloadMusic env prompt outputPath w
  = (r1 <- search env (tier1 prompt) ;;
     r2 <- (if negb (has_results r1)
            then Index.search_loop env
                   (map (fun keyword => keyword ++ " music background")
                        (extractKeywords prompt)) r1
            else ret r1) ;;
     r3 <- (if negb (has_results r2)
            then Index.search_loop env DEFAULT_CATEGORIES r2
            else ret r2) ;;
     afterSearches env prompt outputPath r3) w.
Proof. apply try_catch_rethrow. Qed.

Lemma afterSearches_no_search r3 w :
  exists l, trace (snd (afterSearches env prompt outputPath r3 w)) = (trace w ++ l)%list /\ searches l = [].
Proof.
  assert (H : respects (fun c => ~ is_search c) (fun _ => True) blind (afterSearches env prompt outputPath r3)).
  { unfold afterSearches, downloadPreview. respects_auto. }
  destruct (H w) as [[l [E F]] _]. exists l. split; [exact E |].
  apply searches_none, F.
Qed.

Lemma afterSearches_no_result r3 w :
  has_results r3 = false ->
  afterSearches env prompt outputPath r3 w = (Throw "No matching sounds found after all attempts", w).
Proof.
  unfold afterSearches, has_results, first_result.
  destruct (results r3) as [[|s l]|]; intros H; try reflexivity. discriminate.
Qed.


Lemma tiers_without_result w :
  barren env (tier1 prompt) ->
  (forall req, In req (tier2 prompt) -> barren env req) ->
  (exists k,
      searches_of_run (Index.searchAndDownloadMusic env prompt outputPath) w
        ((tier1 prompt) :: (tier2 prompt) ++ firstn k tier3))
  /\ ((forall req, In req tier3 -> barren env req) ->
      fst (Index.searchAndDownloadMusic env prompt outputPath w)
      = Throw "No matching sounds found after all attempts"
      /\ searches_of_run (Index.searchAndDownloadMusic env prompt outputPath) w
           ((tier1 prompt) :: (tier2 prompt) ++ tier3)).
Proof.
  intros H1 H2. unfold searches_of_run. rewrite searchAndDownloadMusic_run.
  destruct (search_barren env (tier1 prompt) w H1) as [r1 [E1 Hr1]].
  rewrite (bind_Ok _ _ _ _ _ E1), Hr1. cbn [negb].
  destruct (search_loop_barren env
              (map (fun keyword => keyword ++ " music background")
                   (extractKeywords prompt))
              (fun q Hq => H2 _ (in_map Index.searchParams _ q Hq))
              r1 (log (CFreesound (tier1 prompt)) w) Hr1) as [r2 [w2 [E2 [Hr2 T2]]]].
  rewrite (bind_Ok _ _ _ _ _ E2), Hr2. cbn [negb].
  fold (tier2 prompt) in T2. split.
  - destruct (search_loop_prefix env DEFAULT_CATEGORIES r2 w2) as [k Hk].
    fold tier3 in Hk. exists k. unfold bind.
    destruct (Index.search_loop env DEFAULT_CATEGORIES r2 w2) as [[r3|e] w3];
      simpl in Hk.
    + destruct (afterSearches_no_search r3 w3) as [l [E S]].
      exists (CFreesound (tier1 prompt) :: search_calls (tier2 prompt)
                ++ search_calls (firstn k tier3) ++ l)%list.
      rewrite E, Hk, T2. simpl. rewrite <- !app_assoc. split; [reflexivity |].
      rewrite !searches_app, !searches_search_calls, S, app_nil_r. reflexivity.
    + exists (CFreesound (tier1 prompt) :: search_calls (tier2 prompt)
                ++ search_calls (firstn k tier3))%list.
      simpl. rewrite Hk, T2. simpl. rewrite <- !app_assoc. split; [reflexivity |].
      rewrite !searches_app, !searches_search_calls. reflexivity.
  - intros H3.
    destruct (search_loop_barren env DEFAULT_CATEGORIES
                (fun q Hq => H3 _ (in_map Index.searchParams _ q Hq))
                r2 w2 Hr2) as [r3 [w3 [E3 [Hr3 T3]]]].
    rewrite (bind_Ok _ _ _ _ _ E3), (afterSearches_no_result _ _ Hr3).
    split; [reflexivity |].
    exists (CFreesound (tier1 prompt) :: search_calls (tier2 prompt) ++ search_calls tier3)%list.
    simpl. rewrite T3, T2. simpl. rewrite <- !app_assoc. split; [reflexivity |].
    rewrite !searches_app, !searches_search_calls. reflexivity.
Qed.

End Cascade.

Lemma quiet_stage_observer : stage_observer not_encoder blind.
Proof. split; intros; [assumption | reflexivity]. Qed.

Lemma no_video_added w w' :
  extends not_encoder no_video blind w w' -> videos w' = videos w.
Proof.
  intros [_ [[l [E F]] _]]. destruct l as [|v l].
  - rewrite E. apply app_nil_r.
  - inversion F as [|? ? Hv _]. destruct Hv.
Qed.

Lemma search_no_sound env req w :
  no_sound env ->
  match search env req w with
  | (Ok r, _) => first_result r = None /\ has_results r = false
  | (Throw _, _) => True
  end.
Proof.
  intros H. rewrite search_run. specialize (H (List.length (trace w)) req).
  destruct (freesound env (List.length (trace w)) req) as [[[|s l]|]|e];
    try exact I; try (split; reflexivity). destruct H.
Qed.

(** Without a sound in the library a loop of [getAudioFromFreesound] finds
    no audio file. *)
Lemma audio_loop_no_sound env duration qs :
  no_sound env ->
  forall w,
    match Index.audio_loop env qs duration w with
    | (Ok found, _) => found = None
    | (Throw _, _) => True
    end.
Proof.
  intros H. induction qs as [|q qs IH]; intros w; simpl.
  - reflexivity.
  - unfold bind at 1.
    pose proof (search_no_sound env (Index.freesoundParams q duration) w H) as Hs.
    destruct (search env (Index.freesoundParams q duration) w) as [[r|e] w1];
      [| exact I].
    destruct Hs as [-> _]. apply IH.
Qed.

Lemma getAudioFromFreesound_no_sound env prompt duration w :
  no_sound env ->
  fst (Index.getAudioFromFreesound env prompt duration w) = Ok None.
Proof.
  intros H. unfold Index.getAudioFromFreesound, try_catch, bind.
  match goal with
  | |- context [Index.audio_loop env ?qs duration w] =>
      pose proof (audio_loop_no_sound env duration qs H w) as H1;
      destruct (Index.audio_loop env qs duration w) as [[found|e] w1]
  end; [| reflexivity].
  subst found.
  pose proof (audio_loop_no_sound env duration DEFAULT_CATEGORIES H w1) as H2.
  destruct (Index.audio_loop env DEFAULT_CATEGORIES duration w1) as [[found|e] w2];
    [| reflexivity].
  subst found. reflexivity.
Qed.

(** Without a sound in the library the pipeline of index.js stops at the
    audio stage at the latest: it throws, runs no encoder and saves no
    record. *)
Lemma Index_pipeline_no_sound env prompt durationNum w :
  no_sound env ->
  exists e w',
    Index.pipeline env prompt durationNum w = (Throw e, w')
    /\ extends not_encoder no_video blind w w'
    /\ (forall frames w1,
           Index.generateVideoFrames env prompt (frameCount durationNum) w
           = (Ok frames, w1) ->
           e = "Failed to get audio").
Proof.
  intros H. unfold Index.pipeline. unfold bind at 1.
  pose proof (Index_generateVideoFrames_respects not_encoder no_video blind
                quiet_stage_observer env prompt (frameCount durationNum) w) as Hf.
  pose proof (Index_generateVideoFrames_count env prompt (frameCount durationNum) w)
    as Hn.
  destruct (Index.generateVideoFrames env prompt (frameCount durationNum) w)
    as [[frames|e] w1]; simpl in Hf.
  - destruct Hn as [Hn _].
    destruct (Nat.eqb_spec (List.length frames) 0) as [Hz|_]; [lia |].
    unfold bind at 1.
    pose proof (Index_getAudioFromFreesound_respects not_encoder no_video blind
                  quiet_stage_observer env prompt durationNum w1) as Ha.
    pose proof (getAudioFromFreesound_no_sound env prompt durationNum w1 H) as Hnone.
    destruct (Index.getAudioFromFreesound env prompt durationNum w1)
      as [[audio|e] w2]; simpl in Ha, Hnone; [| discriminate].
    injection Hnone as ->.
    exists "Failed to get audio", w2. split; [reflexivity |]. split.
    + eapply extends_trans; eassumption.
    + reflexivity.
  - exists e, w1. split; [reflexivity |]. split; [exact Hf |].
    intros frames w' E. discriminate.
Qed.

Lemma search_loop_no_sound env qs :
  no_sound env ->
  forall last w,
    has_results last = false ->
    match Index.search_loop env qs last w with
    | (Ok r, _) => has_results r = false
    | (Throw _, _) => True
    end.
Proof.
  intros H. induction qs as [|q qs IH]; intros last w Hlast; simpl.
  - exact Hlast.
  - unfold bind at 1.
    pose proof (search_no_sound env (Index.searchParams q) w H) as Hs.
    destruct (search env (Index.searchParams q) w) as [[r|e] w1]; [| exact I].
    destruct Hs as [_ Hr]. rewrite Hr. apply IH, Hr.
Qed.

Lemma searchAndDownloadMusic_no_sound env prompt outputPath w :
  no_sound env ->
  exists e, fst (Index.searchAndDownloadMusic env prompt outputPath w) = Throw e.
Proof.
  intros H. rewrite searchAndDownloadMusic_run. unfold bind at 1.
  pose proof (search_no_sound env (tier1 prompt) w H) as H1.
  destruct (search env (tier1 prompt) w) as [[r1|e] w1];
    [| eexists; reflexivity].
  destruct H1 as [_ Hr1]. rewrite Hr1. cbn [negb]. unfold bind at 1.
  match goal with
  | |- context [Index.search_loop env ?qs r1 w1] =>
      pose proof (search_loop_no_sound env qs H r1 w1 Hr1) as H2;
      destruct (Index.search_loop env qs r1 w1) as [[r2|e] w2]
  end; [| eexists; reflexivity].
  rewrite H2. cbn [negb]. unfold bind at 1.
  pose proof (search_loop_no_sound env DEFAULT_CATEGORIES H r2 w2 H2) as H3.
  destruct (Index.search_loop env DEFAULT_CATEGORIES r2 w2) as [[r3|e] w3];
    [| eexists; reflexivity].
  unfold has_results in H3. unfold afterSearches, first_result.
  destruct (results r3) as [[|s l]|]; try discriminate; eexists; reflexivity.
Qed.






(** C6.  A run of the route of index.js runs the encoder only with an
    audio track among its inputs.  When no search of the sound library
    yields a sound, audio acquisition fails and the run stops there:
    [searchAndDownloadMusic] throws (with the error of exhaustion when every
    query came back empty), and the route answers with an error, never runs
    the encoder and saves no record; when the frames had been generated, the
    error is the failure to get audio. *)
Theorem no_audio_no_video (env : Env) (prompt : string) (outputPath : Path)
  (body : Body) (w : World) :
  (exists calls,
      trace (snd (Index.generate_video env body w)) = (trace w ++ calls)%list
      /\ Forall encoder_with_audio calls)
  /\ (no_sound env ->
      (exists e, fst (Index.searchAndDownloadMusic env prompt outputPath w) = Throw e)
      /\ ((forall req, barren env req) ->
          fst (Index.searchAndDownloadMusic env prompt outputPath w)
          = Throw "No matching sounds found after all attempts")
      /\ (exists code message,
             fst (Index.generate_video env body w) = Ok (RespError code message))
      /\ (exists calls,
             trace (snd (Index.generate_video env body w)) = (trace w ++ calls)%list
             /\ Forall (fun c => ~ is_encoder_call c) calls)
      /\ videos (snd (Index.generate_video env body w)) = videos w
      /\ (forall p d frames w1,
             invalid body = false ->
             body_prompt body = Some p -> body_duration body = Js.Num d ->
             Index.generateVideoFrames env p (frameCount d) w = (Ok frames, w1) ->
             fst (Index.generate_video env body w)
             = Ok (RespError 500 "Failed to get audio"))).
Proof.
  split; [exact (proj1 (Index_generate_video_respects env body w)) |].
  intros H.
  split; [apply searchAndDownloadMusic_no_sound, H |].
  split.
  { intros Hb.
    exact (proj1 (proj2 (tiers_without_result env prompt outputPath w
                           (Hb _) (fun req _ => Hb req))
                    (fun req _ => Hb req))). }
  unfold Index.generate_video, try_catch.
  destruct (invalid body) eqn:Hinv.
  { simpl. split; [eexists _, _; reflexivity |].
    split; [exists []; rewrite app_nil_r; split; [reflexivity | constructor] |].
    split; [reflexivity | intros; discriminate]. }
  destruct (body_prompt body) as [p|] eqn:Hp.
  2:{ simpl. split; [eexists _, _; reflexivity |].
      split; [exists []; rewrite app_nil_r; split; [reflexivity | constructor] |].
      split; [reflexivity | intros; discriminate]. }
  destruct (body_duration body) as [|d] eqn:Hd.
  { simpl. split; [eexists _, _; reflexivity |].
    split; [exists []; rewrite app_nil_r; split; [reflexivity | constructor] |].
    split; [reflexivity | intros; discriminate]. }
  destruct (Index_pipeline_no_sound env p d w H) as [e [w' [E [Hext Hmsg]]]].
  rewrite E. unfold ret. simpl.
  split; [eexists _, _; reflexivity |].
  split; [exact (proj1 Hext) |].
  split; [exact (no_video_added _ _ Hext) |].
  intros p' d' frames w1 _ Hp' Hd' Hf.
  injection Hp' as <-. injection Hd' as <-.
  rewrite (Hmsg frames w1 Hf). reflexivity.
Qed.

Lemma silentEnv_no_sound : no_sound silentEnv.
Proof. intros t req. exact I. Qed.

Lemma no_audio_no_video_witness :
  no_sound silentEnv
  /\ fst (Index.generate_video silentEnv (lakeRequest 10) initialWorld)
     = Ok (RespError 500 "Failed to get audio").
Proof.
  split; [exact silentEnv_no_sound |].
  destruct (proj2 (no_audio_no_video silentEnv exampleText (mkPath "temp" "music.mp3")
                     (lakeRequest 10) initialWorld) silentEnv_no_sound)
    as [_ [_ [_ [_ [_ H]]]]].
  destruct (Index.generateVideoFrames silentEnv "a calm lake at sunrise"
              (frameCount 10) initialWorld) as [[frames|e] w1] eqn:E.
  - exact (H "a calm lake at sunrise" 10%Q frames w1 eq_refl eq_refl eq_refl E).
  - vm_compute in E. discriminate E.
Defined.

(** ** Validation of the request *)

Section Starts.

Context {X : Type}.
Variable P : Call -> Prop.
Variable V : Video -> Prop.
Variable obs : Progress -> X.

Lemma starts_with_call {A} c (answer : nat -> Res A) : starts_with c (call c answer).
Proof. intros w. exists []. reflexivity. Qed.

Lemma starts_with_bind {A B} c (m : M A) (k : A -> M B) :
  starts_with c m -> (forall a, respects P V obs (k a)) -> starts_with c (bind m k).
Proof.
  intros Hm Hk w. unfold bind. destruct (Hm w) as [l E].
  destruct (m w) as [[a|e] w1]; simpl in E.
  - destruct (Hk a w1) as [[l' [E' _]] _].
    exists (l ++ l')%list. rewrite E', E, <- app_assoc. reflexivity.
  - exists l. exact E.
Qed.

Lemma starts_with_try_catch {A} c (m : M A) (h : Error -> M A) :
  starts_with c m -> (forall e, respects P V obs (h e)) ->
  starts_with c (try_catch m h).
Proof.
  intros Hm Hh w. unfold try_catch. destruct (Hm w) as [l E].
  destruct (m w) as [[a|e] w1]; simpl in E.
  - exists l. exact E.
  - destruct (Hh e w1) as [[l' [E' _]] _].
    exists (l ++ l')%list. rewrite E', E, <- app_assoc. reflexivity.
Qed.

Lemma starts_reporting_assign p : starts_reporting p (assign (fun _ => p)).
Proof. intros w. exists []. reflexivity. Qed.

Lemma starts_reporting_bind {A B} p (m : M A) (k : A -> M B) :
  starts_reporting p m -> (forall a, respects P V obs (k a)) ->
  starts_reporting p (bind m k).
Proof.
  intros Hm Hk w. unfold bind. destruct (Hm w) as [l E].
  destruct (m w) as [[a|e] w1]; simpl in E.
  - destruct (Hk a w1) as [_ [_ [[l' E'] _]]].
    exists (l ++ l')%list. rewrite E', E, <- app_assoc. reflexivity.
  - exists l. exact E.
Qed.

Lemma starts_reporting_try_catch {A} p (m : M A) (h : Error -> M A) :
  starts_reporting p m -> (forall e, respects P V obs (h e)) ->
  starts_reporting p (try_catch m h).
Proof.
  intros Hm Hh w. unfold try_catch. destruct (Hm w) as [l E].
  destruct (m w) as [[a|e] w1]; simpl in E.
  - exists l. exact E.
  - destruct (Hh e w1) as [_ [_ [[l' E'] _]]].
    exists (l ++ l')%list. rewrite E', E, <- app_assoc. reflexivity.
Qed.

End Starts.

(** The pipeline of index.js begins with the check of the temporary
    directory. *)
Lemma Index_pipeline_starts env prompt durationNum :
  starts_with (CExists "temp") (Index.pipeline env prompt durationNum).
Proof.
  unfold Index.pipeline.
  apply (starts_with_bind encoder_with_audio with_audio blind);
    [| intros frames; Index_after_frames].
  unfold Index.generateVideoFrames. cbv zeta.
  apply (starts_with_try_catch encoder_with_audio with_audio blind);
    [| intros e; apply respects_throw].
  apply (starts_with_bind encoder_with_audio with_audio blind).
  - unfold ensureDir.
    apply (starts_with_bind encoder_with_audio with_audio blind);
      [apply starts_with_call | intros []; respects_auto; exact I].
  - intros _. apply respects_bind;
      [apply Index_frames_loop_respects, audio_stage_observer | intros frames].
    respects_auto.
Qed.

(** The pipeline of part_000 begins with the reset of the progress object. *)
Lemma Part000_pipeline_starts env prompt durationNum :
  starts_reporting startingProgress (Part000.pipeline env prompt durationNum).
Proof.
  unfold Part000.pipeline.
  apply (starts_reporting_bind any_call with_audio blind);
    [apply starts_reporting_assign | intros _].
  Part000_after_reset.
Qed.

(** A pipeline of index.js that returns, returns the saved video. *)
Lemma Index_pipeline_response env prompt durationNum w r w' :
  Index.pipeline env prompt durationNum w = (Ok r, w') ->
  exists video fullUrl, r = RespVideo video fullUrl.
Proof.
  unfold Index.pipeline. intros H.
  apply bind_Ok_inv in H. destruct H as [frames [w1 [_ H]]].
  destruct (List.length frames =? 0)%nat; [discriminate |].
  apply bind_Ok_inv in H. destruct H as [audio [w2 [_ H]]].
  destruct audio as [audioPath|]; [| discriminate].
  apply bind_Ok_inv in H. destruct H as [videoPath [w3 [_ H]]].
  apply bind_Ok_inv in H. destruct H as [size [w4 [_ H]]].
  destruct (size =? 0); [discriminate |].
  apply bind_Ok_inv in H. destruct H as [t [w5 [_ H]]].
  apply bind_Ok_inv in H. destruct H as [[] [w6 [_ H]]].
  apply bind_Ok_inv in H. destruct H as [[] [w7 [_ H]]].
  apply bind_Ok_inv in H. destruct H as [[] [w8 [_ H]]].
  injection H as <- _. eexists _, _. reflexivity.
Qed.

Lemma invalid_spec body :
  invalid body = true <->
  match body_prompt body with
  | Some p => Js.trim p = ""
  | None => True
  end \/ body_duration body = Js.NaN.
Proof.
  unfold invalid. rewrite orb_true_iff, negb_true_iff. split.
  - intros [H|H].
    + left. destruct (body_prompt body) as [p|]; [| exact I].
      destruct (Js.trim p); [reflexivity | discriminate].
    + right. destruct (body_duration body); [reflexivity | discriminate].
  - intros [H|H].
    + left. destruct (body_prompt body) as [p|]; [| reflexivity].
      rewrite H. reflexivity.
    + right. rewrite H. reflexivity.
Qed.

Lemma invalid_false body :
  invalid body = false ->
  exists p d, body_prompt body = Some p /\ body_duration body = Js.Num d.
Proof.
  unfold invalid. intros H. apply orb_false_iff in H. destruct H as [H1 H2].
  destruct (body_prompt body) as [p|]; [| discriminate].
  destruct (body_duration body) as [|d]; [discriminate |].
  exists p, d. split; reflexivity.
Qed.

(** C10.  A request is invalid exactly when its prompt is missing or empty
    once trimmed, or its duration is not a number.  The route of index.js
    answers 400 exactly to the invalid requests, and does nothing else for
    them; the route of part_000 answers them with the error of an invalid
    request without a call to any service.  Every other request, so every
    request with a finite duration (zero and negative ones too) and a prompt
    that is not blank, starts the pipeline: index.js checks the temporary
    directory for the frames, part_000 resets the progress object. *)
Theorem validation_gate (env : Env) (body : Body) (w : World) :
  (invalid body = true <->
   match body_prompt body with
   | Some p => Js.trim p = ""
   | None => True
   end \/ body_duration body = Js.NaN)
  /\ (fst (Index.generate_video env body w)
      = Ok (RespError 400 "Invalid prompt or duration")
      <-> invalid body = true)
  /\ (invalid body = true ->
      snd (Index.generate_video env body w) = w
      /\ fst (Part000.generate_video env body w)
         = Ok (RespError 500 "Invalid prompt or duration")
      /\ trace (snd (Part000.generate_video env body w)) = trace w)
  /\ (invalid body = false ->
      (exists calls,
          trace (snd (Index.generate_video env body w))
          = (trace w ++ CExists "temp" :: calls)%list)
      /\ (exists rest,
             reported (snd (Part000.generate_video env body w))
             = (reported w ++ startingProgress :: rest)%list))
  /\ (forall p d,
         Js.trim p <> "" ->
         invalid {| body_prompt := Some p; body_duration := Js.Num d |} = false).
Proof.
  split; [apply invalid_spec |].
  split; [| split; [| split]].
  - unfold Index.generate_video, try_catch. split.
    + destruct (invalid body) eqn:Hinv; [reflexivity |].
      destruct (invalid_false body Hinv) as [p [d [-> ->]]].
      destruct (Index.pipeline env p d w) as [[r|e] w'] eqn:E; simpl.
      * destruct (Index_pipeline_response _ _ _ _ _ _ E) as [v [u ->]]. discriminate.
      * discriminate.
    + intros ->. reflexivity.
  - intros Hinv. unfold Index.generate_video, Part000.generate_video, try_catch.
    rewrite Hinv. repeat split.
  - intros Hinv. destruct (invalid_false body Hinv) as [p [d [Hp Hd]]].
    unfold Index.generate_video, Part000.generate_video. rewrite Hinv, Hp, Hd.
    split.
    + apply (starts_with_try_catch any_call with_audio blind);
        [apply Index_pipeline_starts | intros e; apply respects_ret].
    + apply (starts_reporting_try_catch any_call with_audio blind);
        [apply Part000_pipeline_starts | intros e; respects_auto].
  - intros p d Hp. unfold invalid. simpl.
    destruct (Js.trim p); [contradiction | reflexivity].
Qed.

Lemma validation_gate_witness :
  invalid {| body_prompt := Some "   "; body_duration := Js.Num 10 |} = true
  /\ invalid {| body_prompt := Some "a calm lake"; body_duration := Js.NaN |} = true
  /\ invalid {| body_prompt := Some "a calm lake"; body_duration := Js.Num 0 |} = false
  /\ invalid {| body_prompt := Some "a calm lake"; body_duration := Js.Num (-3) |} = false
  /\ exists calls,
       trace (snd (Index.generate_video happyEnv
                     {| body_prompt := Some "a calm lake"; body_duration := Js.Num (-3) |}
                     initialWorld))
       = (trace initialWorld ++ CExists "temp" :: calls)%list.
Proof.
  split; [reflexivity |]. split; [reflexivity |].
  split; [reflexivity |]. split; [reflexivity |].
  exact (proj1 (proj1 (proj2 (proj2 (proj2
           (validation_gate happyEnv
              {| body_prompt := Some "a calm lake"; body_duration := Js.Num (-3) |}
              initialWorld)))) eq_refl)).
Defined.

(** ** Verification of the encoder's output *)

(** [createVideo] of index.js resolves only after [fs.stat] has answered
    with a positive size for the output file. *)
Lemma Index_createVideo_verifies env frames audioPath duration w p w' :
  Index.createVideo env frames audioPath duration w = (Ok p, w') ->
  exists size,
    fs_stat env (S (List.length (trace w))) p = Ok size /\ 0 < size.
Proof.
  unfold Index.createVideo, bind, clock, call, try_catch, ret, throw. simpl.
  destruct (outcome (ffmpeg env (List.length (trace w)) _)); [| discriminate].
  unfold log. cbn [trace]. rewrite length_app. cbn [List.length]. rewrite Nat.add_1_r.
  destruct (fs_stat env (S (List.length (trace w))) _) as [size|e] eqn:Hstat;
    [| discriminate].
  destruct (Z.ltb_spec 0 size) as [Hpos|Hneg]; [| discriminate].
  intros E. injection E as <- _. exists size. split; [exact Hstat | exact Hpos].
Qed.

(** [createVideo] of part_000 never looks at the output file. *)
Lemma Part000_createVideo_ignores_output env f frames audioPath duration w :
  fst (Part000.createVideo (with_stat f env) frames audioPath duration w)
  = fst (Part000.createVideo env frames audioPath duration w).
Proof. reflexivity. Qed.

(** C8, on the failing input.  The encoder ends without an error and leaves
    an empty output file, or none.  [createVideo] of index.js rejects both;
    [createVideo] of part_000 resolves with the path of the file, and the
    route of part_000 saves the record and answers with its URL. *)
Theorem part000_accepts_empty_output :
  let frames := [ mkPath "temp" "frame_1.png" ] in
  let audioPath := mkPath "temp" "music.wav" in
  fst (Index.createVideo emptyOutputEnv frames (Some audioPath) 10 initialWorld)
  = Throw "Video file is empty"
  /\ fst (Index.createVideo missingOutputEnv frames (Some audioPath) 10 initialWorld)
     = Throw "Failed to verify video file: ENOENT: no such file or directory"
  /\ fst (Part000.createVideo emptyOutputEnv frames audioPath 10 initialWorld)
     = Ok (mkPath "videos" "video_1700000000000.mp4")
  /\ fst (Part000.createVideo missingOutputEnv frames audioPath 10 initialWorld)
     = Ok (mkPath "videos" "video_1700000000000.mp4")
  /\ fst (Part000.generate_video missingOutputEnv (lakeRequest 10) initialWorld)
     = Ok (RespUrl "/videos/video_1700000000012.mp4")
  /\ map videoUrl
         (videos (snd (Part000.generate_video missingOutputEnv (lakeRequest 10)
                         initialWorld)))
     = ["/videos/video_1700000000012.mp4"].
Proof. repeat split; vm_compute; reflexivity. Qed.

(** ** The progress object of part_000 *)

Lemma url_stage_observer : stage_observer any_call progress_videoUrl.
Proof. split; intros; [exact I | reflexivity]. Qed.

Lemma ends_complete_bind {A} (m : M A) (k : A -> M Response) :
  respects any_call any_video progress_videoUrl m ->
  (forall a, ends_complete (k a)) ->
  ends_complete (bind m k).
Proof.
  intros Hm Hk w. unfold bind. destruct (Hm w) as [_ [_ [_ Hurl]]].
  destruct (m w) as [[a|e] w1]; simpl in Hurl.
  - specialize (Hk a w1). destruct (k a w1) as [[r|e] w2].
    + exact Hk.
    + rewrite Hk. exact Hurl.
  - exact Hurl.
Qed.

Lemma Part000_createVideo_keeps_url env frames audioPath duration :
  respects any_call any_video progress_videoUrl
    (Part000.createVideo env frames audioPath duration).
Proof.
  unfold Part000.createVideo.
  apply respects_bind; [apply respects_clock | intros t].
  apply respects_bind; [apply respects_call; exact I | intros run].
  apply respects_bind;
    [apply respects_on_progress, url_stage_observer | intros _].
  respects_auto.
Qed.

(** After the reset of the progress object, the pipeline of part_000 ends
    complete. *)
Lemma Part000_pipeline_ends env prompt durationNum w :
  match Part000.pipeline env prompt durationNum w with
  | (Ok r, w') =>
      exists url, r = RespUrl url /\ generationProgress w' = completeProgress url
  | (Throw _, w') => progress_videoUrl (generationProgress w') = None
  end.
Proof.
  unfold Part000.pipeline. unfold bind at 1. unfold assign at 1.
  match goal with
  | |- context [let (r, w'0) := ?rest ?w0 in _] =>
      assert (H : ends_complete rest); [| specialize (H w0); destruct (rest w0) as [[r|e] w1]; exact H]
  end.
  apply ends_complete_bind; [apply respects_assign; reflexivity | intros _].
  apply ends_complete_bind;
    [apply Part000_generateVideoFrames_respects, url_stage_observer | intros frames].
  do 2 (apply ends_complete_bind; [apply respects_assign; reflexivity | intros _]).
  apply ends_complete_bind;
    [apply Part000_generateMusicFromPrompt_respects, url_stage_observer
    | intros audioPath].
  do 2 (apply ends_complete_bind; [apply respects_assign; reflexivity | intros _]).
  apply ends_complete_bind; [apply Part000_createVideo_keeps_url | intros videoPath].
  do 2 (apply ends_complete_bind; [apply respects_assign; reflexivity | intros _]).
  apply ends_complete_bind; [apply respects_clock | intros t].
  apply ends_complete_bind;
    [apply respects_save; exact I | intros _].
  apply ends_complete_bind;
    [apply respects_unlink_all, url_stage_observer | intros _].
  apply ends_complete_bind; [apply respects_call; exact I | intros _].
  intros w'. simpl. eexists. split; reflexivity.
Qed.

(** A valid request of part_000 ends in one of the two terminal states. *)
Lemma Part000_terminal_states env body w :
  invalid body = false ->
  (exists url,
      fst (Part000.generate_video env body w) = Ok (RespUrl url)
      /\ generationProgress (snd (Part000.generate_video env body w))
         = completeProgress url)
  \/ (exists e,
         fst (Part000.generate_video env body w) = Ok (RespError 500 e)
         /\ generationProgress (snd (Part000.generate_video env body w))
            = failedProgress None e).
Proof.
  intros Hinv. destruct (invalid_false body Hinv) as [p [d [Hp Hd]]].
  unfold Part000.generate_video, try_catch. rewrite Hinv, Hp, Hd.
  pose proof (Part000_pipeline_ends env p d w) as H.
  destruct (Part000.pipeline env p d w) as [[r|e] w'].
  - left. destruct H as [url [-> Hgp]]. exists url. split; [reflexivity | exact Hgp].
  - right. exists e. split; [reflexivity |].
    unfold failedProgress. simpl. rewrite H. reflexivity.
Qed.

(** C3, on the failing input.  Every service succeeds and the encoder
    reports 50 and then 100 percent.  The run of part_000 reports 85 and 95
    during the encoding and then 90 for the finalizing step: the percent
    decreases between two reports that are not terminal.  The run still ends
    in the terminal state of success.  An invalid request that follows it
    ends at -1 with the error set and with the [videoUrl] of the run before
    it, since it fails before the progress object is reset. *)
Theorem progress_drops_after_encoding :
  let w1 := snd (Part000.generate_video happyEnv (lakeRequest 10) initialWorld) in
  let w2 := snd (Part000.generate_video happyEnv
                   {| body_prompt := Some "  "; body_duration := Js.Num 10 |} w1) in
  map progress (reported w1)
  = [0; 0; 0; 0; 8; 8; 16; 16; 24; 24; 32; 32; 40; 40; 45; 45; 75; 75;
     85; 85; 95; 95; 90; 100]
  /\ never_decreases (map progress (reported w1)) = false
  /\ generationProgress w1 = completeProgress "/videos/video_1700000000012.mp4"
  /\ generationProgress w2
     = failedProgress (Some "/videos/video_1700000000012.mp4")
         "Invalid prompt or duration".
Proof. repeat split; vm_compute; reflexivity. Qed.

(* ================================================================= *)
(** * Further properties of the code *)

(** ** Frame prompts *)




(** ** Keywords *)

Lemma all_chars_weaken (p q : ascii -> bool) s :
  (forall c, p c = true -> q c = true) ->
  all_chars p s = true -> all_chars q s = true.
Proof.
  intros Hpq. induction s as [|c s IH]; simpl; [reflexivity |].
  intros H. apply andb_true_iff in H. destruct H as [Hc Hs].
  rewrite (Hpq c Hc), (IH Hs). reflexivity.
Qed.

(** X2.  Keywords are stable: each keyword [extractKeywords] returns is a
    text whose only keyword is itself, so extracting again changes
    nothing. *)
Theorem keywords_are_stable (text keyword : string) :
  In keyword (extractKeywords text) ->
  extractKeywords keyword = [keyword]
  /\ flat_map extractKeywords (extractKeywords text) = extractKeywords text.
Proof.
  assert (Hone : forall k, In k (extractKeywords text) -> extractKeywords k = [k]).
  { intros k Hin.
    destruct (extractKeywords_sound text k Hin) as [Hlen [Hstop Hlow]].
    assert (Hword : all_chars Js.is_word k = true).
    { apply (all_chars_weaken lower_word); [| exact Hlow].
      intros c Hc. unfold lower_word in Hc. apply andb_true_iff in Hc. apply Hc. }
    rewrite (extractKeywords_word k Hword), (toLowerCase_lower_word k Hlow).
    unfold extractKeywords in Hin. apply filter_In in Hin.
    unfold kept. rewrite (proj2 Hin). reflexivity. }
  intros Hin. split; [exact (Hone keyword Hin) |].
  clear Hin. induction (extractKeywords text) as [|k l IH]; simpl; [reflexivity |].
  rewrite (Hone k (or_introl eq_refl)). simpl. f_equal.
  apply IH. intros k' Hk'. apply Hone. right. exact Hk'.
Qed.

Lemma keywords_are_stable_witness :
  extractKeywords "quick" = ["quick"]
  /\ flat_map extractKeywords (extractKeywords exampleText)
     = extractKeywords exampleText.
Proof.
  apply (keywords_are_stable exampleText "quick").
  right. left. reflexivity.
Defined.

(** ** The frame stage of index.js *)

Lemma Zrange_S i k : Zrange i (S k) = i :: Zrange (i + 1) k.
Proof.
  unfold Zrange. simpl. rewrite Z.add_0_r. f_equal.
  rewrite <- seq_shift, map_map. apply map_ext. intros j. lia.
Qed.

Lemma image_requests_app a b :
  image_requests (a ++ b) = (image_requests a ++ image_requests b)%list.
Proof.
  induction a as [|c a IH]; simpl; [reflexivity |].
  destruct c; simpl; rewrite ?IH; reflexivity.
Qed.

(** A loop of index.js that ends has sent one request per index, in order,
    and, when every response carried an image, has written one file per
    index. *)
Lemma Index_frames_loop_exact env prompt remaining :
  forall i frames w frames' w',
    Index.frames_loop env prompt remaining i frames w = (Ok frames', w') ->
    (exists calls,
        trace w' = (trace w ++ calls)%list
        /\ map text (image_requests calls) = map (scenePrompt prompt) (Zrange i remaining)
        /\ Forall (fun req => steps req = 30) (image_requests calls))
    /\ (always_image env ->
        frames' = (frames ++ map framePath (Zrange i remaining))%list).
Proof.
  induction remaining as [|k IH]; intros i frames w frames' w' H.
  - simpl in H. injection H as <- <-. split.
    + exists []. rewrite app_nil_r. repeat split. constructor.
    + intros _. simpl. rewrite app_nil_r. reflexivity.
  - rewrite Zrange_S. cbn [Index.frames_loop] in H.
    unfold bind at 1 in H. unfold clock in H.
    unfold bind at 1 in H. unfold call at 1 in H.
    destruct (stability env (List.length (trace w)) _) as [response|e] eqn:Himg;
      [| discriminate].
    unfold bind at 1 in H.
    destruct (artifact_base64 response) as [[|c s]|] eqn:Hart.
    + unfold ret at 1 in H. destruct (IH _ _ _ _ _ H) as [[calls [E [T S]]] Hf].
      split.
      * eexists (_ :: calls). rewrite E. simpl. rewrite <- app_assoc.
        split; [reflexivity |]. simpl. rewrite T.
        split; [reflexivity | constructor; [reflexivity | exact S]].
      * intros Hall.
        destruct (no_image_empty _ Hart (always_image_answer _ _ _ _ Hall Himg)).
    + unfold bind at 1 in H. unfold writeFile, call in H.
      destruct (fs_writeFile env _ _) as [[]|e]; [| discriminate].
      unfold ret at 1 in H. destruct (IH _ _ _ _ _ H) as [[calls [E [T S]]] Hf].
      split.
      * eexists (_ :: _ :: calls). rewrite E. simpl. rewrite <- !app_assoc.
        split; [reflexivity |]. simpl. rewrite T.
        split; [reflexivity | constructor; [reflexivity | exact S]].
      * intros Hall. rewrite (Hf Hall), <- app_assoc. reflexivity.
    + unfold ret at 1 in H. destruct (IH _ _ _ _ _ H) as [[calls [E [T S]]] Hf].
      split.
      * eexists (_ :: calls). rewrite E. simpl. rewrite <- app_assoc.
        split; [reflexivity |]. simpl. rewrite T.
        split; [reflexivity | constructor; [reflexivity | exact S]].
      * intros Hall.
        destruct (no_image_absent _ Hart (always_image_answer _ _ _ _ Hall Himg)).
Qed.

(** X3.  A frame stage of index.js that succeeds has sent one image request
    per scene 1 to [max 4 n], in order and with 30 steps each.  When every
    response carried an image, the frames it returns are the files
    [temp/frame_0.png] to [temp/frame_(max 4 n - 1).png]: the same paths for
    every prompt and every run. *)
Theorem index_frames_are_fixed_files (env : Env) (prompt : string) (n : Z)
  (w : World) (frames : list Path) (w' : World) :
  Index.generateVideoFrames env prompt n w = (Ok frames, w') ->
  (exists calls,
      trace w' = (trace w ++ calls)%list
      /\ map text (image_requests calls)
         = map (scenePrompt prompt) (Zrange 0 (Z.to_nat (Z.max 4 n)))
      /\ Forall (fun req => steps req = 30) (image_requests calls))
  /\ (always_image env ->
      frames = map framePath (Zrange 0 (Z.to_nat (Z.max 4 n)))).
Proof.
  rewrite (try_catch_rethrow _ w : Index.generateVideoFrames env prompt n w = _).
  cbv zeta. intros H.
  apply bind_Ok_inv in H. destruct H as [[] [w1 [Hdir H]]].
  apply bind_Ok_inv in H. destruct H as [fs [w2 [Hloop H]]].
  destruct (List.length fs =? 0)%nat; [discriminate |].
  injection H as <- <-.
  destruct (Index_frames_loop_exact _ _ _ _ _ _ _ _ Hloop) as [[calls [E [T S]]] Hf].
  split; [| exact Hf].
  assert (Hd : exists l, trace w1 = (trace w ++ l)%list /\ image_requests l = []).
  { unfold ensureDir, bind, call, ret in Hdir.
    destruct (fs_exists env (List.length (trace w)) "temp").
    - injection Hdir as <-. eexists [_]. split; reflexivity.
    - destruct (fs_mkdir env _ "temp") as [[]|e]; [| discriminate].
      injection Hdir as <-. eexists [_; _]. simpl. rewrite <- app_assoc.
      split; reflexivity. }
  destruct Hd as [l [El Il]].
  exists (l ++ calls)%list. rewrite E, El, <- app_assoc.
  split; [reflexivity |]. rewrite image_requests_app, Il. simpl.
  split; [exact T | exact S].
Qed.

Lemma happyEnv_always_image : always_image happyEnv.
Proof. intros t req. exact I. Qed.

Lemma index_frames_are_fixed_files_witness :
  exists frames w',
    Index.generateVideoFrames happyEnv "a calm lake at sunrise" 2 initialWorld
    = (Ok frames, w')
    /\ frames = [framePath 0; framePath 1; framePath 2; framePath 3].
Proof.
  eexists _, _. split; [vm_compute; reflexivity |].
  exact (proj2 (index_frames_are_fixed_files happyEnv "a calm lake at sunrise" 2
                  initialWorld _ _ eq_refl) happyEnv_always_image).
Defined.

(** ** The cascade of [getAudioFromFreesound] *)

(** A loop of [getAudioFromFreesound] searches a prefix of its queries, in
    order; it returns a path right after the download of a preview and the
    write of that path, and returns nothing only after the last query. *)
Lemma audio_loop_runs env duration qs :
  forall w,
  exists k tail,
    trace (snd (Index.audio_loop env qs duration w))
    = (trace w
       ++ search_calls (firstn k (map (fun q => Index.freesoundParams q duration) qs))
       ++ tail)%list
    /\ match fst (Index.audio_loop env qs duration w) with
       | Ok None => tail = [] /\ k = List.length qs
       | Ok (Some p) =>
           (exists url, tail = [CDownload url; CWriteFile p]) /\ dir p = "temp"
       | Throw _ => searches tail = []
       end.
Proof.
  induction qs as [|q qs IH]; intros w.
  - exists 0%nat, []. simpl. rewrite app_nil_r. repeat split.
  - destruct (Index.audio_loop env (q :: qs) duration w) as [r w'] eqn:Hrun.
    cbn [fst snd]. cbn [Index.audio_loop] in Hrun.
    unfold bind at 1 in Hrun. rewrite search_run in Hrun.
    destruct (freesound env (List.length (trace w)) _) as [data|e].
    + destruct (first_result _) as [sound|] eqn:Hfirst.
      * exists 1%nat.
        unfold bind, downloadPreview, clock, writeFile, call, throw, ret in Hrun.
        destruct (preview_hq_mp3 sound) as [url|].
        -- destruct (download env _ url) as [audio|e].
           ++ destruct (fs_writeFile env _ _) as [[]|e];
                injection Hrun as <- <-; simpl.
              ** eexists [_; _]. rewrite <- !app_assoc. split; [reflexivity |].
                 split; [eexists; reflexivity | reflexivity].
              ** eexists [_; _]. rewrite <- !app_assoc. split; reflexivity.
           ++ injection Hrun as <- <-. simpl. eexists [_].
              rewrite <- !app_assoc. split; reflexivity.
        -- injection Hrun as <- <-. simpl. exists []. split; reflexivity.
      * destruct (IH (log (CFreesound (Index.freesoundParams q duration)) w))
          as [k [tail [E R]]].
        rewrite Hrun in E, R. cbn [fst snd] in E, R.
        exists (S k), tail. rewrite E. simpl. rewrite <- !app_assoc.
        split; [reflexivity |].
        destruct r as [[p|]|e']; try exact R.
        destruct R as [-> ->]. split; reflexivity.
    + injection Hrun as <- <-. exists 1%nat, []. simpl. split; reflexivity.
Qed.

Lemma firstn_app_all {A} (l1 l2 : list A) k :
  firstn (List.length l1 + k) (l1 ++ l2) = (l1 ++ firstn k l2)%list.
Proof.
  induction l1 as [|x l1 IH]; simpl; [reflexivity | rewrite IH; reflexivity].
Qed.

Lemma firstn_app_short {A} (l1 l2 : list A) k :
  (k <= List.length l1)%nat -> firstn k (l1 ++ l2) = firstn k l1.
Proof.
  revert k. induction l1 as [|x l1 IH]; intros [|k] Hk; simpl in *;
    try reflexivity; try lia.
  rewrite IH by lia. reflexivity.
Qed.

Lemma In_firstn {A} (x : A) l k : In x (firstn k l) -> In x l.
Proof.
  revert k. induction l as [|y l IH]; intros [|k]; simpl; try tauto.
  intros [H|H]; [left; exact H | right; exact (IH k H)].
Qed.

Lemma firstn_clip {A} (l : list A) k :
  firstn k l = firstn (Nat.min k (List.length l)) l.
Proof.
  revert k. induction l as [|x l IH]; intros [|k]; simpl; try reflexivity.
  rewrite <- IH. reflexivity.
Qed.

(** X4.  [getAudioFromFreesound] never throws.  Whatever the services
    answer, its searches are the first queries of its cascade (the keywords
    of the prompt, then the default categories), in order and each with the
    window of five seconds around the duration; and when it returns a path,
    the last two calls are the download of a preview and the write of that
    path, in the temporary directory. *)
Theorem getAudio_is_a_prefix_of_the_cascade (env : Env) (prompt : string)
  (duration : Q) (w : World) :
  (exists found, fst (Index.getAudioFromFreesound env prompt duration w) = Ok found)
  /\ (exists k, searches_of_run (Index.getAudioFromFreesound env prompt duration) w
                  (firstn k (keywordTier prompt duration ++ defaultTier duration)))
  /\ (forall calls,
         trace (snd (Index.getAudioFromFreesound env prompt duration w))
         = (trace w ++ calls)%list ->
         Forall (fun req => filter_from req = (duration - 5)%Q
                            /\ filter_to req = (duration + 5)%Q)
                (searches calls))
  /\ (forall p,
         fst (Index.getAudioFromFreesound env prompt duration w) = Ok (Some p) ->
         dir p = "temp"
         /\ exists before url,
              trace (snd (Index.getAudioFromFreesound env prompt duration w))
              = (before ++ [CDownload url; CWriteFile p])%list).
Proof.
  assert (Hrun :
    exists k tail,
      trace (snd (Index.getAudioFromFreesound env prompt duration w))
      = (trace w
         ++ search_calls (firstn k (keywordTier prompt duration ++ defaultTier duration))
         ++ tail)%list
      /\ searches tail = []
      /\ match fst (Index.getAudioFromFreesound env prompt duration w) with
         | Ok (Some p) =>
             (exists url, tail = [CDownload url; CWriteFile p]) /\ dir p = "temp"
         | Ok None => True
         | Throw _ => False
         end).
  { unfold Index.getAudioFromFreesound, try_catch, bind.
    destruct (audio_loop_runs env duration
                (map (fun keyword => keyword ++ " music background")
                     (inlineKeywords prompt)) w) as [k1 [t1 [E1 R1]]].
    change (map (fun q => Index.freesoundParams q duration)
                (map (fun keyword => keyword ++ " music background")
                     (inlineKeywords prompt)))
      with (keywordTier prompt duration) in E1.
    rewrite length_map in R1.
    destruct (Index.audio_loop env _ duration w) as [[[p|]|e] w1];
      cbn [fst snd] in E1, R1 |- *; unfold ret; cbn [fst snd].
    - destruct R1 as [[url ->] Hdir].
      exists (Nat.min k1 (List.length (keywordTier prompt duration))), [CDownload url; CWriteFile p].
      rewrite firstn_app_short by apply Nat.le_min_r.
      rewrite <- firstn_clip. split; [exact E1 |]. split; [reflexivity |].
      split; [eexists; reflexivity | exact Hdir].
    - destruct R1 as [-> Hk1]. rewrite app_nil_r in E1.
      destruct (audio_loop_runs env duration DEFAULT_CATEGORIES w1)
        as [k2 [t2 [E2 R2]]].
      change (map (fun q => Index.freesoundParams q duration) DEFAULT_CATEGORIES)
        with (defaultTier duration) in E2.
      assert (Hall : firstn k1 (keywordTier prompt duration)
                     = keywordTier prompt duration).
      { apply firstn_all2. unfold keywordTier. rewrite !length_map. lia. }
      rewrite Hall in E1.
      destruct (Index.audio_loop env DEFAULT_CATEGORIES duration w1)
        as [[[p|]|e] w2]; cbn [fst snd] in E2, R2 |- *;
        unfold ret, throw; cbn [fst snd];
        exists (List.length (keywordTier prompt duration) + k2)%nat, t2;
        rewrite firstn_app_all; unfold search_calls in *;
        rewrite map_app, E2, E1, <- !app_assoc.
      + destruct R2 as [[url ->] Hdir]. split; [reflexivity |].
        split; [reflexivity |]. split; [eexists; reflexivity | exact Hdir].
      + destruct R2 as [-> _]. repeat split.
      + split; [reflexivity |]. split; [exact R2 | exact I].
    - exists (Nat.min k1 (List.length (keywordTier prompt duration))), t1.
      rewrite firstn_app_short by apply Nat.le_min_r.
      rewrite <- firstn_clip. split; [exact E1 |]. split; [exact R1 | exact I]. }
  destruct Hrun as [k [tail [E [St R]]]].
  split; [| split; [| split]].
  - destruct (fst (Index.getAudioFromFreesound env prompt duration w))
      as [found|e]; [eexists; reflexivity | destruct R].
  - exists k. eexists. split; [exact E |].
    rewrite searches_app, searches_search_calls, St, app_nil_r. reflexivity.
  - intros calls Hc. rewrite E in Hc. apply app_inv_head in Hc. subst calls.
    rewrite searches_app, searches_search_calls, St, app_nil_r.
    apply Forall_forall. intros req Hin. apply In_firstn in Hin.
    apply in_app_or in Hin. unfold keywordTier, defaultTier in Hin.
    destruct Hin as [Hin|Hin]; apply in_map_iff in Hin;
      destruct Hin as [q [<- _]]; split; reflexivity.
  - intros p Hp. rewrite Hp in R. destruct R as [[url ->] Hdir].
    split; [exact Hdir |]. eexists _, url. rewrite E, !app_assoc. reflexivity.
Qed.

Lemma audio_loop_first_fails env duration q qs w sound rest :
  freesound env (List.length (trace w)) (Index.freesoundParams q duration)
  = Ok (Some (sound :: rest)) ->
  (preview_hq_mp3 sound = None
   \/ exists url e,
        preview_hq_mp3 sound = Some url
        /\ download env (S (List.length (trace w))) url = Throw e) ->
  exists e tail,
    Index.audio_loop env (q :: qs) duration w
    = (Throw e,
       {| trace := (trace w ++ CFreesound (Index.freesoundParams q duration) :: tail)%list;
          generationProgress := generationProgress w;
          reported := reported w; videos := videos w |})
    /\ searches tail = [].
Proof.
  intros Hs Hd. cbn [Index.audio_loop]. unfold bind at 1.
  rewrite search_run, Hs. unfold first_result. cbn [results].
  unfold bind, downloadPreview, call, throw, log. cbn [trace].
  destruct Hd as [-> | [url [e [-> Hd]]]].
  - eexists _, []. split; reflexivity.
  - cbn [trace]. rewrite length_app. cbn [List.length]. rewrite Nat.add_1_r, Hd.
    eexists _, [_]. cbn [trace generationProgress reported videos].
    rewrite <- app_assoc. split; reflexivity.
Qed.

(** X5.  A preview that cannot be downloaded ends the cascade of
    [getAudioFromFreesound]: when the first query of the cascade finds a
    sound and that sound has no preview, or the download of its preview
    fails, the function returns [null] and no other query is tried. *)
Theorem failed_download_ends_the_cascade (env : Env) (prompt : string)
  (duration : Q) (w : World) (req : SearchParams) (others : list SearchParams)
  (sound : Sound) (rest : list Sound) :
  (keywordTier prompt duration ++ defaultTier duration)%list = req :: others ->
  freesound env (List.length (trace w)) req = Ok (Some (sound :: rest)) ->
  (preview_hq_mp3 sound = None
   \/ exists url e,
        preview_hq_mp3 sound = Some url
        /\ download env (S (List.length (trace w))) url = Throw e) ->
  fst (Index.getAudioFromFreesound env prompt duration w) = Ok None
  /\ searches_of_run (Index.getAudioFromFreesound env prompt duration) w [req].
Proof.
  intros Hq Hs Hd. unfold searches_of_run, Index.getAudioFromFreesound, try_catch.
  unfold keywordTier in Hq.
  destruct (inlineKeywords prompt) as [|k ks].
  - simpl in Hq. injection Hq as <- _. cbn [map].
    rewrite (bind_Ok (Index.audio_loop env [] duration) _ w None w eq_refl).
    destruct (audio_loop_first_fails env duration "ambient music"
                (tl DEFAULT_CATEGORIES) w sound rest Hs Hd)
      as [e [tail [E St]]].
    change ("ambient music" :: tl DEFAULT_CATEGORIES) with DEFAULT_CATEGORIES in E.
    rewrite (bind_Throw _ _ _ _ _ E). unfold ret. cbn [fst snd trace].
    split; [reflexivity |].
    eexists. split; [reflexivity |]. cbn [searches]. rewrite St. reflexivity.
  - simpl in Hq. injection Hq as <- _. cbn [map].
    destruct (audio_loop_first_fails env duration (k ++ " music background")
                (map (fun keyword => keyword ++ " music background") ks)
                w sound rest Hs Hd) as [e [tail [E St]]].
    rewrite (bind_Throw _ _ _ _ _ E). unfold ret. cbn [fst snd trace].
    split; [reflexivity |].
    eexists. split; [reflexivity |]. cbn [searches]. rewrite St. reflexivity.
Qed.

Lemma failed_download_ends_the_cascade_witness :
  fst (Index.getAudioFromFreesound noDownloadEnv "a calm lake at sunrise" 10 initialWorld)
  = Ok None
  /\ searches_of_run
       (Index.getAudioFromFreesound noDownloadEnv "a calm lake at sunrise" 10)
       initialWorld
       [Index.freesoundParams "calm music background" 10].
Proof.
  apply (failed_download_ends_the_cascade noDownloadEnv "a calm lake at sunrise" 10
           initialWorld (Index.freesoundParams "calm music background" 10)
           (tl (keywordTier "a calm lake at sunrise" 10 ++ defaultTier 10))
           aSound []).
  - reflexivity.
  - reflexivity.
  - right. eexists _, _. split; reflexivity.
Defined.

(** ** [searchAndDownloadMusic] *)

(** A search loop that starts without a result searches a prefix of its
    queries, and ends without a result only after the last one. *)
Lemma search_loop_runs env qs :
  forall last w,
    has_results last = false ->
    exists k,
      trace (snd (Index.search_loop env qs last w))
      = (trace w ++ search_calls (firstn k (map Index.searchParams qs)))%list
      /\ match fst (Index.search_loop env qs last w) with
         | Ok r => has_results r = false -> k = List.length qs
         | Throw _ => True
         end.
Proof.
  induction qs as [|q qs IH]; intros last w Hlast.
  - exists 0%nat. simpl. rewrite app_nil_r. split; reflexivity.
  - destruct (Index.search_loop env (q :: qs) last w) as [r w'] eqn:Hrun.
    cbn [fst snd]. cbn [Index.search_loop] in Hrun.
    unfold bind at 1 in Hrun. rewrite search_run in Hrun.
    destruct (freesound env (List.length (trace w)) (Index.searchParams q))
      as [data|e].
    + destruct (has_results _) eqn:Hres in Hrun.
      * injection Hrun as <- <-. exists 1%nat. split; [reflexivity |].
        intros H. unfold has_results in H, Hres. cbn [results] in H, Hres.
        rewrite H in Hres. discriminate.
      * destruct (IH _ (log (CFreesound (Index.searchParams q)) w) Hres)
          as [k [E R]].
        rewrite Hrun in E, R. cbn [fst snd] in E, R.
        exists (S k). rewrite E. simpl. rewrite <- app_assoc.
        split; [reflexivity |].
        destruct r as [r|e]; [| exact I]. intros H. rewrite (R H). reflexivity.
    + injection Hrun as <- <-. exists 1%nat. split; [reflexivity | exact I].
Qed.

(** The end of [searchAndDownloadMusic]: a download and the write of the
    output file, and a result with that path. *)
Lemma afterSearches_runs env prompt outputPath r3 w :
  exists tail,
    trace (snd (afterSearches env prompt outputPath r3 w)) = (trace w ++ tail)%list
    /\ searches tail = []
    /\ match fst (afterSearches env prompt outputPath r3 w) with
       | Ok r =>
           Index.success r = true
           /\ Index.musicPath r = outputPath
           /\ (exists url, tail = [CDownload url; CWriteFile outputPath])
           /\ (exists sound,
                  first_result r3 = Some sound
                  /\ Index.soundName r = sound_name sound)
           /\ (config_query r3 = prompt -> Index.searchMethod r = Index.direct)
       | Throw _ => True
       end.
Proof.
  unfold afterSearches.
  destruct (first_result r3) as [sound|].
  - unfold bind, downloadPreview, writeFile, call, throw, ret.
    destruct (preview_hq_mp3 sound) as [url|].
    + destruct (download env _ url) as [audio|e].
      * destruct (fs_writeFile env _ outputPath) as [[]|e]; cbn [fst snd log trace].
        -- eexists [_; _]. rewrite <- app_assoc. split; [reflexivity |].
           split; [reflexivity |]. cbn. split; [reflexivity |].
           split; [reflexivity |]. split; [eexists; reflexivity |].
           split; [eexists; split; reflexivity |].
           intros ->. rewrite String.eqb_refl. reflexivity.
        -- eexists [_; _]. rewrite <- app_assoc. repeat split.
      * cbn [fst snd log trace]. eexists [_]. repeat split.
    + exists []. cbn [fst snd]. rewrite app_nil_r. repeat split.
  - exists []. unfold throw. cbn [fst snd]. rewrite app_nil_r. repeat split.
Qed.

Lemma firstn_prefix_of_app {A} (l1 l2 : list A) k :
  exists k', firstn k l1 = firstn k' (l1 ++ l2).
Proof.
  exists (Nat.min k (List.length l1)).
  rewrite firstn_app_short by apply Nat.le_min_r. apply firstn_clip.
Qed.

(** X6.  Whatever the services answer, the searches of
    [searchAndDownloadMusic] are the first queries of its cascade (the raw
    prompt, one query per keyword, the default categories), in order.  When
    it returns, the result has [success] set and the output path it was
    given as [musicPath], and the last two calls are the download of a
    preview and the write of that path; when the direct query had a result,
    the sound is the first result of that query and the method reported is
    [direct]. *)
Theorem searchAndDownloadMusic_outcomes (env : Env) (prompt : string)
  (outputPath : Path) (w : World) :
  (exists k,
      searches_of_run (Index.searchAndDownloadMusic env prompt outputPath) w
        (firstn k (tier1 prompt :: tier2 prompt ++ tier3)))
  /\ (forall r,
         fst (Index.searchAndDownloadMusic env prompt outputPath w) = Ok r ->
         Index.success r = true
         /\ Index.musicPath r = outputPath
         /\ exists before url,
              trace (snd (Index.searchAndDownloadMusic env prompt outputPath w))
              = (before ++ [CDownload url; CWriteFile outputPath])%list)
  /\ (forall sound rest r,
         freesound env (List.length (trace w)) (tier1 prompt)
         = Ok (Some (sound :: rest)) ->
         fst (Index.searchAndDownloadMusic env prompt outputPath w) = Ok r ->
         Index.soundName r = sound_name sound
         /\ Index.searchMethod r = Index.direct).
Proof.
  assert (Hrun :
    exists k tail,
      trace (snd (Index.searchAndDownloadMusic env prompt outputPath w))
      = (trace w
         ++ search_calls (firstn k (tier1 prompt :: tier2 prompt ++ tier3))
         ++ tail)%list
      /\ searches tail = []
      /\ match fst (Index.searchAndDownloadMusic env prompt outputPath w) with
         | Ok r =>
             Index.success r = true /\ Index.musicPath r = outputPath
             /\ (exists url, tail = [CDownload url; CWriteFile outputPath])
             /\ (forall sound rest,
                    freesound env (List.length (trace w)) (tier1 prompt)
                    = Ok (Some (sound :: rest)) ->
                    Index.soundName r = sound_name sound
                    /\ Index.searchMethod r = Index.direct)
         | Throw _ => True
         end).
  { destruct (Index.searchAndDownloadMusic env prompt outputPath w)
      as [res w'] eqn:Hrun.
    cbn [fst snd]. rewrite searchAndDownloadMusic_run in Hrun.
    unfold bind at 1 in Hrun. rewrite search_run in Hrun.
    destruct (freesound env (List.length (trace w)) (tier1 prompt)) as [data|e].
    2:{ injection Hrun as <- <-. exists 1%nat, []. rewrite app_nil_r.
        repeat split. }
    set (r1 := {| config_query := query (tier1 prompt); results := data |}) in Hrun.
    set (w1 := log (CFreesound (tier1 prompt)) w) in Hrun.
    assert (Ew1 : trace w1 = (trace w ++ [CFreesound (tier1 prompt)])%list)
      by reflexivity.
    clearbody w1.
    destruct (has_results r1) eqn:Hr1; cbn [negb] in Hrun.
    - (* the direct query has a result *)
      unfold bind at 1, ret at 1 in Hrun. rewrite Hr1 in Hrun. cbn [negb] in Hrun.
      unfold bind at 1, ret at 1 in Hrun.
      destruct (afterSearches_runs env prompt outputPath r1 w1)
        as [tail [E [St R]]].
      rewrite Hrun in E, R. cbn [fst snd] in E, R.
      exists 1%nat, tail. rewrite E, Ew1. cbn [firstn search_calls map].
      rewrite <- app_assoc. split; [reflexivity |]. split; [exact St |].
      destruct res as [r|e]; [| exact I].
      destruct R as [Hs [Hm [Hu [[sound [Hf Hn]] Hd]]]].
      split; [exact Hs |]. split; [exact Hm |]. split; [exact Hu |].
      intros sound' rest Hq. injection Hq as Hq.
      unfold first_result, r1 in Hf. cbn [results] in Hf. rewrite Hq in Hf.
      injection Hf as <-.
      split; [exact Hn | apply Hd; reflexivity].
    - (* the keyword queries *)
      unfold bind at 1 in Hrun.
      destruct (search_loop_runs env
                  (map (fun keyword => keyword ++ " music background")
                       (extractKeywords prompt)) r1 w1 Hr1) as [k2 [E2 R2]].
      change (map Index.searchParams
                (map (fun keyword => keyword ++ " music background")
                     (extractKeywords prompt)))
        with (tier2 prompt) in E2.
      destruct (Index.search_loop env _ r1 w1) as [[r2|e] w2];
        cbn [fst snd] in E2, R2.
      2:{ injection Hrun as <- <-.
          destruct (firstn_prefix_of_app (tier2 prompt) tier3 k2) as [k' Hk'].
          exists (S k'), []. cbn [firstn]. rewrite <- Hk', E2, Ew1, app_nil_r.
          cbn [search_calls map]. rewrite <- app_assoc.
          repeat split. }
      destruct (has_results r2) eqn:Hr2; cbn [negb] in Hrun.
      + unfold bind at 1, ret at 1 in Hrun.
        destruct (afterSearches_runs env prompt outputPath r2 w2)
          as [tail [E [St R]]].
        rewrite Hrun in E, R. cbn [fst snd] in E, R.
        destruct (firstn_prefix_of_app (tier2 prompt) tier3 k2) as [k' Hk'].
        exists (S k'), tail. cbn [firstn]. rewrite <- Hk', E, E2, Ew1.
        cbn [search_calls map]. rewrite <- !app_assoc.
        split; [reflexivity |]. split; [exact St |].
        destruct res as [r|e]; [| exact I].
        destruct R as [Hs [Hm [Hu _]]].
        split; [exact Hs |]. split; [exact Hm |]. split; [exact Hu |].
        intros sound rest Hq. injection Hq as Hq.
        unfold has_results, r1 in Hr1. cbn [results] in Hr1.
        rewrite Hq in Hr1. discriminate.
      + (* the default categories *)
        specialize (R2 eq_refl). subst k2.
        rewrite firstn_all2 in E2
          by (unfold tier2; rewrite !length_map; apply Nat.le_refl).
        unfold bind at 1 in Hrun.
        destruct (search_loop_runs env DEFAULT_CATEGORIES r2 w2 Hr2) as [k3 [E3 _]].
        change (map Index.searchParams DEFAULT_CATEGORIES) with tier3 in E3.
        destruct (Index.search_loop env DEFAULT_CATEGORIES r2 w2) as [[r3|e] w3];
          cbn [fst snd] in E3.
        * destruct (afterSearches_runs env prompt outputPath r3 w3)
            as [tail [E [St R]]].
          rewrite Hrun in E, R. cbn [fst snd] in E, R.
          exists (S (List.length (tier2 prompt) + k3)), tail.
          cbn [firstn]. rewrite firstn_app_all, E, E3, E2, Ew1.
          unfold search_calls. cbn [map]. rewrite map_app.
          repeat (rewrite <- app_assoc || rewrite <- app_comm_cons).
          split; [reflexivity |]. split; [exact St |].
          destruct res as [r|e]; [| exact I].
          destruct R as [Hs [Hm [Hu _]]].
          split; [exact Hs |]. split; [exact Hm |]. split; [exact Hu |].
          intros sound rest Hq. injection Hq as Hq.
          unfold has_results, r1 in Hr1. cbn [results] in Hr1.
          rewrite Hq in Hr1. discriminate.
        * injection Hrun as <- <-.
          exists (S (List.length (tier2 prompt) + k3)), [].
          cbn [firstn]. rewrite firstn_app_all, E3, E2, Ew1, app_nil_r.
          unfold search_calls. cbn [map]. rewrite map_app.
          repeat (rewrite <- app_assoc || rewrite <- app_comm_cons).
          repeat split. }
  destruct Hrun as [k [tail [E [St R]]]].
  split; [| split].
  - exists k. eexists. split; [exact E |].
    rewrite searches_app, searches_search_calls, St, app_nil_r. reflexivity.
  - intros r Hr. rewrite Hr in R. destruct R as [Hs [Hm [[url ->] _]]].
    split; [exact Hs |]. split; [exact Hm |].
    eexists _, url. rewrite E, !app_assoc. reflexivity.
  - intros sound rest r Hq Hr. rewrite Hr in R.
    destruct R as [_ [_ [_ Hd]]]. exact (Hd sound rest Hq).
Qed.

(** ** [createVideo] of index.js and [verifyFile] *)

(** X7.  [verifyFile] never throws.  [createVideo] of index.js runs the
    encoder once; when the encoder reports an error it rejects with that
    error without looking at the file system, and when the encoder ends it
    resolves, with the path of the output file of the command, exactly when
    [verifyFile] would accept that file at that moment. *)
Theorem createVideo_resolves_as_verifyFile (env : Env) (frames : list Path)
  (audioPath : option Path) (duration : Q) (w : World) :
  let outputPath :=
    {| dir := "videos";
       base := Js.String_of_Z (Date_now env (List.length (trace w))) ++ ".mp4" |} in
  let command := Index.videoCommand frames audioPath duration outputPath in
  let run := ffmpeg env (List.length (trace w)) command in
  let w1 := log (CFfmpeg command) w in
  (forall p w0, exists ok, fst (verifyFile env p w0) = Ok ok)
  /\ (forall err,
         outcome run = Throw err ->
         Index.createVideo env frames audioPath duration w = (Throw err, w1))
  /\ (outcome run = Ok tt ->
      snd (Index.createVideo env frames audioPath duration w)
      = snd (verifyFile env outputPath w1)
      /\ (fst (Index.createVideo env frames audioPath duration w) = Ok outputPath
          <-> fst (verifyFile env outputPath w1) = Ok true)
      /\ (forall p,
             fst (Index.createVideo env frames audioPath duration w) = Ok p ->
             p = outputPath)).
Proof.
  intros outputPath command run w1.
  split; [| split].
  - intros p w0. unfold verifyFile, try_catch, bind, call, ret.
    destruct (fs_stat env (List.length (trace w0)) p); eexists; reflexivity.
  - intros err Hout. unfold Index.createVideo, bind, clock, call.
    fold outputPath. fold command. fold run. rewrite Hout. reflexivity.
  - intros Hout. unfold Index.createVideo, verifyFile, bind, clock, call, try_catch.
    fold outputPath. fold command. fold run. rewrite Hout. fold w1.
    unfold ret, throw.
    destruct (fs_stat env (List.length (trace w1)) outputPath) as [size|e];
      cbn [fst snd].
    + destruct (0 <? size); cbn [fst snd].
      * split; [reflexivity |]. split; [tauto |].
        intros p H. injection H as <-. reflexivity.
      * split; [reflexivity |]. split; [split; discriminate | discriminate].
    + split; [reflexivity |]. split; [split; discriminate | discriminate].
Qed.

(** ** What the stages before assembly call *)

Section AcquisitionCalls.

Context {X : Type}.
Variable P : Call -> Prop.
Variable V : Video -> Prop.
Variable obs : Progress -> X.
Hypothesis acquisition_ok : acquisition_observer P obs.

Variable env : Env.

Ltac acquisition_auto :=
  respects_auto;
  try (apply (proj1 acquisition_ok); exact I);
  try (apply (proj2 acquisition_ok)).

Lemma acquires_ensureDir d : respects P V obs (ensureDir env d).
Proof. unfold ensureDir. acquisition_auto. Qed.

Lemma acquires_search req : respects P V obs (search env req).
Proof. unfold search. acquisition_auto. Qed.

Lemma acquires_downloadPreview sound : respects P V obs (downloadPreview env sound).
Proof. unfold downloadPreview. acquisition_auto. Qed.

Lemma Index_frames_loop_acquires prompt remaining :
  forall i frames, respects P V obs (Index.frames_loop env prompt remaining i frames).
Proof.
  induction remaining as [|k IH]; intros i frames; simpl.
  - apply respects_ret.
  - acquisition_auto.
Qed.

Lemma Index_generateVideoFrames_acquires prompt numFrames :
  respects P V obs (Index.generateVideoFrames env prompt numFrames).
Proof.
  unfold Index.generateVideoFrames.
  apply respects_try_catch; [| intros e; apply respects_throw].
  apply respects_bind; [apply acquires_ensureDir | intros _].
  apply respects_bind; [apply Index_frames_loop_acquires | intros frames].
  acquisition_auto.
Qed.

Lemma Index_audio_loop_acquires duration queries :
  respects P V obs (Index.audio_loop env queries duration).
Proof.
  induction queries as [|q rest IH]; simpl.
  - apply respects_ret.
  - apply respects_bind; [apply acquires_search | intros r].
    destruct (first_result r) as [sound|]; [| exact IH].
    apply respects_bind; [apply acquires_downloadPreview | intros audio].
    acquisition_auto.
Qed.

Lemma Index_getAudioFromFreesound_acquires prompt duration :
  respects P V obs (Index.getAudioFromFreesound env prompt duration).
Proof.
  unfold Index.getAudioFromFreesound.
  apply respects_try_catch; [| intros e; apply respects_ret].
  apply respects_bind; [apply Index_audio_loop_acquires | intros found].
  destruct found; [apply respects_ret |].
  apply respects_bind; [apply Index_audio_loop_acquires | intros found'].
  acquisition_auto.
Qed.

Lemma Part000_frames_loop_acquires prompt numFrames remaining :
  forall i frames,
    respects P V obs (Part000.frames_loop env prompt numFrames remaining i frames).
Proof.
  induction remaining as [|k IH]; intros i frames; simpl.
  - apply respects_ret.
  - acquisition_auto.
Qed.

Lemma Part000_generateVideoFrames_acquires prompt numFrames :
  respects P V obs (Part000.generateVideoFrames env prompt numFrames).
Proof.
  unfold Part000.generateVideoFrames.
  apply respects_try_catch; [| intros e; acquisition_auto].
  destruct (negb (Js.truthy (STABILITY_API_KEY env)));
    [apply respects_throw | apply Part000_frames_loop_acquires].
Qed.

Lemma acquires_on_progress events : respects P V obs (Part000.on_progress events).
Proof. induction events as [|e events IH]; simpl; acquisition_auto. Qed.

Lemma Part000_generateMusicFromPrompt_acquires prompt duration :
  respects P V obs (Part000.generateMusicFromPrompt env prompt duration).
Proof. unfold Part000.generateMusicFromPrompt. acquisition_auto. Qed.

End AcquisitionCalls.

Lemma keeps_files_observer : acquisition_observer keeps_files blind.
Proof.
  split; [| reflexivity]. intros c. destruct c; simpl; tauto.
Qed.

(** ** Runs that throw *)

Lemma on_throw_throw {A} P V e : on_throw P V (@throw A e).
Proof. intros w e' _. apply extends_refl. Qed.

Lemma on_throw_respects {A} P V (m : M A) :
  respects P V blind m -> on_throw P V m.
Proof. intros H w e _. apply H. Qed.

Lemma on_throw_bind {A B} P V (m : M A) (k : A -> M B) :
  respects P V blind m -> (forall a, on_throw P V (k a)) ->
  on_throw P V (bind m k).
Proof.
  intros Hm Hk w e. pose proof (Hm w) as H. unfold bind.
  destruct (m w) as [[a|e1] w1]; cbn [fst snd] in *; intros E.
  - eapply extends_trans; [exact H | apply (Hk a w1 e E)].
  - exact H.
Qed.

Lemma unlink_all_run ps w :
  exists w', unlink_all ps w = (Ok tt, w')
             /\ trace w' = (trace w ++ map CUnlink ps)%list
             /\ videos w' = videos w.
Proof.
  revert w. induction ps as [|p ps IH]; intros w.
  - exists w. cbn. rewrite app_nil_r. auto.
  - destruct (IH (log (CUnlink p) w)) as [w' [E [T Vd]]].
    exists w'. split; [| split].
    + cbn [unlink_all]. unfold bind, unlink, call. exact E.
    + rewrite T. cbn [log trace map]. rewrite <- app_assoc. reflexivity.
    + rewrite Vd. reflexivity.
Qed.

Lemma no_record_added P w w' :
  extends P no_video blind w w' -> videos w' = videos w.
Proof.
  intros [_ [[l [E F]] _]]. destruct l as [|v l].
  - rewrite E. apply app_nil_r.
  - inversion F as [|? ? Hv _]. destruct Hv.
Qed.

Lemma Index_createVideo_keeps env frames audioPath duration :
  respects keeps_files no_video blind
           (Index.createVideo env frames audioPath duration).
Proof. unfold Index.createVideo. respects_auto. Qed.

Lemma Index_createVideo_run env frames audioPath duration w videoPath w' :
  Index.createVideo env frames audioPath duration w = (Ok videoPath, w') ->
  let command := Index.videoCommand frames audioPath duration videoPath in
  trace w' = (trace w ++ [CFfmpeg command; CStat videoPath])%list
  /\ videos w' = videos w.
Proof.
  unfold Index.createVideo, bind, clock, call, try_catch, ret, throw.
  cbn [fst snd].
  destruct (outcome (ffmpeg env _ _)); [| discriminate].
  match goal with |- context [fs_stat env ?t ?p] => destruct (fs_stat env t p) as [size|e] end;
    [| discriminate].
  destruct (0 <? size); [| discriminate].
  intros H. injection H as <- <-. cbn [log trace videos].
  rewrite <- app_assoc. split; reflexivity.
Qed.

(** The removal of the files never throws: what follows it runs, after one
    call per file. *)
Lemma cleanup_run frames audioPath w :
  exists w1,
    (forall A (m : M A), (unlink_all frames ;; unlink audioPath ;; m)%js w = m w1)
    /\ trace w1 = (trace w ++ map CUnlink (frames ++ [audioPath]))%list
    /\ videos w1 = videos w
    /\ generationProgress w1 = generationProgress w.
Proof.
  assert (H : forall ps w0, exists w', unlink_all ps w0 = (Ok tt, w')
                                       /\ generationProgress w' = generationProgress w0).
  { induction ps as [|p ps IH]; intros w0.
    - exists w0. split; reflexivity.
    - destruct (IH (log (CUnlink p) w0)) as [w' [E G]].
      exists w'. split; [| exact G].
      cbn [unlink_all]. unfold bind, unlink, call. exact E. }
  destruct (unlink_all_run frames w) as [w1 [E [T Vd]]].
  destruct (H frames w) as [w1' [E' G]].
  rewrite E in E'. injection E' as <-.
  exists (log (CUnlink audioPath) w1). split; [| split; [| split]].
  - intros A m. unfold bind at 1. rewrite E. reflexivity.
  - cbn [log trace]. rewrite T, map_app, <- app_assoc. reflexivity.
  - exact Vd.
  - exact G.
Qed.

Lemma save_then_cleanup_on_throw {A} env v frames audioPath (m : M A) :
  (forall w e, fst (m w) <> Throw e) ->
  on_throw keeps_files no_video
           (save env v ;; unlink_all frames ;; unlink audioPath ;; m)%js.
Proof.
  intros Hm w e.
  destruct ((save env v ;; unlink_all frames ;; unlink audioPath ;; m)%js w)
    as [res w'] eqn:Hrun.
  cbn [fst snd]. intros ->.
  unfold bind at 1 in Hrun. unfold save in Hrun.
  destruct (db_save env (List.length (trace w)) v) as [[]|e1].
  - destruct (cleanup_run frames audioPath (insert v (log (CSave v) w)))
      as [w1 [E _]].
    rewrite E in Hrun. destruct (Hm w1 e). rewrite Hrun. reflexivity.
  - injection Hrun as _ <-. apply extends_log. exact I.
Qed.

(** A pipeline of index.js that throws has saved no record and removed no
    file. *)
Lemma Index_pipeline_failure env prompt durationNum :
  on_throw keeps_files no_video (Index.pipeline env prompt durationNum).
Proof.
  unfold Index.pipeline.
  apply on_throw_bind;
    [apply Index_generateVideoFrames_acquires, keeps_files_observer | intros frames].
  destruct (List.length frames =? 0)%nat; [apply on_throw_throw |].
  apply on_throw_bind;
    [apply Index_getAudioFromFreesound_acquires, keeps_files_observer | intros audio].
  destruct audio as [audioPath|]; [| apply on_throw_throw].
  apply on_throw_bind; [apply Index_createVideo_keeps | intros videoPath].
  apply on_throw_bind; [apply respects_call; exact I | intros size].
  destruct (size =? 0); [apply on_throw_throw |].
  apply on_throw_bind; [apply respects_clock | intros t].
  apply save_then_cleanup_on_throw. intros w e. discriminate.
Qed.

(** A pipeline of index.js that returns has saved the record it returns,
    after the encoder ran, and has then removed every input of the
    encoder. *)
Lemma Index_pipeline_success env p durationNum w r w' :
  Index.pipeline env p durationNum w = (Ok r, w') ->
  exists video before command,
    r = RespVideo video ("http://localhost:5000" ++ videoUrl video)
    /\ prompt video = p
    /\ duration video = durationNum
    /\ videoUrl video = "/videos/" ++ base (output command)
    /\ videos w' = (videos w ++ [video])%list
    /\ trace w' = (before ++ map CUnlink (map fst (inputs command)))%list
    /\ In (CFfmpeg command) before.
Proof.
  unfold Index.pipeline. intros H.
  apply bind_Ok_inv in H. destruct H as [frames [w1 [H1 H]]].
  destruct (List.length frames =? 0)%nat; [discriminate |].
  apply bind_Ok_inv in H. destruct H as [audio [w2 [H2 H]]].
  destruct audio as [audioPath|]; [| discriminate].
  apply bind_Ok_inv in H. destruct H as [videoPath [w3 [H3 H]]].
  apply bind_Ok_inv in H. destruct H as [size [w4 [H4 H]]].
  destruct (size =? 0); [discriminate |].
  apply bind_Ok_inv in H. destruct H as [t [w5 [H5 H]]].
  apply bind_Ok_inv in H. destruct H as [[] [w6 [H6 H]]].
  pose proof (Index_generateVideoFrames_acquires keeps_files no_video blind
                keeps_files_observer env p (frameCount durationNum) w) as R1.
  rewrite H1 in R1. apply no_record_added in R1. cbn [snd] in R1.
  pose proof (Index_getAudioFromFreesound_acquires keeps_files no_video blind
                keeps_files_observer env p durationNum w1) as R2.
  rewrite H2 in R2. apply no_record_added in R2. cbn [snd] in R2.
  apply Index_createVideo_run in H3. destruct H3 as [T3 V3].
  unfold call in H4. injection H4 as _ <-.
  unfold clock in H5. injection H5 as <- <-.
  unfold save in H6.
  match type of H6 with
  | context [CSave ?v] => set (video := v) in *
  end.
  destruct (db_save env _ video) as [[]|e]; [| discriminate].
  injection H6 as <-.
  destruct (cleanup_run frames audioPath
              (insert video (log (CSave video) (log (CStat videoPath) w3))))
    as [w7 [E [T [Vd _]]]].
  rewrite E in H. injection H as <- <-.
  exists video, (trace (insert video (log (CSave video) (log (CStat videoPath) w3)))),
    (Index.videoCommand frames (Some audioPath) durationNum videoPath).
  repeat split.
  - rewrite Vd. cbn [insert log videos]. rewrite V3, R2, R1. reflexivity.
  - rewrite T. cbn [Index.videoCommand inputs]. do 2 f_equal.
    rewrite map_app, map_map. cbn [map fst]. rewrite map_id. reflexivity.
  - cbn [insert log trace]. rewrite T3.
    apply in_or_app. left. apply in_or_app. left.
    apply in_or_app. right. left. reflexivity.
Qed.

(** X8.  The route of index.js never throws, and it saves and cleans up
    together or not at all.  An answer with a video means that the record
    of that video, with the prompt and the duration of the request and the
    URL of the output of the encoder, was appended to the collection, and
    that the last calls of the run remove every input of the encoder
    command, frames and audio.  An answer with an error (400 or 500) means
    that no record was saved and that no file was removed: the frames and
    the audio written before the failure stay in the temporary
    directory. *)
Theorem index_route_saves_and_cleans_or_neither (env : Env) (body : Body)
  (w : World) :
  let run := Index.generate_video env body w in
  match fst run with
  | Ok (RespVideo video fullUrl) =>
      videos (snd run) = (videos w ++ [video])%list
      /\ fullUrl = "http://localhost:5000" ++ videoUrl video
      /\ body_prompt body = Some (prompt video)
      /\ body_duration body = Js.Num (duration video)
      /\ exists before command,
           trace (snd run)
           = (before ++ map CUnlink (map fst (inputs command)))%list
           /\ In (CFfmpeg command) before
           /\ videoUrl video = "/videos/" ++ base (output command)
  | Ok (RespError code _) =>
      (code = 400 \/ code = 500)
      /\ videos (snd run) = videos w
      /\ exists calls,
           trace (snd run) = (trace w ++ calls)%list /\ Forall keeps_files calls
  | Ok (RespUrl _) => False
  | Throw _ => False
  end.
Proof.
  intros run. subst run.
  destruct (Index.generate_video env body w) as [res w'] eqn:Hrun.
  cbn [fst snd].
  unfold Index.generate_video, try_catch in Hrun.
  destruct (invalid body) eqn:Hinv.
  - unfold ret in Hrun. injection Hrun as <- <-.
    split; [left; reflexivity |]. split; [reflexivity |].
    exists []. rewrite app_nil_r. split; [reflexivity | constructor].
  - destruct (invalid_false body Hinv) as [p [d [Ep Ed]]].
    rewrite Ep, Ed in Hrun.
    destruct (Index.pipeline env p d w) as [[r|e] w1] eqn:Hp.
    + injection Hrun as <- <-.
      apply Index_pipeline_success in Hp.
      destruct Hp as [video [before [command [-> [Hpr [Hd [Hu [Hv [Ht Hin]]]]]]]]].
      split; [exact Hv |]. split; [reflexivity |].
      split; [rewrite Hpr; exact Ep |]. split; [rewrite Hd; exact Ed |].
      exists before, command. auto.
    + unfold ret in Hrun. injection Hrun as <- <-.
      pose proof (Index_pipeline_failure env p d w e) as H.
      rewrite Hp in H. specialize (H eq_refl). cbn [snd] in H.
      split; [right; reflexivity |].
      split; [exact (no_record_added _ _ _ H) |].
      exact (proj1 H).
Qed.

(** ** The route of part_000 *)

Lemma on_progress_run events w :
  exists w', Part000.on_progress events w = (Ok tt, w')
             /\ trace w' = trace w /\ videos w' = videos w.
Proof.
  revert w. induction events as [|p events IH]; intros w.
  - exists w. auto.
  - cbn [Part000.on_progress]. unfold bind at 1 2.
    unfold set_status at 1, set_progress at 1, assign. cbn [fst snd].
    match goal with
    | |- context [Part000.on_progress events ?w0] =>
        destruct (IH w0) as [w' [E [T Vd]]]
    end.
    exists w'. split; [exact E | split; [rewrite T | rewrite Vd]; reflexivity].
Qed.

Lemma Part000_createVideo_keeps env frames audioPath duration :
  respects keeps_files no_video blind
           (Part000.createVideo env frames audioPath duration).
Proof.
  unfold Part000.createVideo.
  apply respects_bind; [apply respects_clock | intros t]. cbv zeta.
  apply respects_bind; [apply respects_call; exact I | intros run].
  apply respects_bind;
    [apply acquires_on_progress, keeps_files_observer | intros _].
  respects_auto.
Qed.

Lemma Part000_createVideo_run env frames audioPath duration w videoPath w' :
  Part000.createVideo env frames audioPath duration w = (Ok videoPath, w') ->
  trace w' = (trace w ++ [CFfmpeg (Part000.videoCommand frames audioPath videoPath)])%list
  /\ videos w' = videos w.
Proof.
  unfold Part000.createVideo. unfold bind at 1 2. unfold clock, call.
  cbn [fst snd]. intros H.
  apply bind_Ok_inv in H. destruct H as [[] [w1 [H1 H]]].
  destruct (on_progress_run
              (percents (ffmpeg env (List.length (trace w))
                 (Part000.videoCommand frames audioPath
                    {| dir := "videos";
                       base := "video_" ++ Js.String_of_Z
                                 (Date_now env (List.length (trace w))) ++ ".mp4" |})))
              (log (CFfmpeg (Part000.videoCommand frames audioPath
                    {| dir := "videos";
                       base := "video_" ++ Js.String_of_Z
                                 (Date_now env (List.length (trace w))) ++ ".mp4" |})) w))
    as [w2 [E [T Vd]]].
  rewrite E in H1. injection H1 as <-.
  destruct (outcome _); [| discriminate].
  unfold ret in H. injection H as <- <-.
  rewrite T, Vd. split; reflexivity.
Qed.

Ltac on_throw_assign :=
  apply on_throw_bind; [apply respects_assign; reflexivity | intros _].

(** A pipeline of part_000 that throws has saved no record and removed no
    file. *)
Lemma Part000_pipeline_failure env prompt durationNum :
  on_throw keeps_files no_video (Part000.pipeline env prompt durationNum).
Proof.
  unfold Part000.pipeline.
  do 2 on_throw_assign.
  apply on_throw_bind;
    [apply Part000_generateVideoFrames_acquires, keeps_files_observer | intros frames].
  do 2 on_throw_assign.
  apply on_throw_bind;
    [apply Part000_generateMusicFromPrompt_acquires, keeps_files_observer
    | intros audioPath].
  do 2 on_throw_assign.
  apply on_throw_bind; [apply Part000_createVideo_keeps | intros videoPath].
  do 2 on_throw_assign.
  cbv zeta.
  apply on_throw_bind; [apply respects_clock | intros t].
  apply save_then_cleanup_on_throw. intros w e. discriminate.
Qed.

(** A pipeline of part_000 that returns has saved one record, with the URL
    it returns, after the encoder ran, and has then removed every input of
    the encoder. *)
Lemma Part000_pipeline_success env p durationNum w r w' :
  Part000.pipeline env p durationNum w = (Ok r, w') ->
  exists video before command,
    r = RespUrl (videoUrl video)
    /\ prompt video = p
    /\ duration video = durationNum
    /\ hasAudio video = true
    /\ videoUrl video = "/videos/" ++ base (output command)
    /\ videos w' = (videos w ++ [video])%list
    /\ trace w' = (before ++ map CUnlink (map fst (inputs command)))%list
    /\ In (CFfmpeg command) before.
Proof.
  unfold Part000.pipeline. intros H.
  apply bind_Ok_inv in H. destruct H as [[] [wa [Ha H]]].
  apply bind_Ok_inv in H. destruct H as [[] [wb [Hb H]]].
  apply bind_Ok_inv in H. destruct H as [frames [w1 [H1 H]]].
  apply bind_Ok_inv in H. destruct H as [[] [wc [Hc H]]].
  apply bind_Ok_inv in H. destruct H as [[] [wd [Hd H]]].
  apply bind_Ok_inv in H. destruct H as [audioPath [w2 [H2 H]]].
  apply bind_Ok_inv in H. destruct H as [[] [we [He H]]].
  apply bind_Ok_inv in H. destruct H as [[] [wf [Hf H]]].
  apply bind_Ok_inv in H. destruct H as [videoPath [w3 [H3 H]]].
  apply bind_Ok_inv in H. destruct H as [[] [wg [Hg H]]].
  apply bind_Ok_inv in H. destruct H as [[] [wh [Hh H]]].
  cbv zeta in H.
  apply bind_Ok_inv in H. destruct H as [t [w5 [H5 H]]].
  apply bind_Ok_inv in H. destruct H as [[] [w6 [H6 H]]].
  pose proof (Part000_generateVideoFrames_acquires keeps_files no_video blind
                keeps_files_observer env p (frameCount durationNum) wb) as R1.
  rewrite H1 in R1. apply no_record_added in R1. cbn [snd] in R1.
  pose proof (Part000_generateMusicFromPrompt_acquires keeps_files no_video blind
                keeps_files_observer env p durationNum wd) as R2.
  rewrite H2 in R2. apply no_record_added in R2. cbn [snd] in R2.
  apply Part000_createVideo_run in H3. destruct H3 as [T3 V3].
  unfold set_status, set_progress, assign in Ha, Hb, Hc, Hd, He, Hf, Hg, Hh.
  injection Ha as <-. injection Hb as <-. injection Hc as <-.
  injection Hd as <-. injection He as <-. injection Hf as <-.
  injection Hg as <-. injection Hh as <-.
  unfold clock in H5. injection H5 as <- <-.
  unfold save in H6.
  match type of H6 with
  | context [CSave ?v] => set (video := v) in *
  end.
  destruct (db_save env _ video) as [[]|e]; [| discriminate].
  injection H6 as <-.
  match type of H with
  | context [insert video ?w0] =>
      destruct (cleanup_run frames audioPath (insert video w0))
        as [w7 [E [T [Vd _]]]]
  end.
  rewrite E in H. unfold bind, assign, ret in H. cbn [fst snd] in H.
  injection H as <- <-.
  match type of T with
  | _ = (?b ++ _)%list =>
      exists video, b, (Part000.videoCommand frames audioPath videoPath)
  end.
  repeat split.
  - cbn [videos]. rewrite Vd. cbn [insert log videos] in *.
    rewrite V3, R2, R1. reflexivity.
  - cbn [trace]. rewrite T. cbn [Part000.videoCommand inputs]. do 2 f_equal.
    rewrite map_app, map_map. cbn [map fst]. rewrite map_id. reflexivity.
  - cbn [insert log trace] in *. rewrite T3.
    apply in_or_app. left. apply in_or_app. right. left. reflexivity.
Qed.

(** X9.  The route of part_000 never throws and answers with a URL or with
    an error 500, never with 400.  An answer with a URL means that the
    progress object is complete with that URL, that one record with that
    URL and the prompt and duration of the request was appended to the
    collection, and that the last calls of the run remove every input of
    the encoder command.  An answer with an error means that the progress
    object is at -1 with the message of the answer, that no record was
    saved and that no file was removed; the [videoUrl] of the progress
    object is then empty after a valid request, and what it was before an
    invalid one. *)
Theorem part000_route_saves_and_cleans_or_neither (env : Env) (body : Body)
  (w : World) :
  let run := Part000.generate_video env body w in
  match fst run with
  | Ok (RespUrl url) =>
      generationProgress (snd run) = completeProgress url
      /\ exists video before command,
           videos (snd run) = (videos w ++ [video])%list
           /\ videoUrl video = url
           /\ body_prompt body = Some (prompt video)
           /\ body_duration body = Js.Num (duration video)
           /\ hasAudio video = true
           /\ trace (snd run)
              = (before ++ map CUnlink (map fst (inputs command)))%list
           /\ In (CFfmpeg command) before
           /\ url = "/videos/" ++ base (output command)
  | Ok (RespError code message) =>
      code = 500
      /\ generationProgress (snd run)
         = failedProgress
             (if invalid body then progress_videoUrl (generationProgress w)
              else None)
             message
      /\ videos (snd run) = videos w
      /\ exists calls,
           trace (snd run) = (trace w ++ calls)%list /\ Forall keeps_files calls
  | Ok (RespVideo _ _) => False
  | Throw _ => False
  end.
Proof.
  intros run. subst run.
  pose proof (Part000_terminal_states env body w) as Hterm.
  destruct (Part000.generate_video env body w) as [res w'] eqn:Hrun.
  cbn [fst snd] in *.
  unfold Part000.generate_video, try_catch in Hrun.
  destruct (invalid body) eqn:Hinv.
  - unfold throw, bind, set_error, set_status, set_progress, assign, ret in Hrun.
    cbn [fst snd] in Hrun. injection Hrun as <- <-.
    split; [reflexivity |]. split; [reflexivity |]. split; [reflexivity |].
    exists []. cbn [trace]. rewrite app_nil_r. split; [reflexivity | constructor].
  - specialize (Hterm eq_refl).
    destruct (invalid_false body Hinv) as [p [d [Ep Ed]]].
    rewrite Ep, Ed in Hrun.
    destruct (Part000.pipeline env p d w) as [[r|e] w1] eqn:Hp.
    + injection Hrun as <- <-.
      apply Part000_pipeline_success in Hp.
      destruct Hp as [video [before [command [-> [Hpr [Hd [Ha [Hu [Hv [Ht Hin]]]]]]]]]].
      split.
      * destruct Hterm as [[url [E G]]|[e [E _]]]; [| discriminate].
        injection E as <-. exact G.
      * exists video, before, command.
        split; [exact Hv |]. split; [reflexivity |].
        split; [rewrite Hpr; exact Ep |]. split; [rewrite Hd; exact Ed |]. auto.
    + pose proof (Part000_pipeline_failure env p d w e) as H.
      rewrite Hp in H. specialize (H eq_refl). cbn [snd] in H.
      unfold bind, set_error, set_status, set_progress, assign, ret in Hrun.
      cbn [fst snd] in Hrun. injection Hrun as <- <-.
      split; [reflexivity |]. split.
      * destruct Hterm as [[url [E _]]|[e' [E G]]]; [discriminate |].
        injection E as <-. exact G.
      * split; [exact (no_record_added _ _ _ H) |]. exact (proj1 H).
Qed.

(** ** The keywords of [getAudioFromFreesound] *)

Lemma long_word_is_no_short_stop_word (word : string) :
  (3 <? Z.of_nat (String.length word)) = true ->
  Js.includes ["with"; "and"; "the"; "for"] word = String.eqb word "with".
Proof.
  intros H. unfold Js.includes. cbn [existsb].
  destruct word as [|a [|b [|c [|d word]]]]; try discriminate H.
  cbn [String.eqb].
  destruct (Ascii.eqb a "w"), (Ascii.eqb a "a"), (Ascii.eqb a "t"), (Ascii.eqb a "f"),
    (Ascii.eqb b "i"), (Ascii.eqb b "n"), (Ascii.eqb b "h"), (Ascii.eqb b "o"),
    (Ascii.eqb c "t"), (Ascii.eqb c "d"), (Ascii.eqb c "e"), (Ascii.eqb c "r");
    cbn [orb]; rewrite ?orb_false_r; reflexivity.
Qed.

(** X10.  The keywords that [getAudioFromFreesound] computes inline: of its
    four stop words only "with" has an effect, since the three others are
    too short to pass the length filter before it; and every keyword has
    more than three characters, is in lower case, is not "with", and
    contains no white space and none of the characters [. , ! ?]. *)
Theorem inline_keywords_drop_only_with (prompt : string) :
  inlineKeywords prompt
  = filter (fun word => negb (String.eqb word "with"))
      (filter (fun word => 3 <? Z.of_nat (String.length word))
         (Js.split is_space_or_punct (Js.toLowerCase prompt)))
  /\ Forall (fun keyword =>
               3 < Z.of_nat (String.length keyword)
               /\ keyword <> "with"
               /\ all_chars (fun c => negb (Js.is_upper c)
                                      && negb (is_space_or_punct c)) keyword = true)
            (inlineKeywords prompt).
Proof.
  assert (E : inlineKeywords prompt
              = filter (fun word => negb (String.eqb word "with"))
                  (filter (fun word => 3 <? Z.of_nat (String.length word))
                     (Js.split is_space_or_punct (Js.toLowerCase prompt)))).
  { unfold inlineKeywords. apply filter_ext_in. intros word Hin.
    apply filter_In in Hin. destruct Hin as [_ Hlen].
    rewrite (long_word_is_no_short_stop_word word Hlen). reflexivity. }
  split; [exact E |].
  rewrite E. apply Forall_forall. intros keyword Hin.
  apply filter_In in Hin. destruct Hin as [Hin Hwith].
  apply filter_In in Hin. destruct Hin as [Hin Hlen].
  split; [apply Z.ltb_lt; exact Hlen |]. split.
  - intros ->. discriminate Hwith.
  - pose proof (split_go_pieces is_space_or_punct (fun c => negb (Js.is_upper c))
                  (Js.toLowerCase prompt) EmptyString false eq_refl
                  (toLowerCase_no_upper prompt)) as H.
    rewrite Forall_forall in H. exact (H keyword Hin).
Qed.

(** ** The progress of the frame stage of part_000 *)

Lemma Math_round_le (x y : Q) : (x <= y)%Q -> Js.Math_round x <= Js.Math_round y.
Proof.
  intros H. unfold Js.Math_round. apply Qfloor_resp_le.
  apply Qplus_le_compat; [exact H | apply Qle_refl].
Qed.

Lemma frameProgress_le (i j n : Z) :
  0 < n -> i <= j -> frameProgress i n <= frameProgress j n.
Proof.
  intros Hn Hij. unfold frameProgress. apply Math_round_le.
  apply Qmult_le_compat_r; [| discriminate].
  unfold Qdiv. apply Qmult_le_compat_r.
  - rewrite <- Zle_Qle. exact Hij.
  - apply Qinv_le_0_compat. change 0%Q with (inject_Z 0). rewrite <- Zle_Qle. lia.
Qed.

Lemma frameProgress_zero (n : Z) : 0 < n -> frameProgress 0 n = 0.
Proof.
  intros Hn. unfold frameProgress, Js.Math_round.
  assert (E : (inject_Z 0 / inject_Z n * 40 + (1 # 2) == 1 # 2)%Q).
  { unfold Qdiv. change (inject_Z 0) with 0%Q. rewrite Qmult_0_l, Qmult_0_l.
    reflexivity. }
  rewrite (Qfloor_comp _ _ E). reflexivity.
Qed.

Lemma frameProgress_all (n : Z) : 0 < n -> frameProgress n n = 40.
Proof.
  intros Hn. unfold frameProgress, Js.Math_round.
  assert (E : (inject_Z n / inject_Z n * 40 + (1 # 2) == 81 # 2)%Q).
  { assert (Hnz : ~ (inject_Z n == 0)%Q).
    { intros H. unfold Qeq in H. simpl in H. lia. }
    field. exact Hnz. }
  rewrite (Qfloor_comp _ _ E). reflexivity.
Qed.

Lemma last_cons {A} (x a : A) l : last (x :: l) a = last l x.
Proof.
  revert x a. induction l as [|y l IH]; intros x a; [reflexivity |].
  change (last (x :: y :: l) a) with (last (y :: l) a).
  rewrite (IH y a), (IH y x). reflexivity.
Qed.

Lemma ascending_app a l1 l2 :
  ascending a l1 -> ascending (last l1 a) l2 -> ascending a (l1 ++ l2).
Proof.
  revert a. induction l1 as [|x l1 IH]; intros a H1 H2.
  - exact H2.
  - destruct H1 as [Hx H1]. split; [exact Hx |].
    apply IH; [exact H1 |]. rewrite <- (last_cons x a). exact H2.
Qed.

Lemma ascending_bound a l m :
  ascending a l -> last l a <= m -> a <= m /\ Forall (fun x => x <= m) l.
Proof.
  revert a. induction l as [|x l IH]; intros a H Hm.
  - split; [exact Hm | constructor].
  - destruct H as [Hx H]. rewrite last_cons in Hm.
    destruct (IH x H Hm) as [Hxm Hall].
    split; [lia | constructor; assumption].
Qed.

(** The loop of part_000 from frame [i]: each frame reports its status and
    then its percent; a frame that fails reports nothing. *)
Lemma Part000_frames_loop_progress env prompt n remaining :
  0 < n ->
  forall i frames w res w',
    i + Z.of_nat remaining = n + 1 -> 1 <= i ->
    Part000.frames_loop env prompt n remaining i frames w = (res, w') ->
    exists l,
      reported w' = (reported w ++ l)%list
      /\ (progress (generationProgress w) <= frameProgress (i - 1) n ->
          ascending (progress (generationProgress w)) (map progress l)
          /\ progress (generationProgress w') <= 40)
      /\ progress (generationProgress w')
         = last (map progress l) (progress (generationProgress w))
      /\ error (generationProgress w') = error (generationProgress w)
      /\ (forall frames', res = Ok frames' -> (0 < remaining)%nat ->
          progress (generationProgress w') = 40
          /\ status (generationProgress w')
             = "Generated frame " ++ Js.String_of_Z n ++ "/" ++ Js.String_of_Z n).
Proof.
  intros Hn. induction remaining as [|k IH]; intros i frames w res w' Hi H1 Hrun.
  - cbn in Hrun. injection Hrun as <- <-. exists [].
    rewrite app_nil_r. cbn [map last ascending].
    pose proof (frameProgress_le (i - 1) n n Hn ltac:(lia)) as H.
    rewrite (frameProgress_all n Hn) in H.
    repeat split; try reflexivity; lia.
  - cbn [Part000.frames_loop] in Hrun. cbv zeta in Hrun.
    unfold bind at 1 in Hrun.
    match type of Hrun with
    | context [try_catch ?m ?h w] =>
        destruct (try_catch m h w) as [[frames1|e] w1] eqn:Hit
    end.
    + assert (Hw1 : reported w1
                    = (reported w
                       ++ [ {| progress := progress (generationProgress w);
                               status := "Generated frame " ++ Js.String_of_Z i ++ "/"
                                                            ++ Js.String_of_Z n;
                               progress_videoUrl := progress_videoUrl (generationProgress w);
                               error := error (generationProgress w) |};
                            {| progress := frameProgress i n;
                               status := "Generated frame " ++ Js.String_of_Z i ++ "/"
                                                            ++ Js.String_of_Z n;
                               progress_videoUrl := progress_videoUrl (generationProgress w);
                               error := error (generationProgress w) |} ])%list
                    /\ generationProgress w1
                       = {| progress := frameProgress i n;
                            status := "Generated frame " ++ Js.String_of_Z i ++ "/"
                                                         ++ Js.String_of_Z n;
                            progress_videoUrl := progress_videoUrl (generationProgress w);
                            error := error (generationProgress w) |}).
      { unfold writeFile, try_catch, bind, call, clock, set_status, set_progress,
          assign, ret, throw in Hit. cbn [fst snd] in Hit.
        destruct (stability env _ _) as [resp|e0]; [| discriminate Hit].
        destruct (artifact_base64 resp) as [[|c s]|]; try discriminate Hit.
        cbn [fst snd log trace] in Hit.
        match type of Hit with
        | context [fs_writeFile env ?t ?p] =>
            destruct (fs_writeFile env t p) as [[]|e1]; [| discriminate Hit]
        end.
        injection Hit as _ <-. cbn. rewrite <- app_assoc. split; reflexivity. }
      destruct Hw1 as [Hrep Hgp].
      assert (Hstep : frameProgress (i - 1) n <= frameProgress i n)
        by (apply frameProgress_le; lia).
      destruct k as [|k'].
      * cbn in Hrun. injection Hrun as <- <-.
        eexists. split; [exact Hrep |].
        assert (Ei : i = n) by lia.
        rewrite Hgp. cbn [map progress last ascending status error].
        rewrite Ei in *. rewrite (frameProgress_all n Hn) in *.
        repeat split; try reflexivity; lia.
      * destruct (IH (i + 1) frames1 w1 res w' ltac:(lia) ltac:(lia) Hrun)
          as [l [Hl [Hasc [Hlast [Herr Hfin]]]]].
        eexists. split; [rewrite Hl, Hrep, <- app_assoc; reflexivity |].
        rewrite Hgp in Hasc, Hlast, Herr. cbn [progress error] in Hasc, Hlast, Herr.
        replace (i + 1 - 1) with i in Hasc by lia.
        split; [| split; [| split]].
        -- intros Hinv. destruct (Hasc (Z.le_refl _)) as [Ha Hle].
           split; [| exact Hle].
           rewrite map_app. cbn [map progress app ascending].
           repeat split; try lia. exact Ha.
        -- rewrite Hlast, map_app. cbn [map progress app].
           rewrite !last_cons. reflexivity.
        -- exact Herr.
        -- intros frames' E _. apply (Hfin frames' E). lia.
    + injection Hrun as <- <-.
      assert (Hw1 : reported w1 = reported w /\ generationProgress w1 = generationProgress w).
      { unfold writeFile, try_catch, bind, call, clock, set_status, set_progress,
          assign, ret, throw in Hit. cbn [fst snd] in Hit.
        destruct (stability env _ _) as [resp|e0].
        - destruct (artifact_base64 resp) as [[|c s]|];
            try (injection Hit as _ <-; split; reflexivity).
          cbn [fst snd log trace] in Hit.
          match type of Hit with
          | context [fs_writeFile env ?t ?p] =>
              destruct (fs_writeFile env t p) as [[]|e1]; [discriminate Hit |]
          end.
          injection Hit as _ <-. split; reflexivity.
        - injection Hit as _ <-. split; reflexivity. }
      destruct Hw1 as [Hrep Hgp]. exists [].
      rewrite app_nil_r, Hgp. cbn [map last ascending].
      pose proof (frameProgress_le (i - 1) n n Hn ltac:(lia)) as H.
      rewrite (frameProgress_all n Hn) in H.
      repeat split; try assumption; try reflexivity; try discriminate; lia.
Qed.

(** X11.  The frame stage of part_000.  Without an API key it throws before
    any call.  When it throws, the message is in the [error] of the progress
    object; when it returns, that field is untouched and, for a positive
    number of frames, the progress object is at 40 percent with the status
    of the last frame.  Started at 0 percent or below, the percents it
    reports never decrease and never exceed 40. *)
Theorem part000_frame_stage_progress (env : Env) (prompt : string) (n : Z)
  (w : World) :
  let run := Part000.generateVideoFrames env prompt n w in
  (Js.truthy (STABILITY_API_KEY env) = false ->
   fst run = Throw "Missing Stability API key" /\ trace (snd run) = trace w)
  /\ (forall e, fst run = Throw e ->
                error (generationProgress (snd run)) = Some e)
  /\ (forall frames,
         fst run = Ok frames ->
         error (generationProgress (snd run)) = error (generationProgress w)
         /\ (0 < n ->
             progress (generationProgress (snd run)) = 40
             /\ status (generationProgress (snd run))
                = "Generated frame " ++ Js.String_of_Z n ++ "/" ++ Js.String_of_Z n))
  /\ (progress (generationProgress w) <= 0 ->
      exists l,
        reported (snd run) = (reported w ++ l)%list
        /\ ascending (progress (generationProgress w)) (map progress l)
        /\ Forall (fun x => x <= 40) (map progress l)).
Proof.
  intros run. subst run.
  destruct (Part000.generateVideoFrames env prompt n w) as [res w'] eqn:Hrun.
  cbn [fst snd].
  unfold Part000.generateVideoFrames, try_catch in Hrun.
  destruct (Js.truthy (STABILITY_API_KEY env)) eqn:Hkey; cbn [negb] in Hrun.
  - destruct (Part000.frames_loop env prompt n (Z.to_nat n) 1 [] w)
      as [r1 w1] eqn:Hloop.
    destruct (Z_lt_le_dec 0 n) as [Hn|Hn].
    + destruct (Part000_frames_loop_progress env prompt n (Z.to_nat n) Hn 1 [] w r1 w1
                  ltac:(lia) ltac:(lia) Hloop)
        as [l [Hl [Hasc [Hlast [Herr Hfin]]]]].
      change (1 - 1) with 0 in Hasc. rewrite (frameProgress_zero n Hn) in Hasc.
      destruct r1 as [frames|e].
      * injection Hrun as <- <-.
        split; [discriminate |]. split; [discriminate |]. split.
        -- intros frames' _. split; [exact Herr |]. intros _.
           apply (Hfin frames eq_refl). lia.
        -- intros H0. destruct (Hasc H0) as [Ha Hle]. exists l.
           split; [exact Hl |]. split; [exact Ha |].
           rewrite Hlast in Hle. exact (proj2 (ascending_bound _ _ _ Ha Hle)).
      * unfold bind, set_error, assign, throw in Hrun. cbn [fst snd] in Hrun.
        injection Hrun as <- <-. cbn [generationProgress reported error progress].
        split; [discriminate |].
        split; [intros e' E; injection E as <-; reflexivity |].
        split; [discriminate |].
        intros H0. destruct (Hasc H0) as [Ha Hle].
        eexists. split; [rewrite Hl, <- app_assoc; reflexivity |].
        rewrite map_app. cbn [map progress].
        assert (Ha' : ascending (progress (generationProgress w))
                        (map progress l ++ [progress (generationProgress w1)])).
        { apply ascending_app; [exact Ha |]. cbn [ascending].
          rewrite Hlast. split; [lia | exact I]. }
        split; [exact Ha' |].
        apply (ascending_bound _ _ _ Ha'). rewrite last_last. exact Hle.
    + replace (Z.to_nat n) with O in Hloop by lia. cbn in Hloop.
      injection Hloop as <- <-. injection Hrun as <- <-.
      split; [discriminate |]. split; [discriminate |]. split.
      * intros frames' _. split; [reflexivity | lia].
      * intros _. exists []. rewrite app_nil_r.
        split; [reflexivity |]. split; [exact I | constructor].
  - unfold bind, set_error, assign, throw in Hrun. cbn [fst snd] in Hrun.
    injection Hrun as <- <-. cbn [generationProgress reported error progress trace].
    split; [intros _; split; reflexivity |].
    split; [intros e' E; injection E as <-; reflexivity |].
    split; [discriminate |].
    intros H0. eexists. split; [reflexivity |].
    cbn [map progress ascending]. split; [split; [lia | exact I] |].
    constructor; [lia | constructor].
Qed.

(** ** The progress of the encoding in part_000 *)




(** ** The inputs of the encoder *)

Lemma acquires_observer : acquisition_observer acquires blind.
Proof. split; [intros c H; exact H | reflexivity]. Qed.

Lemma acquires_not_encoder l : Forall acquires l -> Forall not_encoder l.
Proof.
  apply Forall_impl. intros c H E. destruct c; simpl in *; tauto.
Qed.

(** What a run of a stage before assembly adds to the trace. *)
Lemma acquired {A} (m : M A) w r w' :
  respects acquires no_video blind m -> m w = (r, w') ->
  exists l, trace w' = (trace w ++ l)%list /\ Forall not_encoder l.
Proof.
  intros H E. specialize (H w). rewrite E in H.
  destruct H as [[l [T F]] _]. exists l. split; [exact T |].
  apply acquires_not_encoder. exact F.
Qed.

Lemma Index_frames_loop_written env prompt remaining :
  forall i frames w frames' w',
    Index.frames_loop env prompt remaining i frames w = (Ok frames', w') ->
    exists l,
      trace w' = (trace w ++ l)%list
      /\ forall p, In p frames' -> In p frames \/ In (CWriteFile p) l.
Proof.
  induction remaining as [|k IH]; intros i frames w frames' w' H.
  - cbn in H. injection H as <- <-. exists []. rewrite app_nil_r.
    split; [reflexivity | intros p Hp; left; exact Hp].
  - cbn [Index.frames_loop] in H.
    apply bind_Ok_inv in H. destruct H as [t [w0 [H0 H]]].
    unfold clock in H0. injection H0 as <- <-.
    apply bind_Ok_inv in H. destruct H as [response [w1 [H1 H]]].
    unfold call in H1. injection H1 as _ <-.
    apply bind_Ok_inv in H. destruct H as [frames1 [w2 [H2 H]]].
    destruct (IH _ _ _ _ _ H) as [l [T Hin]].
    destruct (artifact_base64 response) as [[|c s]|].
    + unfold ret in H2. injection H2 as <- <-.
      eexists. split; [rewrite T; cbn [log trace]; rewrite <- app_assoc; reflexivity |].
      intros p Hp. destruct (Hin p Hp) as [Hf|Hl]; [left; exact Hf |].
      right. right. exact Hl.
    + apply bind_Ok_inv in H2. destruct H2 as [[] [w3 [H3 H2]]].
      unfold writeFile, call in H3. injection H3 as _ <-.
      unfold ret in H2. injection H2 as <- <-.
      eexists. split; [rewrite T; cbn [log trace]; rewrite <- !app_assoc; reflexivity |].
      intros p Hp. destruct (Hin p Hp) as [Hf|Hl].
      * apply in_app_or in Hf. destruct Hf as [Hf|[<-|[]]].
        -- left. exact Hf.
        -- right. cbn. right. left. reflexivity.
      * right. cbn. right. right. exact Hl.
    + unfold ret in H2. injection H2 as <- <-.
      eexists. split; [rewrite T; cbn [log trace]; rewrite <- app_assoc; reflexivity |].
      intros p Hp. destruct (Hin p Hp) as [Hf|Hl]; [left; exact Hf |].
      right. right. exact Hl.
Qed.

Lemma Index_generateVideoFrames_written env prompt n w frames w' :
  Index.generateVideoFrames env prompt n w = (Ok frames, w') ->
  exists l,
    trace w' = (trace w ++ l)%list
    /\ forall p, In p frames -> In (CWriteFile p) l.
Proof.
  unfold Index.generateVideoFrames. rewrite try_catch_rethrow. cbv zeta. intros H.
  apply bind_Ok_inv in H. destruct H as [[] [w0 [H0 H]]].
  apply bind_Ok_inv in H. destruct H as [frames1 [w1 [H1 H]]].
  destruct (List.length frames1 =? 0)%nat; [discriminate |].
  unfold ret in H. injection H as <- <-.
  pose proof (acquires_ensureDir acquires no_video blind acquires_observer env "temp" w)
    as Hd.
  rewrite H0 in Hd. destruct Hd as [[l0 [T0 _]] _]. cbn [snd] in T0.
  destruct (Index_frames_loop_written _ _ _ _ _ _ _ _ H1) as [l [T Hin]].
  exists (l0 ++ l)%list. split; [rewrite T, T0, app_assoc; reflexivity |].
  intros p Hp. destruct (Hin p Hp) as [[]|Hl]. apply in_or_app. right. exact Hl.
Qed.

Lemma Index_audio_loop_written env duration qs :
  forall w audioPath w',
    Index.audio_loop env qs duration w = (Ok (Some audioPath), w') ->
    exists l, trace w' = (trace w ++ l)%list /\ In (CWriteFile audioPath) l.
Proof.
  induction qs as [|q qs IH]; intros w audioPath w' H.
  - discriminate H.
  - cbn [Index.audio_loop] in H.
    apply bind_Ok_inv in H. destruct H as [r [w1 [H1 H]]].
    pose proof (acquires_search acquires no_video blind acquires_observer env
                  (Index.freesoundParams q duration) w) as Hs.
    rewrite H1 in Hs. destruct Hs as [[l1 [T1 _]] _]. cbn [snd] in T1.
    destruct (first_result r) as [sound|].
    + apply bind_Ok_inv in H. destruct H as [audio [w2 [H2 H]]].
      pose proof (acquires_downloadPreview acquires no_video blind acquires_observer
                    env sound w1) as Hd.
      rewrite H2 in Hd. destruct Hd as [[l2 [T2 _]] _]. cbn [snd] in T2.
      apply bind_Ok_inv in H. destruct H as [t [w3 [H3 H]]].
      unfold clock in H3. injection H3 as <- <-.
      apply bind_Ok_inv in H. destruct H as [[] [w4 [H4 H]]].
      unfold writeFile, call in H4. injection H4 as _ <-.
      unfold ret in H. injection H as <- <-.
      exists (l1 ++ l2
              ++ [CWriteFile
                    {| dir := "temp";
                       base := "audio_"
                               ++ Js.String_of_Z (Date_now env (List.length (trace w2)))
                               ++ ".mp3" |}])%list.
      split.
      * cbn [log trace]. rewrite !app_assoc, <- T1, <- T2. reflexivity.
      * apply in_or_app. right. apply in_or_app. right. left. reflexivity.
    + destruct (IH _ _ _ H) as [l [T Hin]].
      exists (l1 ++ l)%list. split; [rewrite T, T1, app_assoc; reflexivity |].
      apply in_or_app. right. exact Hin.
Qed.

Lemma Index_getAudioFromFreesound_written env prompt duration w audioPath w' :
  Index.getAudioFromFreesound env prompt duration w = (Ok (Some audioPath), w') ->
  exists l, trace w' = (trace w ++ l)%list /\ In (CWriteFile audioPath) l.
Proof.
  unfold Index.getAudioFromFreesound, try_catch. intros H.
  match type of H with
  | context [bind ?m ?k w] => destruct (bind m k w) as [[found|e] w1] eqn:Hb
  end; [| discriminate H].
  injection H as -> ->.
  apply bind_Ok_inv in Hb. destruct Hb as [found [w1 [H1 H]]].
  destruct found as [p|].
  - unfold ret in H. injection H as <- <-.
    exact (Index_audio_loop_written _ _ _ _ _ _ H1).
  - apply bind_Ok_inv in H. destruct H as [found' [w2 [H2 H]]].
    destruct found' as [p|]; [| discriminate H].
    unfold ret in H. injection H as <- <-.
    pose proof (Index_audio_loop_acquires acquires no_video blind acquires_observer
                  env duration
                  (map (fun keyword => keyword ++ " music background")
                       (inlineKeywords prompt)) w) as Ha.
    rewrite H1 in Ha. destruct Ha as [[l1 [T1 _]] _]. cbn [snd] in T1.
    destruct (Index_audio_loop_written _ _ _ _ _ _ H2) as [l [T Hin]].
    exists (l1 ++ l)%list. split; [rewrite T, T1, app_assoc; reflexivity |].
    apply in_or_app. right. exact Hin.
Qed.

(** Every run of [createVideo] of index.js calls the encoder once, on the
    frames and then the audio. *)
Lemma Index_createVideo_calls env frames audioPath duration w r w' :
  Index.createVideo env frames (Some audioPath) duration w = (r, w') ->
  exists command after,
    trace w' = (trace w ++ CFfmpeg command :: after)%list
    /\ Forall not_encoder after
    /\ map fst (inputs command) = (frames ++ [audioPath])%list.
Proof.
  unfold Index.createVideo, bind, clock, call, try_catch, ret, throw.
  cbn [fst snd]. intros H.
  match type of H with
  | context [CFfmpeg ?c] => exists c
  end.
  assert (Hin : forall out,
             map fst (inputs (Index.videoCommand frames (Some audioPath) duration out))
             = (frames ++ [audioPath])%list).
  { intros out. cbn [Index.videoCommand inputs]. rewrite map_app, map_map.
    cbn [map fst]. rewrite map_id. reflexivity. }
  destruct (outcome (ffmpeg env _ _)).
  - match type of H with
    | context [fs_stat env ?t ?p] => destruct (fs_stat env t p) as [size|e]
    end.
    + exists [CStat {| dir := "videos";
                       base := Js.String_of_Z (Date_now env (List.length (trace w)))
                               ++ ".mp4" |}].
      destruct (0 <? size); injection H as _ <-; cbn [log trace];
        rewrite <- app_assoc;
        (split; [reflexivity |]);
        (split; [constructor; [intros E; exact E | constructor] | apply Hin]).
    + exists [CStat {| dir := "videos";
                       base := Js.String_of_Z (Date_now env (List.length (trace w)))
                               ++ ".mp4" |}].
      injection H as _ <-; cbn [log trace]; rewrite <- app_assoc.
      split; [reflexivity |].
      split; [constructor; [intros E; exact E | constructor] | apply Hin].
  - exists []. injection H as _ <-. cbn [log trace].
    split; [reflexivity |]. split; [constructor | apply Hin].
Qed.

Lemma fed_by_writes_encoder l1 l2 frames audioPath command after rest :
  Forall not_encoder l1 -> Forall not_encoder l2 ->
  Forall not_encoder after -> Forall not_encoder rest ->
  (forall p, In p frames -> In (CWriteFile p) l1) ->
  In (CWriteFile audioPath) l2 ->
  map fst (inputs command) = (frames ++ [audioPath])%list ->
  fed_by_writes (l1 ++ l2 ++ (CFfmpeg command :: after) ++ rest).
Proof.
  intros F1 F2 Fa Fr Hf Ha Hin. right.
  exists (l1 ++ l2)%list, command, (after ++ rest)%list.
  split; [rewrite <- app_assoc; reflexivity |].
  split; [apply Forall_app; split; assumption |].
  split; [apply Forall_app; split; assumption |].
  intros p Hp. rewrite Hin in Hp. apply in_app_or in Hp.
  apply in_or_app. destruct Hp as [Hp|[<-|[]]].
  - left. exact (Hf p Hp).
  - right. exact Ha.
Qed.

Lemma Index_pipeline_feeds env prompt durationNum w :
  exists calls,
    trace (snd (Index.pipeline env prompt durationNum w)) = (trace w ++ calls)%list
    /\ fed_by_writes calls.
Proof.
  destruct (Index.pipeline env prompt durationNum w) as [res w'] eqn:Hrun.
  cbn [snd]. unfold Index.pipeline in Hrun. unfold bind at 1 in Hrun.
  destruct (Index.generateVideoFrames env prompt (frameCount durationNum) w)
    as [r1 w1] eqn:H1.
  destruct (acquired _ _ _ _
              (Index_generateVideoFrames_acquires acquires no_video blind
                 acquires_observer env prompt (frameCount durationNum)) H1)
    as [l1 [T1 F1]].
  destruct r1 as [frames|e];
    [| injection Hrun as _ <-; exists l1; split; [exact T1 | left; exact F1]].
  destruct (List.length frames =? 0)%nat;
    [injection Hrun as _ <-; exists l1; split; [exact T1 | left; exact F1] |].
  unfold bind at 1 in Hrun.
  destruct (Index.getAudioFromFreesound env prompt durationNum w1) as [r2 w2] eqn:H2.
  destruct (acquired _ _ _ _
              (Index_getAudioFromFreesound_acquires acquires no_video blind
                 acquires_observer env prompt durationNum) H2)
    as [l2 [T2 F2]].
  assert (Hstop : trace w2 = (trace w ++ l1 ++ l2)%list /\ Forall not_encoder (l1 ++ l2))
    by (split; [rewrite T2, T1, app_assoc; reflexivity
               | apply Forall_app; split; assumption]).
  destruct r2 as [[audioPath|]|e];
    try (injection Hrun as _ <-; exists (l1 ++ l2)%list;
         split; [exact (proj1 Hstop) | left; exact (proj2 Hstop)]).
  destruct (Index_generateVideoFrames_written _ _ _ _ _ _ H1) as [l1' [T1' W1]].
  rewrite T1 in T1'. apply app_inv_head in T1'. subst l1'.
  destruct (Index_getAudioFromFreesound_written _ _ _ _ _ _ H2) as [l2' [T2' W2]].
  rewrite T2 in T2'. apply app_inv_head in T2'. subst l2'.
  unfold bind at 1 in Hrun.
  destruct (Index.createVideo env frames (Some audioPath) durationNum w2)
    as [r3 w3] eqn:H3.
  destruct (Index_createVideo_calls _ _ _ _ _ _ _ H3) as [command [after [T3 [Fa Hin]]]].
  destruct r3 as [videoPath|e].
  - match type of Hrun with
    | ?m w3 = _ =>
        assert (Hrest : respects not_encoder any_video blind m)
    end.
    { respects_auto; try (intros E; exact E); try exact I.
      apply respects_unlink_all, quiet_stage_observer. }
    specialize (Hrest w3). rewrite Hrun in Hrest.
    destruct Hrest as [[rest [T4 Fr]] _]. cbn [snd] in T4.
    exists (l1 ++ l2 ++ (CFfmpeg command :: after) ++ rest)%list. split.
    + rewrite T4, T3, T2, T1, <- !app_assoc. reflexivity.
    + apply (fed_by_writes_encoder l1 l2 frames audioPath); assumption.
  - injection Hrun as _ <-.
    exists (l1 ++ l2 ++ (CFfmpeg command :: after) ++ [])%list. split.
    + rewrite T3, T2, T1, app_nil_r, <- !app_assoc. reflexivity.
    + apply (fed_by_writes_encoder l1 l2 frames audioPath); try assumption.
      constructor.
Qed.

Lemma Part000_frames_loop_written env prompt n remaining :
  forall i frames w frames' w',
    Part000.frames_loop env prompt n remaining i frames w = (Ok frames', w') ->
    exists l,
      trace w' = (trace w ++ l)%list
      /\ forall p, In p frames' -> In p frames \/ In (CWriteFile p) l.
Proof.
  induction remaining as [|k IH]; intros i frames w frames' w' H.
  - cbn in H. injection H as <- <-. exists []. rewrite app_nil_r.
    split; [reflexivity | intros p Hp; left; exact Hp].
  - cbn [Part000.frames_loop] in H. cbv zeta in H.
    apply bind_Ok_inv in H. destruct H as [frames1 [w1 [Hit H]]].
    destruct (IH _ _ _ _ _ H) as [l [T Hin]].
    unfold writeFile, try_catch, bind, call, clock, set_status, set_progress,
      assign, ret, throw in Hit. cbn [fst snd] in Hit.
    destruct (stability env _ _) as [resp|e0]; [| discriminate Hit].
    destruct (artifact_base64 resp) as [[|c s]|]; try discriminate Hit.
    cbn [fst snd log trace] in Hit.
    match type of Hit with
    | context [fs_writeFile env ?t ?p] =>
        destruct (fs_writeFile env t p) as [[]|e1]; [| discriminate Hit]
    end.
    injection Hit as <- <-. cbn [trace] in T.
    eexists. split; [rewrite T, <- !app_assoc; reflexivity |].
    intros p Hp. destruct (Hin p Hp) as [Hf|Hl].
    + apply in_app_or in Hf. destruct Hf as [Hf|[<-|[]]].
      * left. exact Hf.
      * right. cbn. right. left. reflexivity.
    + right. cbn. right. right. exact Hl.
Qed.

Lemma Part000_generateVideoFrames_written env prompt n w frames w' :
  Part000.generateVideoFrames env prompt n w = (Ok frames, w') ->
  exists l,
    trace w' = (trace w ++ l)%list
    /\ forall p, In p frames -> In (CWriteFile p) l.
Proof.
  unfold Part000.generateVideoFrames, try_catch. intros H.
  destruct (negb (Js.truthy (STABILITY_API_KEY env))).
  - unfold throw, bind, set_error, assign in H. discriminate H.
  - destruct (Part000.frames_loop env prompt n (Z.to_nat n) 1 [] w)
      as [[frames1|e] w1] eqn:H1.
    + injection H as <- <-.
      destruct (Part000_frames_loop_written _ _ _ _ _ _ _ _ _ H1) as [l [T Hin]].
      exists l. split; [exact T |].
      intros p Hp. destruct (Hin p Hp) as [[]|Hl]. exact Hl.
    + unfold throw, bind, set_error, assign in H. discriminate H.
Qed.

Lemma Part000_generateMusicFromPrompt_written env prompt duration w audioPath w' :
  Part000.generateMusicFromPrompt env prompt duration w = (Ok audioPath, w') ->
  exists l, trace w' = (trace w ++ l)%list /\ In (CWriteFile audioPath) l.
Proof.
  unfold Part000.generateMusicFromPrompt. rewrite try_catch_rethrow. intros H.
  apply bind_Ok_inv in H. destruct H as [data [w1 [H1 H]]].
  unfold call in H1. injection H1 as _ <-.
  apply bind_Ok_inv in H. destruct H as [t [w2 [H2 H]]].
  unfold clock in H2. injection H2 as <- <-.
  apply bind_Ok_inv in H. destruct H as [[] [w3 [H3 H]]].
  unfold writeFile, call in H3. injection H3 as _ <-.
  unfold ret in H. injection H as <- <-.
  eexists. split; [cbn [log trace]; rewrite <- app_assoc; reflexivity |].
  right. left. reflexivity.
Qed.

(** Every run of [createVideo] of part_000 calls the encoder once, on the
    frames and then the audio, and nothing else. *)
Lemma Part000_createVideo_calls env frames audioPath duration w r w' :
  Part000.createVideo env frames audioPath duration w = (r, w') ->
  exists command,
    trace w' = (trace w ++ [CFfmpeg command])%list
    /\ map fst (inputs command) = (frames ++ [audioPath])%list.
Proof.
  unfold Part000.createVideo. unfold bind at 1 2. unfold clock, call.
  cbn [fst snd]. intros H.
  match type of H with
  | context [CFfmpeg ?c] => exists c
  end.
  unfold bind in H.
  match type of H with
  | context [Part000.on_progress ?ev ?w0] =>
      destruct (on_progress_run ev w0) as [w2 [E [T _]]]
  end.
  rewrite E in H. cbn [log trace] in T.
  split.
  - rewrite <- T. destruct (outcome _); injection H as _ <-; reflexivity.
  - cbn [Part000.videoCommand inputs]. rewrite map_app, map_map.
    cbn [map fst]. rewrite map_id. reflexivity.
Qed.

Lemma bind_assign {A} (f : Progress -> Progress) (k : unit -> M A) (w : World) :
  exists w1, bind (assign f) k w = k tt w1 /\ trace w1 = trace w.
Proof. eexists. split; reflexivity. Qed.

Ltac assign_step H w1 T :=
  match type of H with
  | bind (assign ?f) ?k ?w0 = _ =>
      destruct (bind_assign f k w0) as [w1 [?E T]];
      match goal with
      | E0 : bind (assign f) k w0 = _ |- _ => rewrite E0 in H; clear E0
      end
  end.

Lemma Part000_pipeline_feeds env prompt durationNum w :
  exists calls,
    trace (snd (Part000.pipeline env prompt durationNum w)) = (trace w ++ calls)%list
    /\ fed_by_writes calls.
Proof.
  destruct (Part000.pipeline env prompt durationNum w) as [res w'] eqn:Hrun.
  cbn [snd]. unfold Part000.pipeline, set_status, set_progress in Hrun.
  assign_step Hrun wa Ta.
  assign_step Hrun wb Tb.
  rewrite <- Ta, <- Tb. clear Ta Tb w wa. rename wb into w.
  unfold bind at 1 in Hrun.
  destruct (Part000.generateVideoFrames env prompt (frameCount durationNum) w)
    as [r1 w1] eqn:H1.
  destruct (acquired _ _ _ _
              (Part000_generateVideoFrames_acquires acquires no_video blind
                 acquires_observer env prompt (frameCount durationNum)) H1)
    as [l1 [T1 F1]].
  destruct r1 as [frames|e];
    [| injection Hrun as _ <-; exists l1; split; [exact T1 | left; exact F1]].
  assign_step Hrun wc Tc.
  assign_step Hrun wd Td.
  unfold bind at 1 in Hrun.
  destruct (Part000.generateMusicFromPrompt env prompt durationNum wd)
    as [r2 w2] eqn:H2.
  destruct (acquired _ _ _ _
              (Part000_generateMusicFromPrompt_acquires acquires no_video blind
                 acquires_observer env prompt durationNum) H2)
    as [l2 [T2 F2]].
  rewrite Td, Tc in T2.
  destruct r2 as [audioPath|e].
  2:{ injection Hrun as _ <-. exists (l1 ++ l2)%list. split.
      - rewrite T2, T1, app_assoc. reflexivity.
      - left. apply Forall_app. split; assumption. }
  destruct (Part000_generateVideoFrames_written _ _ _ _ _ _ H1) as [l1' [T1' W1]].
  rewrite T1 in T1'. apply app_inv_head in T1'. subst l1'.
  destruct (Part000_generateMusicFromPrompt_written _ _ _ _ _ _ H2) as [l2' [T2' W2]].
  rewrite Td, Tc, T2 in T2'. apply app_inv_head in T2'. subst l2'.
  assign_step Hrun we Te.
  assign_step Hrun wf Tf.
  unfold bind at 1 in Hrun.
  destruct (Part000.createVideo env frames audioPath durationNum wf)
    as [r3 w3] eqn:H3.
  destruct (Part000_createVideo_calls _ _ _ _ _ _ _ H3) as [command [T3 Hin]].
  rewrite Tf, Te in T3.
  destruct r3 as [videoPath|e].
  - match type of Hrun with
    | ?m w3 = _ =>
        assert (Hrest : respects not_encoder any_video blind m)
    end.
    { respects_auto; try (intros E; exact E); try exact I.
      apply respects_unlink_all, quiet_stage_observer. }
    specialize (Hrest w3). rewrite Hrun in Hrest.
    destruct Hrest as [[rest [T4 Fr]] _]. cbn [snd] in T4.
    exists (l1 ++ l2 ++ (CFfmpeg command :: []) ++ rest)%list. split.
    + rewrite T4, T3, T2, T1, <- !app_assoc. reflexivity.
    + apply (fed_by_writes_encoder l1 l2 frames audioPath); try assumption.
      constructor.
  - injection Hrun as _ <-.
    exists (l1 ++ l2 ++ (CFfmpeg command :: []) ++ [])%list. split.
    + rewrite T3, T2, T1, <- !app_assoc. reflexivity.
    + apply (fed_by_writes_encoder l1 l2 frames audioPath); try assumption;
        constructor.
Qed.

(** X13.  In both routes the encoder only reads what the run wrote.  The
    calls of a run of a route either never run the encoder, or run it exactly
    once; and then every input of the command, each frame and the audio, is
    a path that the run passed to [fs.writeFile] before that call. *)
Theorem encoder_reads_what_the_run_wrote (env : Env) (body : Body) (w : World) :
  (exists calls,
      trace (snd (Index.generate_video env body w)) = (trace w ++ calls)%list
      /\ fed_by_writes calls)
  /\ (exists calls,
         trace (snd (Part000.generate_video env body w)) = (trace w ++ calls)%list
         /\ fed_by_writes calls).
Proof.
  assert (Hnone : exists calls, trace w = (trace w ++ calls)%list /\ fed_by_writes calls).
  { exists []. rewrite app_nil_r. split; [reflexivity | left; constructor]. }
  split.
  - unfold Index.generate_video, try_catch.
    destruct (invalid body) eqn:Hinv; [exact Hnone |].
    destruct (invalid_false body Hinv) as [p [d [-> ->]]].
    pose proof (Index_pipeline_feeds env p d w) as H.
    destruct (Index.pipeline env p d w) as [[r|e] w1]; exact H.
  - unfold Part000.generate_video, try_catch.
    destruct (invalid body) eqn:Hinv; [exact Hnone |].
    destruct (invalid_false body Hinv) as [p [d [-> ->]]].
    pose proof (Part000_pipeline_feeds env p d w) as H.
    destruct (Part000.pipeline env p d w) as [[r|e] w1]; exact H.
Qed.

(** ** The requests of the form *)




(** ** The word count of the form *)

Lemma words_of_leading lead s :
  all_chars Js.is_space lead = true -> words_of (lead ++ s) = words_of s.
Proof.
  induction lead as [|c lead IH]; intros H; [reflexivity |].
  cbn [all_chars] in H. apply andb_true_iff in H. destruct H as [Hc H].
  unfold words_of in *. unfold Js.split at 1.
  change ((String c lead ++ s)%string) with (("" ++ String c (lead ++ s))%string).
  rewrite (split_go_app Js.is_space "" (lead ++ s) c Hc "" false) by discriminate.
  cbn. exact (IH H).
Qed.

Lemma words_of_spaces s : all_chars Js.is_space s = true -> words_of s = [].
Proof.
  intros H. pose proof (words_of_leading s "" H) as E.
  assert (Es : (s ++ "")%string = s).
  { clear. induction s as [|c s IH]; cbn; [reflexivity | rewrite IH; reflexivity]. }
  rewrite Es in E. exact E.
Qed.

Lemma words_of_trailing s trail :
  all_chars Js.is_space trail = true -> words_of (s ++ trail) = words_of s.
Proof.
  destruct trail as [|c trail]; intros H.
  - f_equal. clear. induction s as [|c s IH]; cbn; [reflexivity | rewrite IH; reflexivity].
  - cbn [all_chars] in H. apply andb_true_iff in H. destruct H as [Hc H].
    unfold words_of. unfold Js.split at 1.
    rewrite (split_go_app Js.is_space s trail c Hc "" false) by discriminate.
    fold (words_of trail). rewrite (words_of_spaces trail H), app_nil_r. reflexivity.
Qed.

Lemma trimStart_spec s :
  exists lead,
    s = (lead ++ Js.trimStart s)%string
    /\ all_chars Js.is_space lead = true
    /\ (Js.trimStart s = "" \/
        starts_with_char (fun c => negb (Js.is_space c)) (Js.trimStart s) = true).
Proof.
  induction s as [|c s [lead [E [Hl Hs]]]].
  - exists "". cbn. auto.
  - cbn [Js.trimStart]. destruct (Js.is_space c) eqn:Hc.
    + exists (String c lead). cbn. rewrite <- E, Hc, Hl. auto.
    + exists "". cbn. rewrite Hc. auto.
Qed.

Lemma trimEnd_spec s :
  exists trail,
    s = (Js.trimEnd s ++ trail)%string
    /\ all_chars Js.is_space trail = true
    /\ (Js.trimEnd s = "" \/
        ends_with (fun c => negb (Js.is_space c)) (Js.trimEnd s) = true)
    /\ (starts_with_char (fun c => negb (Js.is_space c)) s = true ->
        starts_with_char (fun c => negb (Js.is_space c)) (Js.trimEnd s) = true).
Proof.
  induction s as [|c s [trail [E [Hl [Hs _]]]]].
  - exists "". cbn. repeat split; auto.
  - cbn [Js.trimEnd]. destruct (Js.trimEnd s) as [|d t] eqn:Ht.
    + cbn in E. subst trail. destruct (Js.is_space c) eqn:Hc.
      * exists (String c s). cbn. rewrite Hc, Hl.
        split; [reflexivity |]. split; [reflexivity |]. split; [left; reflexivity |].
        discriminate.
      * exists s. cbn. rewrite Hc.
        split; [reflexivity |]. split; [exact Hl |]. split; [right; reflexivity |].
        reflexivity.
    + exists trail. cbn in E |- *. rewrite <- E.
      split; [reflexivity |]. split; [exact Hl |]. split.
      * right. destruct Hs as [Hs|Hs]; [discriminate Hs |]. exact Hs.
      * intros H. exact H.
Qed.

(** A text that neither starts nor ends with a separator splits into
    pieces that are not empty. *)
Lemma split_go_no_empty (sep : ascii -> bool) s :
  forall cur in_run,
    (s = "" -> cur <> "") ->
    (s <> "" -> ends_with (fun c => negb (sep c)) s = true) ->
    (in_run = false ->
     cur <> "" \/ starts_with_char (fun c => negb (sep c)) s = true) ->
    Forall (fun piece => nonempty piece = true) (Js.split_go sep s cur in_run).
Proof.
  induction s as [|c s IH]; intros cur in_run Hend Hlast Hcur.
  - cbn. constructor; [| constructor].
    destruct cur; [destruct (Hend eq_refl eq_refl) | reflexivity].
  - assert (Hlast' : s <> "" -> ends_with (fun c => negb (sep c)) s = true).
    { intros Hs. specialize (Hlast ltac:(discriminate)).
      destruct s; [destruct (Hs eq_refl) | exact Hlast]. }
    cbn [Js.split_go]. destruct (sep c) eqn:Hc.
    + assert (Hs : s <> "").
      { intros ->. specialize (Hlast ltac:(discriminate)). cbn in Hlast.
        rewrite Hc in Hlast. discriminate. }
      assert (Hrest : Forall (fun piece => nonempty piece = true)
                        (Js.split_go sep s "" true)).
      { apply IH; [intros E; destruct (Hs E) | exact Hlast' | discriminate]. }
      destruct in_run; [exact Hrest |].
      constructor; [| exact Hrest].
      destruct (Hcur eq_refl) as [H|H].
      * destruct cur; [destruct (H eq_refl) | reflexivity].
      * cbn in H. rewrite Hc in H. discriminate.
    + apply IH.
      * intros _. destruct cur; discriminate.
      * exact Hlast'.
      * intros _. left. destruct cur; discriminate.
Qed.

Lemma filter_all {A} (f : A -> bool) l :
  Forall (fun x => f x = true) l -> filter f l = l.
Proof.
  induction 1 as [|x l Hx _ IH]; cbn; [reflexivity |].
  rewrite Hx, IH. reflexivity.
Qed.

(** X15.  The word count that [handlePromptChange] stores is the number of
    words of the text typed: its maximal runs of characters that are not
    white space.  White space before, after and between the words does not
    change the count, and a blank text counts 0; the handler leaves the
    duration as it is. *)
Theorem word_count_counts_words (value : string) (st : VideoGenerator.State) :
  VideoGenerator.wordCount (VideoGenerator.handlePromptChange value st)
  = Z.of_nat (List.length (words_of value))
  /\ Forall (fun word => all_chars (fun c => negb (Js.is_space c)) word = true
                         /\ word <> "")
            (words_of value)
  /\ VideoGenerator.prompt (VideoGenerator.handlePromptChange value st) = value
  /\ VideoGenerator.duration (VideoGenerator.handlePromptChange value st)
     = VideoGenerator.duration st.
Proof.
  split; [| split; [| split; reflexivity]].
  - cbn [VideoGenerator.handlePromptChange VideoGenerator.wordCount].
    unfold Js.trim.
    destruct (trimStart_spec value) as [lead [E1 [Hlead Hstart]]].
    destruct (trimEnd_spec (Js.trimStart value)) as [trail [E2 [Htrail [Hend Hkeep]]]].
    assert (Ew : words_of value = words_of (Js.trimEnd (Js.trimStart value))).
    { rewrite E1 at 1. rewrite (words_of_leading _ _ Hlead).
      rewrite E2 at 1. apply words_of_trailing. exact Htrail. }
    rewrite Ew.
    destruct (Js.trimEnd (Js.trimStart value)) as [|c core] eqn:Hcore;
      [reflexivity |].
    cbn [Js.truthy]. do 2 f_equal. unfold words_of. symmetry. apply filter_all.
    apply split_go_no_empty.
    + discriminate.
    + intros _. destruct Hend as [H|H]; [discriminate H | exact H].
    + intros _. right. apply Hkeep.
      destruct Hstart as [H|H]; [| exact H].
      rewrite H in Hcore. discriminate Hcore.
  - unfold words_of. apply Forall_forall. intros word Hin.
    apply filter_In in Hin. destruct Hin as [Hin Hne].
    pose proof (split_go_pieces Js.is_space (fun _ => true) value "" false
                  eq_refl) as H.
    assert (Hall : all_chars (fun _ => true) value = true).
    { clear. induction value as [|c s IH]; cbn; [reflexivity | exact IH]. }
    specialize (H Hall). rewrite Forall_forall in H.
    split; [exact (H word Hin) |].
    intros ->. discriminate Hne.
Qed.

(** ** Requests of part_000 for no time at all *)

Lemma frameCount_nonpositive (d : Q) : (d <= 0)%Q -> frameCount d <= 0.
Proof.
  intros H. unfold frameCount, Js.Math_ceil.
  change 0 with (Qceiling 0). apply Qceiling_resp_le.
  unfold Qdiv. rewrite <- (Qmult_0_l (/ 2)).
  apply Qmult_le_compat_r; [exact H | discriminate].
Qed.

(** X16.  A duration of zero or less passes the validation of part_000 and
    then asks for no frame at all: with an API key, the frame stage returns
    an empty list without a call or a report, the first call of the route is
    the one to the music service, and an encoder that is run gets the audio
    file as its only input. *)
Theorem part000_nonpositive_duration_has_no_frames (env : Env)
  (prompt : string) (d : Q) (w : World) :
  (d <= 0)%Q ->
  Js.truthy (Js.trim prompt) = true ->
  Js.truthy (STABILITY_API_KEY env) = true ->
  let body := {| body_prompt := Some prompt; body_duration := Js.Num d |} in
  invalid body = false
  /\ Part000.generateVideoFrames env prompt (frameCount d) w = (Ok [], w)
  /\ exists calls,
       trace (snd (Part000.generate_video env body w))
       = (trace w ++ CAudioCraft prompt d :: calls)%list
       /\ forall command,
            In (CFfmpeg command) calls ->
            exists audioPath, inputs command = [(audioPath, [])].
Proof.
  intros Hd Hprompt Hkey body.
  assert (Hinv : invalid body = false).
  { unfold invalid, body. cbn [body_prompt body_duration Js.isNaN].
    rewrite Hprompt. reflexivity. }
  assert (Hframes : forall w0,
             Part000.generateVideoFrames env prompt (frameCount d) w0 = (Ok [], w0)).
  { intros w0. unfold Part000.generateVideoFrames, try_catch.
    rewrite Hkey. cbn [negb].
    replace (Z.to_nat (frameCount d)) with O
      by (pose proof (frameCount_nonpositive d Hd); lia).
    reflexivity. }
  split; [exact Hinv |]. split; [apply Hframes |].
  unfold Part000.generate_video, try_catch. rewrite Hinv.
  unfold body. cbn [body_prompt body_duration].
  assert (Hpipe : exists calls,
             trace (snd (Part000.pipeline env prompt d w))
             = (trace w ++ CAudioCraft prompt d :: calls)%list
             /\ forall command,
                  In (CFfmpeg command) calls ->
                  exists audioPath, inputs command = [(audioPath, [])]).
  { destruct (Part000.pipeline env prompt d w) as [res w'] eqn:Hrun.
    cbn [snd]. unfold Part000.pipeline, set_status, set_progress in Hrun.
    assign_step Hrun wa Ta. assign_step Hrun wb Tb.
    rewrite (bind_Ok _ _ wb [] wb (Hframes wb)) in Hrun.
    assign_step Hrun wc Tc. assign_step Hrun wd Td.
    assert (Tw : trace wd = trace w) by (rewrite Td, Tc, Tb, Ta; reflexivity).
    unfold bind at 1 in Hrun.
    destruct (Part000.generateMusicFromPrompt env prompt d wd) as [r2 w2] eqn:H2.
    assert (E2 : exists l2, trace w2 = (trace w ++ CAudioCraft prompt d :: l2)%list
                            /\ Forall not_encoder l2).
    { unfold Part000.generateMusicFromPrompt in H2.
      rewrite try_catch_rethrow in H2.
      unfold bind at 1 in H2. unfold call at 1 in H2.
      destruct (audiocraft env (List.length (trace wd)) prompt d) as [data|e].
      - match type of H2 with
        | ?m (log ?c wd) = _ =>
            assert (Hm : respects not_encoder no_video blind m)
        end.
        { unfold writeFile. respects_auto. intros E. exact E. }
        specialize (Hm (log (CAudioCraft prompt d) wd)). rewrite H2 in Hm.
        destruct Hm as [[l2 [T2 F2]] _]. cbn [snd log trace] in T2.
        exists l2. split; [rewrite T2, Tw, <- app_assoc; reflexivity | exact F2].
      - injection H2 as _ <-. exists []. cbn [log trace]. rewrite Tw.
        split; [reflexivity | constructor]. }
    destruct E2 as [l2 [T2 F2]].
    assert (Hnone : forall l command,
               Forall not_encoder l -> In (CFfmpeg command) l ->
               exists audioPath, inputs command = [(audioPath, [])]).
    { intros l command F Hin. rewrite Forall_forall in F.
      exfalso. apply (F _ Hin). exact I. }
    destruct r2 as [audioPath|e].
    2:{ injection Hrun as _ <-. exists l2. split; [exact T2 |].
        intros command. apply Hnone. exact F2. }
    assign_step Hrun we Te. assign_step Hrun wf Tf.
    unfold bind at 1 in Hrun.
    destruct (Part000.createVideo env [] audioPath d wf) as [r3 w3] eqn:H3.
    assert (E3 : exists out,
               trace w3
               = (trace w ++ CAudioCraft prompt d
                    :: l2 ++ [CFfmpeg (Part000.videoCommand [] audioPath out)])%list).
    { unfold Part000.createVideo in H3. unfold bind at 1 2 in H3.
      unfold clock, call in H3. cbn [fst snd] in H3. unfold bind in H3.
      match type of H3 with
      | context [Part000.on_progress ?ev ?w0] =>
          destruct (on_progress_run ev w0) as [w4 [E [T _]]]
      end.
      rewrite E in H3. cbn [log trace] in T.
      eexists. 
      assert (T3 : trace w3 = trace w4)
        by (destruct (outcome _); injection H3 as _ <-; reflexivity).
      rewrite T3, T, Tf, Te, T2, <- app_assoc. reflexivity. }
    destruct E3 as [out T3].
    assert (Hcmd : forall rest command,
               Forall not_encoder rest ->
               In (CFfmpeg command)
                  (l2 ++ [CFfmpeg (Part000.videoCommand [] audioPath out)] ++ rest) ->
               exists audioPath, inputs command = [(audioPath, [])]).
    { intros rest command Fr Hin.
      apply in_app_or in Hin. destruct Hin as [Hin|Hin]; [exact (Hnone _ _ F2 Hin) |].
      apply in_app_or in Hin. destruct Hin as [[Hin|[]]|Hin].
      - injection Hin as <-. exists audioPath. reflexivity.
      - exact (Hnone _ _ Fr Hin). }
    destruct r3 as [videoPath|e].
    - match type of Hrun with
      | ?m w3 = _ =>
          assert (Hrest : respects not_encoder any_video blind m)
      end.
      { respects_auto; try (intros E; exact E); try exact I.
        apply respects_ret. }
      specialize (Hrest w3). rewrite Hrun in Hrest.
      destruct Hrest as [[rest [T4 Fr]] _]. cbn [snd] in T4.
      exists (l2 ++ [CFfmpeg (Part000.videoCommand [] audioPath out)] ++ rest)%list.
      split.
      + rewrite T4, T3.
        repeat (rewrite <- app_assoc || rewrite <- app_comm_cons). reflexivity.
      + intros command. apply Hcmd. exact Fr.
    - injection Hrun as _ <-.
      exists (l2 ++ [CFfmpeg (Part000.videoCommand [] audioPath out)] ++ [])%list.
      split.
      + rewrite T3, app_nil_r. reflexivity.
      + intros command. apply Hcmd. constructor. }
  destruct (Part000.pipeline env prompt d w) as [[r|e] w1]; exact Hpipe.
Qed.

Lemma part000_nonpositive_duration_has_no_frames_witness :
  invalid {| body_prompt := Some "a calm lake at sunrise"; body_duration := Js.Num 0 |}
  = false
  /\ Part000.generateVideoFrames happyEnv "a calm lake at sunrise" (frameCount 0)
       initialWorld
     = (Ok [], initialWorld).
Proof.
  pose proof (part000_nonpositive_duration_has_no_frames happyEnv
                "a calm lake at sunrise" 0 initialWorld
                ltac:(discriminate) eq_refl eq_refl) as H.
  split; [exact (proj1 H) | exact (proj1 (proj2 H))].
Defined.
